(** * marwind: the tiling core of the window manager

    A shallow embedding of the render engine ([renderOutput], [renderDock],
    [renderWorkspace], [renderColumn], [renderFrame]) and of the move
    operations ([moveWindow], [switchWorkspace], [moveFrameToWorkspace],
    [ensureWorkspace]) of package [wm].

    The Go code works on a graph of pointers (to frames, columns,
    workspaces and outputs) that it mutates in place, and talks to the X
    server through checked requests.  The embedding keeps both: the objects
    live in four stores indexed by addresses, and every checked request is
    appended to a log and answered by the server of the world. *)

From Stdlib Require Import ZArith String.
From stdpp Require Import gmap list.

Local Open Scope Z_scope.

(** ** Machine integers *)

Definition wrap32 (z : Z) : Z := z mod 2 ^ 32.
Definition add32 (a b : Z) : Z := wrap32 (a + b).
Definition sub32 (a b : Z) : Z := wrap32 (a - b).
Definition mul32 (a b : Z) : Z := wrap32 (a * b).

(** Go conversions [uint16(x)] and [int16(x)] of a [uint32]. *)
Definition to_uint16 (z : Z) : Z := z mod 2 ^ 16.
Definition to_int16 (z : Z) : Z := (z + 2 ^ 15) mod 2 ^ 16 - 2 ^ 15.

(** ** Data model *)

(** [xproto.Window]. *)
Definition Window := Z.

(** Address of an object in one of the stores.  A [nil] or dangling pointer
    is an address the store does not hold; dereferencing it panics. *)
Definition ptr := nat.
Bind Scope nat_scope with ptr.

(** [x11.Geom]. *)
Record Geom := mkGeom { geomX : Z; geomY : Z; geomW : Z; geomH : Z }.

Inductive winType := winTypeUnknown | winTypeNormal | winTypeDock.

(** Modelled from the spec: the declaration of [client] is not among the
    source files; the underlying window handle of a frame, the field the
    tiling core reads. *)
Record client := mkClient { window : Window }.

(** [frame] of frame.go.  [f_col] and [f_titlebar] are nullable pointers;
    [f_client] stands for the client the frame points to. *)
Record frame := mkFrame {
  f_col : option ptr;
  f_parent : Window;
  f_client : client;
  f_height : Z;
  f_typ : winType;
  f_mapped : bool;
  f_geom : Geom;
  f_titlebar : option ptr
}.

(** Modelled from the spec: the declaration of [column] is not among the
    source files.  "Ordered sequence of frames plus a width share", with
    the back-reference [ws] the source reads. *)
Record column := mkColumn {
  c_ws : option ptr;
  c_frames : list ptr;
  c_width : Z
}.

(** Modelled from the spec: the declaration of [workspace] is not among
    the source files.  "Ordered sequence of columns, an identifier, and a
    back-reference to the owning output (nil until first assigned)". *)
Record workspace := mkWorkspace {
  ws_id : Z;
  ws_columns : list ptr;
  ws_output : option ptr
}.

(** Modelled from the spec: the declaration of [dockArea] is not among the
    source files; "a fixed-size registry of dock areas (top, bottom)". *)
Inductive dockArea := dockAreaTop | dockAreaBottom.

(** Modelled from the spec: the declaration of [output] is not among the
    source files.  "A rectangle describing the physical display", the
    dock areas "each holding an ordered sequence of dock frames", the
    workspaces of the output "and the currently active workspace". *)
Record output := mkOutput {
  o_geom : Geom;
  o_dockTop : list ptr;
  o_dockBottom : list ptr;
  o_workspaces : list ptr;
  o_activeWs : option ptr
}.

Definition o_dockAreas (o : output) (area : dockArea) : list ptr :=
  match area with
  | dockAreaTop => o_dockTop o
  | dockAreaBottom => o_dockBottom o
  end.

(** Modelled from the spec: the declaration of [Config] is not among the
    source files.  [InnerGap] is the field renderColumn reads, an unsigned
    32-bit number as the arithmetic it enters; [ColumnWidth] is the
    "configured default" width of a new column. *)
Record Config := mkConfig { InnerGap : Z; ColumnWidth : Z }.

(** [WM] of wm.go: the fields the tiling core reads ([workspaces] is an
    array of ten pointers). *)
Record WM := mkWM {
  wm_outputs : list ptr;
  wm_config : Config;
  wm_workspaces : list ptr;
  wm_activeWin : Window
}.

(** ** Errors *)

(** A Go [error] is either an error reply of the X server or the result of
    a [fmt.Errorf] call; the calls of the source have no operand, one
    integer operand or one error operand. *)
Inductive error :=
| XError (code : Z)
| Errorf (format : string)
| ErrorfInt (format : string) (n : Z)
| ErrorfErr (format : string) (cause : error).

(** ** The X server *)

(** [xproto.ConfigureNotifyEvent]. *)
Record ConfigureNotifyEvent := mkConfigureNotify {
  cn_Event : Window;
  cn_Window : Window;
  cn_X : Z;
  cn_Y : Z;
  cn_Width : Z;
  cn_Height : Z;
  cn_BorderWidth : Z;
  cn_AboveSibling : Window;
  cn_OverrideRedirect : bool
}.

(** The checked requests the core issues.  The last three stand for the
    collaborators of the core that are not part of it (desktop hints and
    focus); each is one request that the server accepts or rejects. *)
Inductive XReq :=
| ConfigureWindow (win : Window) (mask : Z) (values : list Z)
| SendEvent (propagate : bool) (dest : Window) (evmask : Z)
            (ev : ConfigureNotifyEvent)
| UnmapWindow (win : Window)
| DesktopHints
| RemoveFocus
| SetFocus (win : Window) (time : Z).

Definition ConfigWindowX : Z := 1.
Definition ConfigWindowY : Z := 2.
Definition ConfigWindowWidth : Z := 4.
Definition ConfigWindowHeight : Z := 8.
Definition EventMaskStructureNotify : Z := 131072.
Definition TimeCurrentTime : Z := 0.

(** ** The world *)

(** The state the single thread of the manager works on: the [WM] value,
    the four stores, the server (it answers a request knowing every request
    made so far, the current one last) and the log of requests. *)
Record World := mkWorld {
  wm : WM;
  h_frames : gmap ptr frame;
  h_columns : gmap ptr column;
  h_workspaces : gmap ptr workspace;
  h_outputs : gmap ptr output;
  xsrv : list XReq -> option error;
  xlog : list XReq
}.

Definition set_wm (m : WM) (w : World) : World :=
  mkWorld m (h_frames w) (h_columns w) (h_workspaces w) (h_outputs w)
          (xsrv w) (xlog w).
Definition set_frames (h : gmap ptr frame) (w : World) : World :=
  mkWorld (wm w) h (h_columns w) (h_workspaces w) (h_outputs w)
          (xsrv w) (xlog w).
Definition set_columns (h : gmap ptr column) (w : World) : World :=
  mkWorld (wm w) (h_frames w) h (h_workspaces w) (h_outputs w)
          (xsrv w) (xlog w).
Definition set_workspaces (h : gmap ptr workspace) (w : World) : World :=
  mkWorld (wm w) (h_frames w) (h_columns w) h (h_outputs w)
          (xsrv w) (xlog w).
Definition set_outputs (h : gmap ptr output) (w : World) : World :=
  mkWorld (wm w) (h_frames w) (h_columns w) (h_workspaces w) h
          (xsrv w) (xlog w).
Definition set_xlog (l : list XReq) (w : World) : World :=
  mkWorld (wm w) (h_frames w) (h_columns w) (h_workspaces w) (h_outputs w)
          (xsrv w) l.

(** ** The monad of the embedding: state, and panics of the Go runtime *)

Inductive outcome (A : Type) :=
| Ret (a : A) (w : World)
| Panic.
Arguments Ret {A} a w.
Arguments Panic {A}.

Definition M (A : Type) : Type := World -> outcome A.

Definition ret {A} (a : A) : M A := fun w => Ret a w.
Definition bind {A B} (m : M A) (k : A -> M B) : M B :=
  fun w => match m w with
           | Ret a w' => k a w'
           | Panic => Panic
           end.
Definition panic {A} : M A := fun _ => Panic.

Notation "'let!' x ':=' m 'in' k" := (bind m (fun x => k))
  (at level 10, x name, m at level 100, k at level 200, only parsing).

Definition gets {A} (f : World -> A) : M A := fun w => Ret (f w) w.
Definition modify (f : World -> World) : M unit := fun w => Ret tt (f w).

(** Dereferencing a pointer into one of the stores. *)
Definition deref {A} (heap : World -> gmap ptr A) (p : ptr) : M A :=
  fun w => match heap w !! p with
           | Some a => Ret a w
           | None => Panic
           end.

(** A nullable pointer that is about to be dereferenced. *)
Definition nonnil (p : option ptr) : M ptr :=
  match p with
  | Some a => ret a
  | None => panic
  end.

Definition store_frame (p : ptr) (f : frame) : M unit :=
  modify (fun w => set_frames (<[p := f]> (h_frames w)) w).
Definition store_column (p : ptr) (c : column) : M unit :=
  modify (fun w => set_columns (<[p := c]> (h_columns w)) w).
Definition store_workspace (p : ptr) (s : workspace) : M unit :=
  modify (fun w => set_workspaces (<[p := s]> (h_workspaces w)) w).
Definition store_output (p : ptr) (o : output) : M unit :=
  modify (fun w => set_outputs (<[p := o]> (h_outputs w)) w).

(** A checked request: logged, then answered by the server. *)
Definition xreq (r : XReq) : M (option error) :=
  fun w => let l := xlog w ++ [r] in Ret (xsrv w l) (set_xlog l w).

(** ** The render engine (src/unnamed/part_000) *)

Definition set_geom (f : frame) (g : Geom) : frame :=
  mkFrame (f_col f) (f_parent f) (f_client f) (f_height f) (f_typ f)
          (f_mapped f) g (f_titlebar f).

Definition configureMask : Z :=
  Z.lor (Z.lor (Z.lor ConfigWindowX ConfigWindowY) ConfigWindowWidth)
        ConfigWindowHeight.

Definition renderFrame (f : ptr) (geom : Geom) : M (option error) :=
  let! fr := deref h_frames f in
  if negb (f_mapped fr) then ret None
  else
    let! _ := store_frame f (set_geom fr geom) in
    let mask := to_uint16 configureMask in
    let values := [geomX geom; geomY geom; geomW geom; geomH geom] in
    let! e1 := xreq (ConfigureWindow (f_parent fr) mask values) in
    match e1 with
    | Some err => ret (Some err)
    | None =>
      let! e2 := xreq (ConfigureWindow (window (f_client fr)) mask
                                  [0; 0; geomW geom; geomH geom]) in
      match e2 with
      | Some err => ret (Some err)
      | None =>
        let ev := mkConfigureNotify
                    (window (f_client fr)) (window (f_client fr))
                    (to_int16 (geomX geom)) (to_int16 (geomY geom))
                    (to_uint16 (geomW geom)) (to_uint16 (geomH geom))
                    0 0 true in
        let! e3 := xreq (SendEvent false (window (f_client fr))
                              EventMaskStructureNotify ev) in
        match e3 with
        | Some err => ret (Some err)
        | None => ret None
        end
      end
    end.

(** [if e := ...; e != nil { err = e }]. *)
Definition keep_error (err e : option error) : option error :=
  match e with
  | Some _ => e
  | None => err
  end.

Fixpoint renderColumn_loop (gap : Z) (geom : Geom) (fs : list ptr)
         (y : Z) (err : option error) : M (option error) :=
  match fs with
  | [] => ret err
  | f :: fs' =>
    let! fr := deref h_frames f in
    let fg := mkGeom (add32 (geomX geom) gap) (add32 y gap)
                     (sub32 (geomW geom) (mul32 gap 2))
                     (sub32 (f_height fr) (mul32 gap 2)) in
    let! e := renderFrame f fg in
    let! fr' := deref h_frames f in
    renderColumn_loop gap geom fs' (add32 y (f_height fr')) (keep_error err e)
  end.

Definition renderColumn (col : ptr) (geom : Geom) : M (option error) :=
  let! gap := gets (fun w => InnerGap (wm_config (wm w))) in
  let! c := deref h_columns col in
  renderColumn_loop gap geom (c_frames c) (geomY geom) None.

(** Modelled from the spec: the loop of the method [dockHeight] of
    [output], which is not among the source files; it sums the heights of
    the frames of a dock area. *)
Fixpoint dockHeight_loop (fs : list ptr) (h : Z) : M Z :=
  match fs with
  | [] => ret h
  | f :: fs' =>
    let! fr := deref h_frames f in
    dockHeight_loop fs' (add32 h (f_height fr))
  end.

(** Modelled from the spec: the method [dockHeight] of [output] is not
    among the source files.  The usable area is "the output rectangle
    minus the summed height of occupied dock areas on each edge", and the
    bottom area starts at "outputHeight - totalDockHeight": the dock
    height of an area is the sum of the heights of its frames. *)
Definition dockHeight (o : ptr) (area : dockArea) : M Z :=
  let! out := deref h_outputs o in
  dockHeight_loop (o_dockAreas out area) 0.

(** Modelled from the spec: the method [singleFrame] of [workspace] is
    not among the source files.  "If the workspace contains exactly one
    frame total (one column, one frame), layout skips column/frame
    splitting": the single frame of a workspace of one column of one
    frame, [nil] otherwise. *)
Definition singleFrame (ws : ptr) : M (option ptr) :=
  let! s := deref h_workspaces ws in
  match ws_columns s with
  | [c] =>
    let! col := deref h_columns c in
    match c_frames col with
    | [f] => ret (Some f)
    | _ => ret None
    end
  | _ => ret None
  end.

(** Modelled from the spec: the method [fullArea] of [workspace] is not
    among the source files.  "The usable area for workspaces is the output
    rectangle minus the summed height of occupied dock areas on each
    edge." *)
Definition fullArea (ws : ptr) : M Geom :=
  let! s := deref h_workspaces ws in
  let! o := nonnil (ws_output s) in
  let! out := deref h_outputs o in
  let! top := dockHeight o dockAreaTop in
  let! bottom := dockHeight o dockAreaBottom in
  ret (mkGeom (geomX (o_geom out))
              (add32 (geomY (o_geom out)) top)
              (geomW (o_geom out))
              (sub32 (sub32 (geomH (o_geom out)) top) bottom)).

(** Modelled from the spec: the method [area] of [workspace] is not among
    the source files.  Columns are laid out from the left edge of the
    usable area and span "the full usable height": the usable area of the
    workspace. *)
Definition area (ws : ptr) : M Geom := fullArea ws.

Fixpoint renderDock_loop (o : ptr) (fs : list ptr) (y : Z)
         (err : option error) : M (option error) :=
  match fs with
  | [] => ret err
  | f :: fs' =>
    let! out := deref h_outputs o in
    let! fr := deref h_frames f in
    let geom := mkGeom (geomX (o_geom out)) y (geomW (o_geom out))
                       (f_height fr) in
    let! e := renderFrame f geom in
    renderDock_loop o fs' (add32 y (geomH geom)) e
  end.

Definition renderDock (o : ptr) (area : dockArea) : M (option error) :=
  let! y := match area with
            | dockAreaTop =>
              let! out := deref h_outputs o in
              ret (geomY (o_geom out))
            | dockAreaBottom =>
              let! out := deref h_outputs o in
              let! h := dockHeight o area in
              ret (sub32 (geomH (o_geom out)) h)
            end in
  let! out := deref h_outputs o in
  renderDock_loop o (o_dockAreas out area) y None.

Fixpoint renderWorkspace_loop (a : Geom) (cols : list ptr) (x : Z)
         (err : option error) : M (option error) :=
  match cols with
  | [] => ret err
  | col :: cols' =>
    let! c := deref h_columns col in
    let geom := mkGeom x (geomY a) (c_width c) (geomH a) in
    let! e := renderColumn col geom in
    let! c' := deref h_columns col in
    renderWorkspace_loop a cols' (add32 x (c_width c')) (keep_error err e)
  end.

Definition renderWorkspace (ws : ptr) : M (option error) :=
  let! sf := singleFrame ws in
  match sf with
  | Some f =>
    let! full := fullArea ws in
    renderFrame f full
  | None =>
    let! a := area ws in
    let! s := deref h_workspaces ws in
    renderWorkspace_loop a (ws_columns s) (geomX a) None
  end.

Definition renderOutput (o : ptr) : M (option error) :=
  let! e1 := renderDock o dockAreaTop in
  let err1 := keep_error None e1 in
  let! e2 := renderDock o dockAreaBottom in
  let err2 := keep_error err1 e2 in
  let! out := deref h_outputs o in
  let! ws := nonnil (o_activeWs out) in
  let! e3 := renderWorkspace ws in
  ret (keep_error err2 e3).

(** ** Looking frames up (src/wm/wm.go) *)

Fixpoint findFrame_frames (predicate : frame -> bool) (fs : list ptr)
  : M (option ptr) :=
  match fs with
  | [] => ret None
  | f :: fs' =>
    let! fr := deref h_frames f in
    if predicate fr then ret (Some f) else findFrame_frames predicate fs'
  end.

Fixpoint findFrame_columns (predicate : frame -> bool) (cols : list ptr)
  : M (option ptr) :=
  match cols with
  | [] => ret None
  | col :: cols' =>
    let! c := deref h_columns col in
    let! r := findFrame_frames predicate (c_frames c) in
    match r with
    | Some f => ret (Some f)
    | None => findFrame_columns predicate cols'
    end
  end.

Fixpoint findFrame_workspaces (predicate : frame -> bool) (wss : list ptr)
  : M (option ptr) :=
  match wss with
  | [] => ret None
  | ws :: wss' =>
    let! s := deref h_workspaces ws in
    let! r := findFrame_columns predicate (ws_columns s) in
    match r with
    | Some f => ret (Some f)
    | None => findFrame_workspaces predicate wss'
    end
  end.

Fixpoint findFrame_outputs (predicate : frame -> bool) (os : list ptr)
  : M (option ptr) :=
  match os with
  | [] => ret None
  | o :: os' =>
    let! out := deref h_outputs o in
    let! r := findFrame_frames predicate (o_dockTop out) in
    match r with
    | Some f => ret (Some f)
    | None =>
      let! r := findFrame_frames predicate (o_dockBottom out) in
      match r with
      | Some f => ret (Some f)
      | None => findFrame_outputs predicate os'
      end
    end
  end.

Definition findFrame (predicate : frame -> bool) : M (option ptr) :=
  let! wss := gets (fun w => wm_workspaces (wm w)) in
  let! r := findFrame_workspaces predicate wss in
  match r with
  | Some f => ret (Some f)
  | None =>
    let! os := gets (fun w => wm_outputs (wm w)) in
    findFrame_outputs predicate os
  end.

(** ** Slices *)

(** [l[i]] for a Go [int] index: out of range panics. *)
Definition index (l : list ptr) (i : Z) : M ptr :=
  if (0 <=? i) && (i <? Z.of_nat (length l)) then
    match l !! Z.to_nat i with
    | Some p => ret p
    | None => panic
    end
  else panic.

(** [l[i] = x] for a Go [int] index: out of range panics. *)
Definition assign (l : list ptr) (i : Z) (x : ptr) : M (list ptr) :=
  if (0 <=? i) && (i <? Z.of_nat (length l)) then
    ret (<[Z.to_nat i := x]> l)
  else panic.

(** Index of the first element that satisfies the predicate, -1 if none. *)
Fixpoint find_index (predicate : ptr -> bool) (l : list ptr) (i : Z) : Z :=
  match l with
  | [] => -1
  | x :: l' => if predicate x then i else find_index predicate l' (i + 1)
  end.

(** The slice without the first occurrence of [x]. *)
Fixpoint remove_first (x : ptr) (l : list ptr) : list ptr :=
  match l with
  | [] => []
  | y :: l' => if Nat.eqb y x then l' else y :: remove_first x l'
  end.

Definition contains (x : ptr) (l : list ptr) : bool :=
  existsb (Nat.eqb x) l.

(** ** Tree helpers that are not among the source files *)

Definition set_col (f : frame) (c : option ptr) : frame :=
  mkFrame c (f_parent f) (f_client f) (f_height f) (f_typ f)
          (f_mapped f) (f_geom f) (f_titlebar f).
Definition set_c_frames (c : column) (fs : list ptr) : column :=
  mkColumn (c_ws c) fs (c_width c).
Definition set_ws_columns (s : workspace) (cols : list ptr) : workspace :=
  mkWorkspace (ws_id s) cols (ws_output s).
Definition set_ws_output (s : workspace) (o : option ptr) : workspace :=
  mkWorkspace (ws_id s) (ws_columns s) o.
Definition set_o_workspaces (o : output) (l : list ptr) : output :=
  mkOutput (o_geom o) (o_dockTop o) (o_dockBottom o) l (o_activeWs o).
Definition set_o_activeWs (o : output) (a : option ptr) : output :=
  mkOutput (o_geom o) (o_dockTop o) (o_dockBottom o) (o_workspaces o) a.

(** Modelled from the spec: the method [findColumnIndex] of [workspace] is
    not among the source files; the index of the first column that
    satisfies the predicate, -1 when there is none. *)
Definition findColumnIndex (ws : ptr) (predicate : ptr -> bool) : M Z :=
  let! s := deref h_workspaces ws in
  ret (find_index predicate (ws_columns s) 0).

(** Modelled from the spec: the method [findFrameIndex] of [column] is not
    among the source files; the index of the first frame that satisfies
    the predicate, -1 when there is none. *)
Definition findFrameIndex (col : ptr) (predicate : ptr -> bool) : M Z :=
  let! c := deref h_columns col in
  ret (find_index predicate (c_frames c) 0).

(** Modelled from the spec: the method [deleteFrame] of [column] is not
    among the source files.  "Remove the frame from its current column":
    the frame leaves the order of the column; the spec gives no rule for
    the height shares of the frames that stay, they are left alone. *)
Definition column_deleteFrame (col : ptr) (f : ptr) : M unit :=
  let! c := deref h_columns col in
  store_column col (set_c_frames c (remove_first f (c_frames c))).

(** Modelled from the spec: the method [addFrame] of [column] is not among
    the source files.  "Insert the frame" into the column: called with no
    sibling to follow ([after] is [nil]) the frame goes last, and the
    column becomes its owning column. *)
Definition column_addFrame (col : ptr) (f : ptr) (after : option ptr)
  : M unit :=
  let! c := deref h_columns col in
  let! fr := deref h_frames f in
  let! _ := store_column col (set_c_frames c (c_frames c ++ [f])) in
  store_frame f (set_col fr (Some col)).

(** Modelled from the spec: the method [createColumn] of [workspace] is
    not among the source files.  "Create a new column at that edge", "of
    width matching the configured default": a fresh empty column, owned by
    the workspace, first in its order when [start] holds and last
    otherwise. *)
Definition createColumn (ws : ptr) (start : bool) : M ptr :=
  let! s := deref h_workspaces ws in
  let! width := gets (fun w => ColumnWidth (wm_config (wm w))) in
  let! col := gets (fun w => fresh (dom (h_columns w))) in
  let! _ := store_column col (mkColumn (Some ws) [] width) in
  let! _ := store_workspace ws
              (set_ws_columns s (if start then col :: ws_columns s
                                 else ws_columns s ++ [col])) in
  ret col.

(** Modelled from the spec: the method [deleteColumn] of [workspace] is
    not among the source files.  "Delete it from the workspace": the
    column leaves the order of the workspace. *)
Definition deleteColumn (ws : ptr) (col : ptr) : M unit :=
  let! s := deref h_workspaces ws in
  store_workspace ws (set_ws_columns s (remove_first col (ws_columns s))).

(** Modelled from the spec: the loop of the method [deleteFrame] of
    [workspace], which is not among the source files; it looks for the
    first column that lists the frame. *)
Fixpoint workspace_deleteFrame_loop (ws : ptr) (cols : list ptr) (f : ptr)
  : M bool :=
  match cols with
  | [] => ret false
  | col :: cols' =>
    let! c := deref h_columns col in
    if contains f (c_frames c) then
      let! _ := column_deleteFrame col f in
      let! c' := deref h_columns col in
      let! _ := (if (Z.of_nat (length (c_frames c')) =? 0)
                 then deleteColumn ws col else ret tt) in
      ret true
    else workspace_deleteFrame_loop ws cols' f
  end.

(** Modelled from the spec: the method [deleteFrame] of [workspace] is not
    among the source files.  "Remove from current workspace's tree";
    "deleting the last frame from a column removes the column from its
    workspace's column order".  The result tells whether the workspace
    held the frame. *)
Definition workspace_deleteFrame (ws : ptr) (f : ptr) : M bool :=
  let! s := deref h_workspaces ws in
  workspace_deleteFrame_loop ws (ws_columns s) f.

(** Modelled from the spec: the method [addFrame] of [workspace] is not
    among the source files.  "Insert into target workspace's tree": the
    frame joins the last column, a new one when the workspace has none. *)
Definition workspace_addFrame (ws : ptr) (f : ptr) : M (option error) :=
  let! s := deref h_workspaces ws in
  let! col := match last (ws_columns s) with
              | Some col => ret col
              | None => createColumn ws false
              end in
  let! _ := column_addFrame col f None in
  ret None.

(** Modelled from the spec: the method [addWorkspace] of [output] is not
    among the source files.  "Attach it to the current output": the output
    becomes the owner of the workspace and lists it. *)
Definition addWorkspace (o : ptr) (ws : ptr) : M (option error) :=
  let! out := deref h_outputs o in
  let! s := deref h_workspaces ws in
  let! _ := store_workspace ws (set_ws_output s (Some o)) in
  let! _ := store_output o (set_o_workspaces out (o_workspaces out ++ [ws])) in
  ret None.

(** Modelled from the spec: the method [switchWorkspace] of [output] is
    not among the source files.  "At most one workspace per output is
    active at a time": the workspace becomes the active one. *)
Definition output_switchWorkspace (o : ptr) (ws : ptr) : M (option error) :=
  let! out := deref h_outputs o in
  let! _ := store_output o (set_o_activeWs out (Some ws)) in
  ret None.

(** Modelled from the spec: [updateDesktopHints] of [WM] is not among the
    source files.  The desktop-hint publisher is an outbound collaborator
    driven through the server connection, "returning success or a
    server-level error": one request. *)
Definition updateDesktopHints : M (option error) := xreq DesktopHints.

(** Modelled from the spec: [removeFocus] of [WM] is not among the source
    files.  "Clear focus", through the server connection: one request. *)
Definition removeFocus : M (option error) := xreq RemoveFocus.

(** Modelled from the spec: [setFocus] of [WM] is not among the source
    files.  "Set focus" to a window, through the server connection: one
    request. *)
Definition setFocus (win : Window) (time : Z) : M (option error) :=
  xreq (SetFocus win time).

(** Modelled from the spec: the method [Unmap] of the client of a frame is
    not among the source files.  It "requests the client unmap", as
    [doUnmap] of frame.go does. *)
Definition client_Unmap (f : ptr) : M (option error) :=
  let! fr := deref h_frames f in
  let! e := xreq (UnmapWindow (window (f_client fr))) in
  match e with
  | Some err => ret (Some (ErrorfErr "could not unmap window: %v" err))
  | None => ret None
  end.

(** ** Move operations (src/wm/frame.go) *)

Inductive MoveDirection := MoveLeft | MoveRight | MoveUp | MoveDown.

Definition len (l : list ptr) : Z := Z.of_nat (length l).

Definition moveWindow (win : Window) (dir : MoveDirection)
  : M (option error) :=
  let! found := findFrame (fun fr => window (f_client fr) =? win) in
  match found with
  | None => ret None
  | Some f =>
    let! fr := deref h_frames f in
    let! fcol := nonnil (f_col fr) in
    let! c := deref h_columns fcol in
    let ws := c_ws c in
    match dir with
    | MoveLeft =>
      let! ws := nonnil ws in
      let! i := findColumnIndex ws (fun c => Nat.eqb c fcol) in
      let origCol := fcol in
      let! _ := column_deleteFrame origCol f in
      let! _ := (if i =? 0 then
                   let! col := createColumn ws true in
                   column_addFrame col f None
                 else
                   let! s := deref h_workspaces ws in
                   let! col := index (ws_columns s) (i - 1) in
                   column_addFrame col f None) in
      let! oc := deref h_columns origCol in
      let! _ := (if len (c_frames oc) =? 0 then deleteColumn ws origCol
                 else ret tt) in
      ret None
    | MoveRight =>
      let! ws := nonnil ws in
      let! i := findColumnIndex ws (fun c => Nat.eqb c fcol) in
      let origCol := fcol in
      let! _ := column_deleteFrame origCol f in
      let! s := deref h_workspaces ws in
      let! _ := (if i =? len (ws_columns s) - 1 then
                   let! col := createColumn ws false in
                   column_addFrame col f None
                 else
                   let! col := index (ws_columns s) (i + 1) in
                   column_addFrame col f None) in
      let! oc := deref h_columns origCol in
      let! _ := (if len (c_frames oc) =? 0 then deleteColumn ws origCol
                 else ret tt) in
      ret None
    | MoveUp =>
      let col := fcol in
      let! i := findFrameIndex col (fun frm => Nat.eqb f frm) in
      let! _ := (if 0 <? i then
                   let! c := deref h_columns col in
                   let! other := index (c_frames c) (i - 1) in
                   let! fs := assign (c_frames c) (i - 1) f in
                   let! fs := assign fs i other in
                   store_column col (set_c_frames c fs)
                 else ret tt) in
      ret None
    | MoveDown =>
      let col := fcol in
      let! i := findFrameIndex col (fun frm => Nat.eqb f frm) in
      let! c := deref h_columns col in
      let! _ := (if i <? len (c_frames c) - 1 then
                   let! other := index (c_frames c) (i + 1) in
                   let! fs := assign (c_frames c) (i + 1) f in
                   let! fs := assign fs i other in
                   store_column col (set_c_frames c fs)
                 else ret tt) in
      ret None
    end
  end.

Fixpoint ensureWorkspace_loop (id : Z) (wss : list ptr) : M (option ptr) :=
  match wss with
  | [] => ret None
  | ws :: wss' =>
    let! s := deref h_workspaces ws in
    if ws_id s =? id then ret (Some ws) else ensureWorkspace_loop id wss'
  end.

Definition ensureWorkspace (id : Z) : M (ptr + error) :=
  let! wss := gets (fun w => wm_workspaces (wm w)) in
  let! found := ensureWorkspace_loop id wss in
  match found with
  | None => ret (inr (ErrorfInt "no workspace with ID %d" id))
  | Some nextWs =>
    let! s := deref h_workspaces nextWs in
    let! os := gets (fun w => wm_outputs (wm w)) in
    match ws_output s with
    | None =>
      let! o0 := index os 0 in
      let! e := addWorkspace o0 nextWs in
      match e with
      | Some err => ret (inr err)
      | None => ret (inl nextWs)
      end
    | Some o =>
      let! o0 := index os 0 in
      if negb (Nat.eqb o o0) then
        ret (inr (Errorf "multiple outputs not supported yet"))
      else ret (inl nextWs)
    end
  end.

(** What [switchWorkspace] does once [ensureWorkspace] has given it the
    workspace. *)
Definition switchWorkspace_switch (ws : ptr) : M (option error) :=
  let! s := deref h_workspaces ws in
  let! o := nonnil (ws_output s) in
  let! e := output_switchWorkspace o ws in
  match e with
  | Some err =>
    ret (Some (ErrorfErr "output unable to switch workpace: %v" err))
  | None =>
  let! e := renderWorkspace ws in
  match e with
  | Some err => ret (Some (ErrorfErr "wm.renderWorkspace: %w" err))
  | None =>
  let! e := updateDesktopHints in
  match e with
  | Some err =>
    ret (Some (ErrorfErr "failed to update desktop hints: %v" err))
  | None =>
  let! e := removeFocus in
  match e with
  | Some err => ret (Some (ErrorfErr "failed to remove focus: %v" err))
  | None =>
  let! s := deref h_workspaces ws in
  match ws_columns s with
  | [] => ret None
  | col0 :: _ =>
    let! c0 := deref h_columns col0 in
    match c_frames c0 with
    | [] => ret None
    | f0 :: _ =>
      let! fr0 := deref h_frames f0 in
      let win := window (f_client fr0) in
      let! e := setFocus win TimeCurrentTime in
      match e with
      | Some err => ret (Some (ErrorfErr "failed to set focus: %w" err))
      | None => ret None
      end
    end
  end
  end end end end.

Definition switchWorkspace (id : Z) : M (option error) :=
  let! r := ensureWorkspace id in
  match r with
  | inr err => ret (Some (ErrorfErr "failed to ensure workspace: %v" err))
  | inl ws => switchWorkspace_switch ws
  end.

Definition moveFrameToWorkspace (f : ptr) (wsID : Z) : M (option error) :=
  let! os := gets (fun w => wm_outputs (wm w)) in
  let! o0 := index os 0 in
  let! out := deref h_outputs o0 in
  let current := o_activeWs out in
  let! r := ensureWorkspace wsID in
  match r with
  | inr err => ret (Some err)
  | inl next =>
  if bool_decide (Some next = current) then ret None
  else
  let! cur := nonnil current in
  let! deleted := workspace_deleteFrame cur f in
  if negb deleted then
    ret (Some (ErrorfInt "frame not contained within workspace %d" wsID))
  else
  let! e := workspace_addFrame next f in
  match e with
  | Some err =>
    ret (Some (ErrorfErr
                 "failed to add the frame to the next workspace: %v" err))
  | None =>
  let! e := client_Unmap f in
  match e with
  | Some err => ret (Some (ErrorfErr "failed to unmap the frame: %v" err))
  | None =>
  let! e := renderWorkspace next in
  match e with
  | Some err =>
    ret (Some (ErrorfErr "failed to render next workspace: %v" err))
  | None =>
  let! e := renderWorkspace cur in
  match e with
  | Some err =>
    ret (Some (ErrorfErr "failed to render previous workspace: %v" err))
  | None =>
  let! e := updateDesktopHints in
  match e with
  | Some err =>
    ret (Some (ErrorfErr "failed to update desktop hints: %v" err))
  | None => ret None
  end end end end end
  end.

(** ** Notions the properties are stated with *)

(** The error a loop that "remembers the most recent one" reports for the
    results of its siblings, in the order they ran. *)
Fixpoint last_error (es : list (option error)) : option error :=
  match es with
  | [] => None
  | e :: es' =>
    match last_error es' with
    | Some x => Some x
    | None => e
    end
  end.

(** The first error among the results, in the order they ran. *)
Fixpoint first_error (es : list (option error)) : option error :=
  match es with
  | [] => None
  | Some x :: _ => Some x
  | None :: es' => first_error es'
  end.

(** Running [renderFrame] on every frame with its rectangle, whatever the
    earlier ones returned. *)
Fixpoint render_all (l : list (ptr * Geom)) : M (list (option error)) :=
  match l with
  | [] => ret []
  | (f, g) :: l' =>
    let! e := renderFrame f g in
    let! es := render_all l' in
    ret (e :: es)
  end.

(** [heights w fs hs]: the frames [fs] are in the store of [w] and [hs]
    are their height shares. *)
Definition heights (w : World) (fs : list ptr) (hs : list Z) : Prop :=
  Forall2 (fun f h => exists fr, h_frames w !! f = Some fr /\ f_height fr = h)
          fs hs.

Definition sumZ (l : list Z) : Z := foldr Z.add 0 l.

(** The rectangle of the [k]-th frame of a column drawn in [rect] with
    inner gap [g], for the height shares [hs] of its frames. *)
Definition runningY (rect : Geom) (hs : list Z) (k : nat) : Z :=
  wrap32 (geomY rect + sumZ (take k hs)).

Definition frameRect (g : Z) (rect : Geom) (hs : list Z) (k : nat) : Geom :=
  mkGeom (wrap32 (geomX rect + g))
         (wrap32 (runningY rect hs k + g))
         (wrap32 (geomW rect - wrap32 (2 * g)))
         (wrap32 (hs !!! k - wrap32 (2 * g))).

Definition column_rects (g : Z) (rect : Geom) (hs : list Z) : list Geom :=
  imap (fun k _ => frameRect g rect hs k) hs.

(** The usable area: the rectangle of the output minus the dock heights
    [top] and [bottom]. *)
Definition usable (out : Geom) (top bottom : Z) : Geom :=
  mkGeom (geomX out) (wrap32 (geomY out + top)) (geomW out)
         (wrap32 (wrap32 (geomH out - top) - bottom)).

(** The trees differ at most in the geometry stored in frames: what a
    render may change besides the log of requests. *)
Definition forget_geom (f : frame) : frame := set_geom f (mkGeom 0 0 0 0).

Definition same_tree (w w' : World) : Prop :=
  wm w' = wm w /\
  forget_geom <$> h_frames w' = forget_geom <$> h_frames w /\
  h_columns w' = h_columns w /\
  h_workspaces w' = h_workspaces w /\
  h_outputs w' = h_outputs w /\
  xsrv w' = xsrv w.

(** The columns of a workspace as the sequences of their frames. *)
Definition ws_view (w : World) (ws : ptr) : option (list (list ptr)) :=
  s ← h_workspaces w !! ws;
  mapM (fun col => c_frames <$> h_columns w !! col) (ws_columns s).

(** [columns_view h ptrs cols]: the columns at [ptrs] in the store [h]
    list the frames [cols]. *)
Definition columns_view (h : gmap ptr column) (ptrs : list ptr)
           (cols : list (list ptr)) : Prop :=
  Forall2 (fun p fs => c_frames <$> h !! p = Some fs) ptrs cols.

(** Horizontal move of frame [f] out of column [i], on the view.  The
    frame leaves its column; moving left out of the first column a new
    column holding only the frame is put in front, otherwise the frame
    joins the column to the left; the column the frame left is dropped
    when nothing stays in it. *)
Definition move_left_view (cols : list (list ptr)) (i : nat) (f : ptr)
  : list (list ptr) :=
  let rest := remove_first f (cols !!! i) in
  let cols1 := <[i := rest]> cols in
  let cols2 := match i with
               | O => [f] :: cols1
               | S j => <[j := cols !!! j ++ [f]]> cols1
               end in
  let i' := match i with O => 1%nat | S _ => i end in
  match rest with
  | [] => delete i' cols2
  | _ => cols2
  end.

(** The same to the right: out of the last column a new column holding
    only the frame is put at the end, otherwise the frame joins the
    column to the right. *)
Definition move_right_view (cols : list (list ptr)) (i : nat) (f : ptr)
  : list (list ptr) :=
  let rest := remove_first f (cols !!! i) in
  let cols1 := <[i := rest]> cols in
  let cols2 := if Nat.eqb (S i) (length cols) then cols1 ++ [[f]]
               else <[S i := cols !!! S i ++ [f]]> cols1 in
  match rest with
  | [] => delete i cols2
  | _ => cols2
  end.

Definition move_horizontal_view (dir : MoveDirection)
           (cols : list (list ptr)) (i : nat) (f : ptr) : list (list ptr) :=
  match dir with
  | MoveLeft => move_left_view cols i f
  | MoveRight => move_right_view cols i f
  | _ => cols
  end.

(** Exchange of the elements at positions [i] and [j]. *)
Definition swap (l : list ptr) (i j : nat) : list ptr :=
  match l !! i, l !! j with
  | Some x, Some y => <[i := y]> (<[j := x]> l)
  | _, _ => l
  end.

(** [resolves w id ws]: [ws] is the workspace the lookup by identifier
    yields, the first one of the manager carrying [id]. *)
Definition resolves (w : World) (id : Z) (ws : ptr) : Prop :=
  exists pre post s,
    wm_workspaces (wm w) = pre ++ ws :: post /\
    Forall (fun p => exists s', h_workspaces w !! p = Some s' /\ ws_id s' <> id)
           pre /\
    h_workspaces w !! ws = Some s /\ ws_id s = id.

(** [unknown_id w id]: no workspace of the manager carries [id]. *)
Definition unknown_id (w : World) (id : Z) : Prop :=
  Forall (fun p => exists s', h_workspaces w !! p = Some s' /\ ws_id s' <> id)
         (wm_workspaces (wm w)).

(** ** Example worlds *)

Definition geom0 : Geom := mkGeom 0 0 0 0.

(** One output of 1920x1080 with two dock frames at the top; workspace 0
    is active and holds one column of one frame; workspace 1 is not
    attached to an output. *)
Definition demo_frames : gmap ptr frame :=
  <[10%nat := mkFrame None 0 (mkClient 100) 30 winTypeDock true geom0 None]>
  (<[11%nat := mkFrame None 0 (mkClient 101) 20 winTypeDock true geom0 None]>
  (<[1%nat := mkFrame (Some 0%nat) 201 (mkClient 301) 1030 winTypeNormal
                      true geom0 None]> ∅)).

Definition demo_world (srv : list XReq -> option error) : World :=
  mkWorld (mkWM [0%nat] (mkConfig 5 960) [0%nat; 1%nat] 0)
    demo_frames
    (<[0%nat := mkColumn (Some 0%nat) [1%nat] 1920]> ∅)
    (<[0%nat := mkWorkspace 0 [0%nat] (Some 0%nat)]>
     (<[1%nat := mkWorkspace 1 [] None]> ∅))
    (<[0%nat := mkOutput (mkGeom 0 0 1920 1080) [10%nat; 11%nat] []
                         [0%nat] (Some 0%nat)]> ∅)
    srv [].

(** A server that accepts every request. *)
Definition srv_ok (l : list XReq) : option error := None.

(** A server that rejects configuring the windows 101 and 201, with
    different errors. *)
Definition srv_two_errors (l : list XReq) : option error :=
  match last l with
  | Some (ConfigureWindow 101 _ _) => Some (XError 3)
  | Some (ConfigureWindow 201 _ _) => Some (XError 8)
  | _ => None
  end.

(** A server that rejects configuring window 100 only. *)
Definition srv_reject_100 (l : list XReq) : option error :=
  match last l with
  | Some (ConfigureWindow 100 _ _) => Some (XError 3)
  | _ => None
  end.

(** Workspace 0 is active on output 0 and has two columns, of frames 1 and
    2 (frame 2 is not mapped) and of frame 3; workspace 1 is attached to
    no output; workspace 2 belongs to output 1 and holds frame 4. *)
Definition tiled_frames : gmap ptr frame :=
  <[1%nat := mkFrame (Some 0%nat) 201 (mkClient 301) 600 winTypeNormal
                     true geom0 None]>
  (<[2%nat := mkFrame (Some 0%nat) 202 (mkClient 302) 480 winTypeNormal
                      false geom0 None]>
  (<[3%nat := mkFrame (Some 1%nat) 203 (mkClient 303) 1080 winTypeNormal
                      true geom0 None]>
  (<[4%nat := mkFrame (Some 2%nat) 204 (mkClient 304) 1080 winTypeNormal
                      true geom0 None]> ∅))).

Definition tiled_columns : gmap ptr column :=
  <[0%nat := mkColumn (Some 0%nat) [1%nat; 2%nat] 960]>
  (<[1%nat := mkColumn (Some 0%nat) [3%nat] 960]>
  (<[2%nat := mkColumn (Some 2%nat) [4%nat] 1920]> ∅)).

Definition tiled_workspaces : gmap ptr workspace :=
  <[0%nat := mkWorkspace 0 [0%nat; 1%nat] (Some 0%nat)]>
  (<[1%nat := mkWorkspace 1 [] None]>
  (<[2%nat := mkWorkspace 2 [2%nat] (Some 1%nat)]> ∅)).

Definition tiled_outputs : gmap ptr output :=
  <[0%nat := mkOutput (mkGeom 0 0 1920 1080) [] [] [0%nat] (Some 0%nat)]>
  (<[1%nat := mkOutput (mkGeom 1920 0 1920 1080) [] [] [2%nat]
                       (Some 2%nat)]> ∅).

Definition tiled_world (srv : list XReq -> option error) : World :=
  mkWorld (mkWM [0%nat] (mkConfig 5 960) [0%nat; 1%nat; 2%nat] 0)
    tiled_frames tiled_columns tiled_workspaces tiled_outputs srv [].

(** The world once workspace [ws] (record [s]) is attached to output [o]
    (record [out]). *)
Definition attached (ws : ptr) (s : workspace) (o : ptr) (out : output)
           (w : World) : World :=
  set_outputs (<[o := set_o_workspaces out (o_workspaces out ++ [ws])]>
                 (h_outputs w))
    (set_workspaces (<[ws := set_ws_output s (Some o)]> (h_workspaces w)) w).

(** [preserves R m]: whenever [m] returns, the worlds before and after are
    related by [R]. *)
Definition preserves {A} (R : World -> World -> Prop) (m : M A) : Prop :=
  forall w a w', m w = Ret a w' -> R w w'.

Definition same_workspaces (w w' : World) : Prop :=
  h_workspaces w' = h_workspaces w.

(** The world where column [col] (record [c]) lists the frames [fs]. *)
Definition with_frames (col : ptr) (c : column) (fs : list ptr) (w : World)
  : World :=
  set_columns (<[col := set_c_frames c fs]> (h_columns w)) w.

(** Vertical move of the frame at position [i] of a column, on the order
    of its frames: exchanged with the neighbour above or below. *)
Definition move_vertical_view (dir : MoveDirection) (fs : list ptr) (i : nat)
  : list ptr :=
  match dir with
  | MoveUp => swap fs (i - 1) i
  | MoveDown => swap fs i (i + 1)
  | _ => fs
  end.

(** The frame at position [i] is already first (for up) or last (for
    down). *)
Definition at_boundary (dir : MoveDirection) (fs : list ptr) (i : nat)
  : bool :=
  match dir with
  | MoveUp => Nat.eqb i 0
  | MoveDown => Nat.leb (length fs) (i + 1)
  | _ => true
  end.

(** The rectangles renderDock gives the frames of a dock area that starts
    at [y], for the heights [hs] of its frames, and the result of the last
    of the renders [es] ([err] when there is none). *)
Fixpoint dock_rects (out : Geom) (y : Z) (hs : list Z) : list Geom :=
  match hs with
  | [] => []
  | h :: hs' => mkGeom (geomX out) y (geomW out) h
                :: dock_rects out (add32 y h) hs'
  end.

Definition last_result (err : option error) (es : list (option error))
  : option error :=
  match last es with
  | Some e => e
  | None => err
  end.

(** ** Further notions: the requests of a render *)

(** The three requests renderFrame makes for a mapped frame, in order. *)
Definition frame_requests (fr : frame) (geom : Geom) : list XReq :=
  [ConfigureWindow (f_parent fr) 15
                   [geomX geom; geomY geom; geomW geom; geomH geom];
   ConfigureWindow (window (f_client fr)) 15 [0; 0; geomW geom; geomH geom];
   SendEvent false (window (f_client fr)) 131072
             (mkConfigureNotify (window (f_client fr)) (window (f_client fr))
                (to_int16 (geomX geom)) (to_int16 (geomY geom))
                (to_uint16 (geomW geom)) (to_uint16 (geomH geom))
                0 0 true)].

(** [in_store w fs]: every pointer of [fs] is a frame of the store. *)
Definition in_store (w : World) (fs : list ptr) : Prop :=
  Forall (fun f => is_Some (h_frames w !! f)) fs.

(** [unmapped w fs]: the frames [fs] are in the store and none is mapped. *)
Definition unmapped (w : World) (fs : list ptr) : Prop :=
  Forall (fun f => exists fr, h_frames w !! f = Some fr /\ f_mapped fr = false)
         fs.

(** The rectangle of the [k]-th frame of a dock area that starts at [y]. *)
Definition dockRect (out : Geom) (y : Z) (hs : list Z) (k : nat) : Geom :=
  mkGeom (geomX out) (wrap32 (y + sumZ (take k hs))) (geomW out) (hs !!! k).

(** Running [renderColumn] on every column with its rectangle, whatever the
    earlier ones returned. *)
Fixpoint render_columns (l : list (ptr * Geom)) : M (list (option error)) :=
  match l with
  | [] => ret []
  | (col, g) :: l' =>
    let! e := renderColumn col g in
    let! es := render_columns l' in
    ret (e :: es)
  end.

(** [widths w cols ws]: the columns [cols] are in the store and [ws] are
    their widths. *)
Definition widths (w : World) (cols : list ptr) (ws : list Z) : Prop :=
  Forall2 (fun col x => exists c, h_columns w !! col = Some c /\ c_width c = x)
          cols ws.

(** The rectangle of the [k]-th column of a workspace laid out in [a] from
    the abscissa [x]. *)
Definition columnRect (a : Geom) (x : Z) (ws : list Z) (k : nat) : Geom :=
  mkGeom (wrap32 (x + sumZ (take k ws))) (geomY a) (ws !!! k) (geomH a).

(** The tiled world with every frame unmapped, as when its workspaces are
    hidden. *)
Definition hidden_frames : gmap ptr frame :=
  <[1%nat := mkFrame (Some 0%nat) 201 (mkClient 301) 600 winTypeNormal
                     false geom0 None]>
  (<[2%nat := mkFrame (Some 0%nat) 202 (mkClient 302) 480 winTypeNormal
                      false geom0 None]>
  (<[3%nat := mkFrame (Some 1%nat) 203 (mkClient 303) 1080 winTypeNormal
                      false geom0 None]> ∅)).

Definition hidden_world (srv : list XReq -> option error) : World :=
  mkWorld (mkWM [0%nat] (mkConfig 5 960) [0%nat; 1%nat; 2%nat] 0)
    hidden_frames tiled_columns tiled_workspaces tiled_outputs srv [].

(** ** Further notions: the frames of the tree *)

(** The first frame of [fs] whose record satisfies the predicate. *)
Fixpoint first_match (h : gmap ptr frame) (predicate : frame -> bool)
         (fs : list ptr) : option ptr :=
  match fs with
  | [] => None
  | f :: fs' =>
    match h !! f with
    | Some fr => if predicate fr then Some f else first_match h predicate fs'
    | None => None
    end
  end.

(** The frames of the columns [cols], in order. *)
Definition column_frames (w : World) (cols : list ptr) : option (list ptr) :=
  @concat ptr <$> mapM (fun col => c_frames <$> h_columns w !! col) cols.

(** The frames of the workspaces [wss], in order. *)
Definition workspace_frames (w : World) (wss : list ptr)
  : option (list ptr) :=
  @concat ptr <$> mapM (fun ws => s ← h_workspaces w !! ws;
                                  column_frames w (ws_columns s)) wss.

(** The dock frames of the outputs [os]: for each output its top area,
    then its bottom area. *)
Definition dock_frames (w : World) (os : list ptr) : option (list ptr) :=
  @concat ptr
    <$> mapM (fun o => (fun out => o_dockTop out ++ o_dockBottom out)
                         <$> h_outputs w !! o) os.

(** The frames of the manager in the order findFrame visits them: the
    frames of its workspaces, then the dock frames of its outputs. *)
Definition tree_frames (w : World) : option (list ptr) :=
  a ← workspace_frames w (wm_workspaces (wm w));
  b ← dock_frames w (wm_outputs (wm w));
  Some (a ++ b).

(** ** The lifecycle of a frame (src/wm/frame.go) *)

(** The methods [reparent], [doMap], [doUnmap], [onUnmap] and [onDestroy]
    touch nothing but their receiver and the X server.  They are embedded
    over the receiver (passed in and handed back), a server and the log of
    the requests they make. *)
Module Lifecycle.

Inductive Req :=
| ReparentWindow (win parent : Window) (x y : Z)
| ChangeSaveSet (mode : Z) (win : Window)
| MapWindow (win : Window)
| UnmapWindow (win : Window)
| DestroyWindow (win : Window).

Definition SaveSetModeInsert : Z := 0.

Record State := mkState {
  l_frame : frame;
  l_srv : list Req -> option error;
  l_log : list Req
}.

Definition L (A : Type) : Type := State -> A * State.

Definition lret {A} (a : A) : L A := fun st => (a, st).
Definition lbind {A B} (m : L A) (k : A -> L B) : L B :=
  fun st => let (a, st') := m st in k a st'.

Notation "'do!' x ':=' m 'in' k" := (lbind m (fun x => k))
  (at level 10, x name, m at level 100, k at level 200, only parsing).

Definition receiver : L frame := fun st => (l_frame st, st).
Definition update (f : frame) : L unit :=
  fun st => (tt, mkState f (l_srv st) (l_log st)).

(** A checked request: logged, then answered by the server. *)
Definition checked (r : Req) : L (option error) :=
  fun st => let l := l_log st ++ [r] in
            (l_srv st l, mkState (l_frame st) (l_srv st) l).

(** A request whose reply is not looked at. *)
Definition unchecked (r : Req) : L unit :=
  fun st => (tt, mkState (l_frame st) (l_srv st) (l_log st ++ [r])).

Definition set_parent (f : frame) (p : Window) : frame :=
  mkFrame (f_col f) p (f_client f) (f_height f) (f_typ f) (f_mapped f)
          (f_geom f) (f_titlebar f).
Definition set_mapped (f : frame) (m : bool) : frame :=
  mkFrame (f_col f) (f_parent f) (f_client f) (f_height f) (f_typ f) m
          (f_geom f) (f_titlebar f).

Definition reparent (parent : Window) : L (option error) :=
  do! f := receiver in
  do! e := checked (ReparentWindow (window (f_client f)) parent 0 0) in
  match e with
  | Some err => lret (Some (ErrorfErr "could not reparent window: %s" err))
  | None =>
    do! _ := update (set_parent f parent) in
    do! _ := unchecked (ChangeSaveSet SaveSetModeInsert
                                      (window (f_client f))) in
    lret None
  end.

(** [doMap]: the container, when there is one, then the client. *)
Definition doMap : L (option error) :=
  do! f := receiver in
  do! e := (if negb (f_parent f =? 0) then
              do! e := checked (MapWindow (f_parent f)) in
              match e with
              | Some err =>
                lret (Some (ErrorfErr "could not map parent: %v" err))
              | None => lret None
              end
            else lret None) in
  match e with
  | Some err => lret (Some err)
  | None =>
    do! e := checked (MapWindow (window (f_client f))) in
    match e with
    | Some err => lret (Some (ErrorfErr "could not map window: %v" err))
    | None =>
      do! _ := update (set_mapped f true) in
      lret None
    end
  end.

Definition doUnmap : L (option error) :=
  do! f := receiver in
  do! e := checked (UnmapWindow (window (f_client f))) in
  match e with
  | Some err => lret (Some (ErrorfErr "could not unmap window: %v" err))
  | None => lret None
  end.

Definition onUnmap : L (option error) :=
  do! f := receiver in
  if negb (f_mapped f) then lret None
  else
    do! e := (if negb (f_parent f =? 0) then
                do! e := checked (UnmapWindow (f_parent f)) in
                match e with
                | Some err =>
                  lret (Some (ErrorfErr "could not unmap parent: %v" err))
                | None => lret None
                end
              else lret None) in
    match e with
    | Some err => lret (Some err)
    | None =>
      do! _ := update (set_mapped f false) in
      lret None
    end.

Definition onDestroy : L (option error) :=
  do! f := receiver in
  if negb (f_parent f =? 0) then
    do! e := checked (DestroyWindow (f_parent f)) in
    match e with
    | Some err => lret (Some (ErrorfErr "could not destroy parent: %v" err))
    | None => lret None
    end
  else lret None.

(** The map requests of a frame: its container, when it has one, then the
    client. *)
Definition map_requests (f : frame) : list Req :=
  (if f_parent f =? 0 then [] else [MapWindow (f_parent f)])
  ++ [MapWindow (window (f_client f))].

End Lifecycle.

(** A normal frame with container 201 and client 301, not yet mapped, and
    servers for its lifecycle: one that accepts every request, one that
    rejects mapping the client. *)
Definition life_frame : frame :=
  mkFrame (Some 0%nat) 201 (mkClient 301) 600 winTypeNormal false geom0 None.

Definition life_accept (l : list Lifecycle.Req) : option error := None.

Definition life_reject_client (l : list Lifecycle.Req) : option error :=
  match last l with
  | Some (Lifecycle.MapWindow 301) => Some (XError 8)
  | _ => None
  end.

(** ** Key grabs (src/wm/wm.go) *)

Module Keys.

(** The declaration of [action] is not among the sources at hand; of its
    fields the model keeps the two that [grabKeys] reads. *)
Record action := mkAction {
  a_modifiers : Z;
  a_codes : list Z
}.

Inductive Req :=
| GrabKey (owner_events : bool) (grab_window : Window) (modifiers key : Z)
          (pointer_mode keyboard_mode : Z).

Definition GrabModeAsync : Z := 1.

(** What [grabKeys] does: it returns an error or nil with the requests
    sent so far, or it panics on a nil action. *)
Inductive result :=
| Done (err : option error) (log : list Req)
| Panics.

(** The inner loop of [grabKeys], over the key codes of one action. *)
Fixpoint grabKeys_codes (root : Window) (srv : list Req -> option error)
         (modifiers : Z) (codes : list Z) (log : list Req)
  : option error * list Req :=
  match codes with
  | [] => (None, log)
  | code :: codes' =>
    let log' := log ++ [GrabKey false root (to_uint16 modifiers) code
                                GrabModeAsync GrabModeAsync] in
    match srv log' with
    | Some err => (Some err, log')
    | None => grabKeys_codes root srv modifiers codes' log'
    end
  end.

(** [grabKeys]: the actions are a slice of pointers, [root] is the root
    window of the screen. *)
Fixpoint grabKeys (root : Window) (srv : list Req -> option error)
         (actions : list (option action)) (log : list Req) : result :=
  match actions with
  | [] => Done None log
  | None :: _ => Panics
  | Some a :: actions' =>
    match grabKeys_codes root srv (a_modifiers a) (a_codes a) log with
    | (Some err, log') => Done (Some err) log'
    | (None, log') => grabKeys root srv actions' log'
    end
  end.

(** The grabs of a list of actions, in the order of the actions and, for
    each action, of its key codes. *)
Definition grab_requests (root : Window) (acts : list action) : list Req :=
  flat_map (fun a => map (fun code => GrabKey false root
                                              (to_uint16 (a_modifiers a)) code
                                              GrabModeAsync GrabModeAsync)
                         (a_codes a)) acts.

(** Sending requests one by one until the server rejects one. *)
Fixpoint until_rejected (srv : list Req -> option error) (reqs : list Req)
         (log : list Req) : option error * list Req :=
  match reqs with
  | [] => (None, log)
  | r :: reqs' =>
    match srv (log ++ [r]) with
    | Some err => (Some err, log ++ [r])
    | None => until_rejected srv reqs' (log ++ [r])
    end
  end.

End Keys.

(** ** Focus protocol (src/manager/manager.go) *)

Module Manager.

Record ClientMessageEvent := mkClientMessageEvent {
  cm_format : Z;
  cm_window : Window;
  cm_type : Z;
  cm_data32 : list Z
}.

Inductive Req :=
| SendEvent (propagate : bool) (destination : Window) (event_mask : Z)
            (event : ClientMessageEvent).

Definition EventMaskNoEvent : Z := 0.

(** The atom [takeFocusProp] reads from four bytes of the property, the
    lowest byte first; the shifts are those of uint32. *)
Definition atom_le (b0 b1 b2 b3 : Z) : Z :=
  Z.lor (Z.lor (Z.lor b0 (wrap32 (Z.shiftl b1 8))) (wrap32 (Z.shiftl b2 16)))
        (wrap32 (Z.shiftl b3 24)).

(** [takeFocusProp]: [v] is the value of the reply, a slice of bytes.  The
    reply of the server to the event is dropped by the code, so the model
    returns the result and the requests sent. *)
Fixpoint takeFocusProp (wmProtocols wmTakeFocus : Z) (v : list Z)
         (win : Window) (time : Z) : bool * list Req :=
  match v with
  | b0 :: b1 :: b2 :: b3 :: v' =>
    if atom_le b0 b1 b2 b3 =? wmTakeFocus
    then (true,
          [SendEvent false win EventMaskNoEvent
                     (mkClientMessageEvent 32 win wmProtocols
                                           [wmTakeFocus; time; 0; 0; 0])])
    else takeFocusProp wmProtocols wmTakeFocus v' win time
  | _ => (false, [])
  end.

(** The four bytes of a 32-bit atom, the lowest first. *)
Definition le_bytes (a : Z) : list Z :=
  [a mod 256; a / 256 mod 256; a / 65536 mod 256; a / 16777216 mod 256].

End Manager.

(** * Properties *)

(** ** The monad *)

Lemma bind_Ret {A B} (m : M A) (k : A -> M B) w a w' :
  m w = Ret a w' -> bind m k w = k a w'.
Proof. intros E. unfold bind. now rewrite E. Qed.

Lemma bind_Panic {A B} (m : M A) (k : A -> M B) w :
  m w = Panic -> bind m k w = Panic.
Proof. intros E. unfold bind. now rewrite E. Qed.

Lemma deref_Some {A} (heap : World -> gmap ptr A) p w a :
  heap w !! p = Some a -> deref heap p w = Ret a w.
Proof. intros E. unfold deref. now rewrite E. Qed.

Lemma deref_Ret {A} (heap : World -> gmap ptr A) p w a w' :
  deref heap p w = Ret a w' -> heap w !! p = Some a /\ w' = w.
Proof.
  unfold deref. destruct (heap w !! p); [|discriminate].
  intros [= -> ->]. auto.
Qed.

(** ** renderFrame *)

(** C8: for a frame with [mapped = false], renderFrame returns nil and
    leaves the world as it is: the geometry of the frame is not assigned,
    no request is sent to the server (the log is the same), every field of
    the frame and the order of every container are unchanged. *)
Theorem renderFrame_unmapped (f : ptr) (geom : Geom) (w : World) (fr : frame) :
  h_frames w !! f = Some fr ->
  f_mapped fr = false ->
  renderFrame f geom w = Ret None w.
Proof.
  intros Hf Hm. unfold renderFrame.
  rewrite (bind_Ret _ _ _ _ _ (deref_Some h_frames _ _ _ Hf)).
  now rewrite Hm.
Qed.

Lemma renderFrame_unmapped_witness :
  renderFrame 2 (mkGeom 5 5 950 470) (tiled_world srv_ok)
  = Ret None (tiled_world srv_ok).
Proof.
  apply (renderFrame_unmapped 2 (mkGeom 5 5 950 470) (tiled_world srv_ok)
           (mkFrame (Some 0%nat) 202 (mkClient 302) 480 winTypeNormal
                    false geom0 None)).
  - vm_compute. reflexivity.
  - reflexivity.
Defined.

(** ** renderOutput *)

(** C1 (as amended): renderOutput runs the top dock area, the bottom dock
    area and the active workspace whatever the earlier regions returned,
    and returns the error of the last region that failed, nil when none
    did. *)
Theorem renderOutput_last_error (o : ptr) (w w1 w2 w3 : World)
        (e1 e2 e3 : option error) (out : output) (ws : ptr) :
  renderDock o dockAreaTop w = Ret e1 w1 ->
  renderDock o dockAreaBottom w1 = Ret e2 w2 ->
  h_outputs w2 !! o = Some out ->
  o_activeWs out = Some ws ->
  renderWorkspace ws w2 = Ret e3 w3 ->
  renderOutput o w = Ret (last_error [e1; e2; e3]) w3.
Proof.
  intros H1 H2 Ho Ha H3. unfold renderOutput.
  rewrite (bind_Ret _ _ _ _ _ H1), (bind_Ret _ _ _ _ _ H2).
  rewrite (bind_Ret _ _ _ _ _ (deref_Some h_outputs _ _ _ Ho)).
  rewrite Ha. cbn [nonnil].
  rewrite (bind_Ret _ _ _ _ _ (eq_refl : ret ws w2 = Ret ws w2)).
  rewrite (bind_Ret _ _ _ _ _ H3).
  unfold ret. f_equal.
  destruct e1, e2, e3; reflexivity.
Qed.

Lemma renderOutput_last_error_witness :
  exists w3,
    renderOutput 0 (demo_world srv_two_errors)
    = Ret (last_error [Some (XError 3); None; Some (XError 8)]) w3.
Proof.
  eexists.
  eapply (renderOutput_last_error 0 (demo_world srv_two_errors)).
  - vm_compute. reflexivity.
  - vm_compute. reflexivity.
  - vm_compute. reflexivity.
  - reflexivity.
  - vm_compute. reflexivity.
Defined.

(** C1 (as stated) fails: with a top dock whose render ends in error 3 and
    a workspace whose render ends in error 8, renderOutput returns error 8,
    which is not the first error met. *)
Lemma renderOutput_first_error_counterexample :
  exists w1 w2 w3,
    renderDock 0 dockAreaTop (demo_world srv_two_errors)
      = Ret (Some (XError 3)) w1 /\
    renderDock 0 dockAreaBottom w1 = Ret None w2 /\
    renderWorkspace 0 w2 = Ret (Some (XError 8)) w3 /\
    renderOutput 0 (demo_world srv_two_errors) = Ret (Some (XError 8)) w3 /\
    Some (XError 8)
      <> first_error [Some (XError 3); None; Some (XError 8)].
Proof.
  eexists _, _, _. repeat split.
  - vm_compute. reflexivity.
  - vm_compute. reflexivity.
  - vm_compute. reflexivity.
  - vm_compute. reflexivity.
  - discriminate.
Qed.

(** ** renderDock *)

(** C2: renderDock does not keep the error of an earlier frame.  With two
    frames in the top dock area and a server that rejects the requests for
    the first one only, the render of the first frame fails with error 3,
    the second frame is still rendered (its three requests are in the log),
    and renderDock returns nil. *)
Theorem renderDock_forgets_earlier_error :
  (exists w1,
     renderFrame 10 (mkGeom 0 0 1920 30) (demo_world srv_reject_100)
     = Ret (Some (XError 3)) w1) /\
  (exists w',
     renderDock 0 dockAreaTop (demo_world srv_reject_100) = Ret None w' /\
     xlog w' =
       [ConfigureWindow 0 15 [0; 0; 1920; 30];
        ConfigureWindow 100 15 [0; 0; 1920; 30];
        ConfigureWindow 0 15 [0; 30; 1920; 20];
        ConfigureWindow 101 15 [0; 0; 1920; 20];
        SendEvent false 101 131072
                  (mkConfigureNotify 101 101 0 30 1920 20 0 0 true)]).
Proof.
  split.
  - eexists. vm_compute. reflexivity.
  - eexists. split; vm_compute; reflexivity.
Qed.

(** ** What a render leaves alone *)

Lemma same_tree_refl w : same_tree w w.
Proof. unfold same_tree. auto 10. Qed.

Lemma same_tree_trans w1 w2 w3 :
  same_tree w1 w2 -> same_tree w2 w3 -> same_tree w1 w3.
Proof.
  unfold same_tree. intros (?&?&?&?&?&?) (?&?&?&?&?&?).
  repeat split; congruence.
Qed.

Lemma same_tree_set_xlog l w : same_tree w (set_xlog l w).
Proof. unfold same_tree. cbn. auto 10. Qed.

Lemma same_tree_lookup w w' f fr :
  same_tree w w' -> h_frames w !! f = Some fr ->
  exists fr', h_frames w' !! f = Some fr' /\ forget_geom fr' = forget_geom fr.
Proof.
  intros (_ & Hf & _) Hl.
  assert (E : (forget_geom <$> h_frames w') !! f
              = (forget_geom <$> h_frames w) !! f) by now rewrite Hf.
  rewrite !lookup_fmap, Hl in E. cbn in E.
  destruct (h_frames w' !! f) as [fr'|]; [|discriminate].
  exists fr'. split; [reflexivity|]. cbn in E. congruence.
Qed.

Lemma forget_geom_height fr fr' :
  forget_geom fr' = forget_geom fr -> f_height fr' = f_height fr.
Proof. intros E. now apply (f_equal f_height) in E. Qed.

Lemma heights_same_tree w w' fs hs :
  same_tree w w' -> heights w fs hs -> heights w' fs hs.
Proof.
  intros Hs. unfold heights. induction 1 as [|f h fs hs (fr & Hl & Hh) _ IH].
  - constructor.
  - constructor; [|exact IH].
    destruct (same_tree_lookup _ _ _ _ Hs Hl) as (fr' & Hl' & E).
    exists fr'. split; [exact Hl'|].
    now rewrite (forget_geom_height _ _ E).
Qed.

(** renderFrame on a frame of the store never panics; for a mapped frame it
    stores the rectangle before any request is made, and it touches
    nothing but that geometry and the log. *)
Lemma renderFrame_spec f g w fr :
  h_frames w !! f = Some fr ->
  exists e w',
    renderFrame f g w = Ret e w' /\
    h_frames w' = (if f_mapped fr then <[f := set_geom fr g]> (h_frames w)
                   else h_frames w) /\
    same_tree w w'.
Proof.
  intros Hf. unfold renderFrame.
  rewrite (bind_Ret _ _ _ _ _ (deref_Some h_frames _ _ _ Hf)).
  destruct (f_mapped fr) eqn:Hm; cbn [negb].
  - assert (Hs : same_tree w (set_frames (<[f:=set_geom fr g]> (h_frames w))
                                         w)).
    { unfold same_tree. cbn. repeat split.
      rewrite fmap_insert. apply insert_id.
      rewrite lookup_fmap, Hf. reflexivity. }
    unfold bind, store_frame, modify, xreq, ret. cbn.
    repeat (match goal with
            | |- context [match xsrv w ?l with _ => _ end] =>
              destruct (xsrv w l)
            end; cbn);
      eexists _, _; (split; [reflexivity|]); (split; [reflexivity|]);
      (eapply same_tree_trans; [exact Hs|]);
      repeat split; reflexivity.
  - exists None, w. repeat split; apply same_tree_refl.
Qed.

Lemma renderFrame_same_tree f g w e w' :
  renderFrame f g w = Ret e w' -> same_tree w w'.
Proof.
  intros H. destruct (h_frames w !! f) as [fr|] eqn:Hf.
  - destruct (renderFrame_spec f g w fr Hf) as (e0 & w0 & E & _ & Hs).
    rewrite E in H. now injection H as <- <-.
  - unfold renderFrame, bind, deref in H. now rewrite Hf in H.
Qed.

Lemma last_result_cons err e es :
  last_result err (e :: es) = last_result e es.
Proof.
  unfold last_result. destruct es as [|e' es']; [reflexivity|].
  rewrite last_cons_cons.
  destruct (last (e' :: es')) eqn:E; [reflexivity|].
  now apply last_None in E.
Qed.

(** In general renderDock returns what the render of the last frame of the
    area returned, whatever happened to the frames before it. *)
Lemma renderDock_loop_last_result o out fs : forall hs y err w,
  h_outputs w !! o = Some out ->
  heights w fs hs ->
  renderDock_loop o fs y err w
  = (let! es := render_all (zip fs (dock_rects (o_geom out) y hs)) in
     ret (last_result err es)) w.
Proof.
  induction fs as [|f fs IH]; intros hs y err w Ho Hh.
  - reflexivity.
  - inversion Hh as [|f0 h fs0 hs' (fr & Hl & Hfh) Hh' E1 E2]; subst.
    cbn [renderDock_loop dock_rects zip zip_with render_all].
    rewrite (bind_Ret _ _ _ _ _ (deref_Some h_outputs _ _ _ Ho)).
    rewrite (bind_Ret _ _ _ _ _ (deref_Some h_frames _ _ _ Hl)).
    cbn [geomH].
    destruct (renderFrame_spec f
                (mkGeom (geomX (o_geom out)) y (geomW (o_geom out))
                        (f_height fr)) w fr Hl)
      as (e & w1 & E & _ & Hs).
    rewrite (bind_Ret _ _ _ _ _ E).
    assert (Ho1 : h_outputs w1 !! o = Some out).
    { destruct Hs as (_ & _ & _ & _ & -> & _). exact Ho. }
    rewrite (IH hs' _ e w1 Ho1 (heights_same_tree _ _ _ _ Hs Hh')).
    unfold bind. rewrite E.
    destruct (render_all _ w1) as [es w2|]; [|reflexivity].
    unfold ret. now rewrite last_result_cons.
Qed.

(** ** renderColumn *)

Lemma wrap32_idemp_add_l a b : wrap32 (wrap32 a + b) = wrap32 (a + b).
Proof. unfold wrap32. apply Zplus_mod_idemp_l. Qed.

Lemma last_error_keep err e es :
  last_error (keep_error err e :: es) = last_error (err :: e :: es).
Proof. cbn. destruct (last_error es), e, err; reflexivity. Qed.

Lemma last_error_None es : last_error (None :: es) = last_error es.
Proof. cbn. now destruct (last_error es). Qed.

Lemma sumZ_app l1 l2 : sumZ (l1 ++ l2) = sumZ l1 + sumZ l2.
Proof. unfold sumZ. induction l1; cbn; lia. Qed.

Lemma frameRect_here g rect pre h hs' y :
  wrap32 y = wrap32 (geomY rect + sumZ pre) ->
  frameRect g rect (pre ++ h :: hs') (length pre + 0)
  = mkGeom (add32 (geomX rect) g) (add32 y g)
           (sub32 (geomW rect) (mul32 g 2)) (sub32 h (mul32 g 2)).
Proof.
  intros Hy. unfold frameRect, runningY, add32, sub32, mul32.
  rewrite Nat.add_0_r, take_app_length, <- Hy, wrap32_idemp_add_l.
  rewrite (Z.mul_comm g 2). f_equal. f_equal. f_equal.
  rewrite list_lookup_total_middle; reflexivity.
Qed.

Lemma renderColumn_loop_render_all gap rect fs : forall hs pre y err w,
  heights w fs hs ->
  wrap32 y = wrap32 (geomY rect + sumZ pre) ->
  renderColumn_loop gap rect fs y err w
  = (let! es := render_all
                  (zip fs (imap (fun k _ => frameRect gap rect (pre ++ hs)
                                                      (length pre + k)) hs)) in
     ret (last_error (err :: es))) w.
Proof.
  induction fs as [|f fs IH]; intros hs pre y err w Hh Hy.
  - cbn. unfold bind, ret. cbn. now destruct err.
  - inversion Hh as [|f0 h fs0 hs' (fr & Hl & Hfh) Hh' E1 E2]; subst.
    cbn [renderColumn_loop imap zip zip_with render_all].
    rewrite (bind_Ret _ _ _ _ _ (deref_Some h_frames _ _ _ Hl)).
    rewrite (frameRect_here _ _ _ _ _ _ Hy).
    destruct (renderFrame_spec f
                (mkGeom (add32 (geomX rect) gap) (add32 y gap)
                        (sub32 (geomW rect) (mul32 gap 2))
                        (sub32 (f_height fr) (mul32 gap 2))) w fr Hl)
      as (e & w1 & E & _ & Hs).
    rewrite (bind_Ret _ _ _ _ _ E).
    destruct (same_tree_lookup _ _ _ _ Hs Hl) as (fr1 & Hl1 & Efr).
    rewrite (bind_Ret _ _ _ _ _ (deref_Some h_frames _ _ _ Hl1)).
    rewrite (forget_geom_height _ _ Efr).
    rewrite (IH hs' (pre ++ [f_height fr]) _ _ w1
               (heights_same_tree _ _ _ _ Hs Hh')).
    + rewrite <- (app_assoc pre [f_height fr] hs'). cbn [app].
      assert (Ei : imap (fun k (_ : Z) =>
                           frameRect gap rect (pre ++ f_height fr :: hs')
                                     (length (pre ++ [f_height fr]) + k)) hs'
                   = imap ((fun k (_ : Z) =>
                              frameRect gap rect (pre ++ f_height fr :: hs')
                                        (length pre + k)) ∘ S) hs').
      { apply imap_ext. intros k x _. cbn. rewrite length_app. cbn.
        f_equal. lia. }
      rewrite Ei. unfold bind. rewrite E.
      destruct (render_all _ w1) as [es w2|]; [|reflexivity].
      unfold ret. now rewrite last_error_keep.
    + unfold add32. rewrite sumZ_app. cbn.
      replace (wrap32 (wrap32 (y + f_height fr)))
        with (wrap32 (y + f_height fr))
        by (unfold wrap32; now rewrite Zmod_mod).
      rewrite <- wrap32_idemp_add_l, Hy, wrap32_idemp_add_l.
      f_equal. lia.
Qed.

(** render_all on frames of the store, each listed once: it runs to the
    end, and every mapped frame ends with the rectangle paired with it. *)
Lemma render_all_geom l : forall w,
  NoDup l.*1 ->
  Forall (fun fg => is_Some (h_frames w !! fg.1)) l ->
  exists es w',
    render_all l w = Ret es w' /\ same_tree w w' /\
    (forall p, p ∉ l.*1 -> h_frames w' !! p = h_frames w !! p) /\
    (forall k f g fr,
        l !! k = Some (f, g) -> h_frames w !! f = Some fr ->
        h_frames w' !! f = Some (if f_mapped fr then set_geom fr g else fr)).
Proof.
  induction l as [|[f g] l IH]; intros w Hnd Hv.
  - exists [], w. repeat split; auto using same_tree_refl.
    intros k f g fr Hk. now rewrite lookup_nil in Hk.
  - cbn in Hnd. apply NoDup_cons in Hnd as [Hnotin Hnd].
    apply Forall_cons in Hv as [[fr Hl] Hv]. cbn in Hl.
    destruct (renderFrame_spec f g w fr Hl) as (e & w1 & E & Hfr & Hs).
    assert (Hother : forall p, p <> f -> h_frames w1 !! p = h_frames w !! p).
    { intros p Hp. rewrite Hfr. destruct (f_mapped fr); [|reflexivity].
      now rewrite lookup_insert_ne. }
    assert (Hhere : h_frames w1 !! f
                    = Some (if f_mapped fr then set_geom fr g else fr)).
    { rewrite Hfr. destruct (f_mapped fr); [|exact Hl].
      apply lookup_insert_eq. }
    destruct (IH w1 Hnd) as (es & w' & E' & Hs' & Hout & Hin).
    { eapply Forall_impl; [exact Hv|]. intros [p gp] [frp Hp]. cbn in *.
      destruct (same_tree_lookup _ _ _ _ Hs Hp) as (x & Hx & _). eauto. }
    exists (e :: es), w'. split; [|split; [|split]].
    + cbn [render_all]. rewrite (bind_Ret _ _ _ _ _ E).
      now rewrite (bind_Ret _ _ _ _ _ E').
    + eapply same_tree_trans; eauto.
    + intros p Hp. cbn in Hp. apply not_elem_of_cons in Hp as [Hpf Hp].
      rewrite (Hout p Hp). now apply Hother.
    + intros [|k] f' g' fr' Hk Hl'.
      * cbn in Hk. injection Hk as <- <-.
        rewrite Hl in Hl'. injection Hl' as <-.
        rewrite (Hout f Hnotin). exact Hhere.
      * cbn in Hk. apply (Hin k f' g' fr' Hk).
        rewrite Hother; [exact Hl'|].
        intros ->. apply Hnotin.
        apply list_elem_of_fmap. exists (f, g'). split; [reflexivity|].
        eapply list_elem_of_lookup_2; eauto.
Qed.

Lemma heights_length w fs hs : heights w fs hs -> length fs = length hs.
Proof. apply Forall2_length. Qed.

Lemma heights_valid w fs hs (rs : list Geom) :
  heights w fs hs ->
  Forall (fun fg => is_Some (h_frames w !! fg.1)) (zip fs rs).
Proof.
  intros Hh. revert rs.
  induction Hh as [|f h fs hs (fr & Hl & _) _ IH]; intros [|r rs]; cbn;
    constructor; eauto.
Qed.

(** C3: renderColumn hands the frames of the column, top to bottom, to
    renderFrame, the k-th with the rectangle
    [{x: rect.x + g, y: runningY + g, width: rect.width - 2*g,
      height: share - 2*g}], where [g] is the configured inner gap, [share]
    the height share of the frame and [runningY] starts at [rect.y] and has
    advanced by the height shares of the frames above (all in 32-bit
    unsigned arithmetic); every frame is rendered whatever the earlier ones
    returned, and each mapped frame ends up with that rectangle as its
    geometry. *)
Theorem renderColumn_geometry (col : ptr) (rect : Geom) (w : World)
        (c : column) (hs : list Z) :
  h_columns w !! col = Some c ->
  heights w (c_frames c) hs ->
  NoDup (c_frames c) ->
  renderColumn col rect w
  = (let! es := render_all
                  (zip (c_frames c)
                       (column_rects (InnerGap (wm_config (wm w))) rect hs)) in
     ret (last_error es)) w
  /\ exists e w',
      renderColumn col rect w = Ret e w' /\
      forall k f fr,
        c_frames c !! k = Some f ->
        h_frames w !! f = Some fr ->
        f_mapped fr = true ->
        h_frames w' !! f
        = Some (set_geom fr (frameRect (InnerGap (wm_config (wm w)))
                                       rect hs k)).
Proof.
  intros Hc Hh Hnd.
  assert (E : renderColumn col rect w
              = (let! es := render_all
                    (zip (c_frames c)
                       (column_rects (InnerGap (wm_config (wm w))) rect hs)) in
                 ret (last_error es)) w).
  { unfold renderColumn.
    unfold bind at 1. unfold gets.
    rewrite (bind_Ret _ _ _ _ _ (deref_Some h_columns _ _ _ Hc)).
    rewrite (renderColumn_loop_render_all _ _ _ hs [] (geomY rect) None w Hh).
    - cbn [app length Nat.add]. unfold column_rects, bind.
      destruct (render_all _ w); [|reflexivity].
      unfold ret. now rewrite last_error_None.
    - cbn. now rewrite Z.add_0_r. }
  split; [exact E|].
  pose proof (heights_length _ _ _ Hh) as Hlen.
  destruct (render_all_geom
              (zip (c_frames c)
                   (column_rects (InnerGap (wm_config (wm w))) rect hs)) w)
    as (es & w' & Er & _ & _ & Hgeom).
  { rewrite fst_zip; [exact Hnd|].
    unfold column_rects. rewrite length_imap. lia. }
  { now apply heights_valid with hs. }
  exists (last_error es), w'. split.
  - rewrite E. now rewrite (bind_Ret _ _ _ _ _ Er).
  - intros k f fr Hk Hl Hm.
    rewrite (Hgeom k f (frameRect (InnerGap (wm_config (wm w))) rect hs k) fr);
      [now rewrite Hm| |exact Hl].
    apply lookup_zip_with_Some.
    exists f, (frameRect (InnerGap (wm_config (wm w))) rect hs k).
    split; [reflexivity|]. split; [exact Hk|].
    unfold column_rects. rewrite list_lookup_imap.
    destruct (hs !! k) as [h|] eqn:Hhk; [reflexivity|].
    apply lookup_ge_None in Hhk. apply lookup_lt_Some in Hk. lia.
Qed.

Lemma renderColumn_geometry_witness :
  exists e w',
    renderColumn 0 (mkGeom 0 0 960 1080) (tiled_world srv_ok) = Ret e w' /\
    forall k f fr,
      [1%nat; 2%nat] !! k = Some f ->
      tiled_frames !! f = Some fr ->
      f_mapped fr = true ->
      h_frames w' !! f
      = Some (set_geom fr (frameRect 5 (mkGeom 0 0 960 1080) [600; 480] k)).
Proof.
  refine (proj2 (renderColumn_geometry 0 (mkGeom 0 0 960 1080)
                   (tiled_world srv_ok)
                   (mkColumn (Some 0%nat) [1%nat; 2%nat] 960) [600; 480]
                   _ _ _)).
  - vm_compute. reflexivity.
  - repeat constructor; eexists; (split; [vm_compute; reflexivity|reflexivity]).
  - cbn. apply (bool_decide_unpack _). vm_compute. exact I.
Defined.

(** The sibling loops do keep an error once one was seen: they never turn
    it back into nil. *)
Lemma renderColumn_loop_keeps_error gap geom fs : forall y e0 w r w',
  renderColumn_loop gap geom fs y (Some e0) w = Ret r w' -> r <> None.
Proof.
  induction fs as [|f fs IH]; intros y e0 w r w'; cbn [renderColumn_loop].
  - now intros [= <- _].
  - unfold bind at 1.
    destruct (deref h_frames f w) as [fr w1|]; [|discriminate].
    unfold bind at 1.
    destruct (renderFrame f _ w1) as [e w2|]; [|discriminate].
    unfold bind at 1.
    destruct (deref h_frames f w2) as [fr' w3|]; [|discriminate].
    destruct e as [e1|]; cbn [keep_error]; apply IH.
Qed.

Lemma renderWorkspace_loop_keeps_error a cols : forall x e0 w r w',
  renderWorkspace_loop a cols x (Some e0) w = Ret r w' -> r <> None.
Proof.
  induction cols as [|col cols IH]; intros x e0 w r w';
    cbn [renderWorkspace_loop].
  - now intros [= <- _].
  - unfold bind at 1.
    destruct (deref h_columns col w) as [c w1|]; [|discriminate].
    unfold bind at 1.
    destruct (renderColumn col _ w1) as [e w2|]; [|discriminate].
    unfold bind at 1.
    destruct (deref h_columns col w2) as [c' w3|]; [|discriminate].
    destruct e as [e1|]; cbn [keep_error]; apply IH.
Qed.

(** ** renderWorkspace: the single frame *)

Lemma wrap32_idemp z : wrap32 (wrap32 z) = wrap32 z.
Proof. unfold wrap32. apply Zmod_mod. Qed.

Lemma dockHeight_loop_spec fs : forall hs h w,
  heights w fs hs ->
  wrap32 h = h ->
  dockHeight_loop fs h w = Ret (wrap32 (h + sumZ hs)) w.
Proof.
  induction fs as [|f fs IH]; intros hs h w Hh Hw.
  - inversion Hh; subst. cbn. unfold ret. now rewrite Z.add_0_r, Hw.
  - inversion Hh as [|f0 x fs0 hs' (fr & Hl & Hx) Hh' E1 E2]; subst.
    cbn [dockHeight_loop].
    rewrite (bind_Ret _ _ _ _ _ (deref_Some h_frames _ _ _ Hl)).
    rewrite (IH hs' _ w Hh').
    + unfold add32. rewrite wrap32_idemp_add_l. cbn. fold (sumZ hs').
      now rewrite Z.add_assoc.
    + apply wrap32_idemp.
Qed.

Lemma dockHeight_spec o area w out hs :
  h_outputs w !! o = Some out ->
  heights w (o_dockAreas out area) hs ->
  dockHeight o area w = Ret (wrap32 (sumZ hs)) w.
Proof.
  intros Ho Hh. unfold dockHeight.
  rewrite (bind_Ret _ _ _ _ _ (deref_Some h_outputs _ _ _ Ho)).
  now rewrite (dockHeight_loop_spec _ hs 0 w Hh).
Qed.

(** C4: for a workspace of exactly one frame (one column holding one
    frame), renderWorkspace does not split into columns and frames: it is
    the render of that frame at the usable area, the rectangle of the
    output minus the heights of the top and bottom docks, whatever the
    configured inner gap; a mapped frame ends up with exactly that
    rectangle as its geometry. *)
Theorem renderWorkspace_single_frame (ws : ptr) (w : World) (s : workspace)
        (col : ptr) (c : column) (f : ptr) (o : ptr) (out : output)
        (tops bottoms : list Z) :
  h_workspaces w !! ws = Some s ->
  ws_columns s = [col] ->
  h_columns w !! col = Some c ->
  c_frames c = [f] ->
  ws_output s = Some o ->
  h_outputs w !! o = Some out ->
  heights w (o_dockTop out) tops ->
  heights w (o_dockBottom out) bottoms ->
  renderWorkspace ws w
  = renderFrame f (usable (o_geom out) (wrap32 (sumZ tops))
                          (wrap32 (sumZ bottoms))) w
  /\ forall fr,
      h_frames w !! f = Some fr ->
      f_mapped fr = true ->
      exists e w',
        renderWorkspace ws w = Ret e w' /\
        h_frames w' !! f
        = Some (set_geom fr (usable (o_geom out) (wrap32 (sumZ tops))
                                    (wrap32 (sumZ bottoms)))).
Proof.
  intros Hws Hcols Hcol Hfs Ho Hout Htop Hbot.
  assert (E : renderWorkspace ws w
              = renderFrame f (usable (o_geom out) (wrap32 (sumZ tops))
                                      (wrap32 (sumZ bottoms))) w).
  { unfold renderWorkspace, singleFrame.
    assert (Es : singleFrame ws w = Ret (Some f) w).
    { unfold singleFrame.
      rewrite (bind_Ret _ _ _ _ _ (deref_Some h_workspaces _ _ _ Hws)).
      rewrite Hcols.
      rewrite (bind_Ret _ _ _ _ _ (deref_Some h_columns _ _ _ Hcol)).
      now rewrite Hfs. }
    fold (singleFrame ws). rewrite (bind_Ret _ _ _ _ _ Es).
    assert (Ef : fullArea ws w
                 = Ret (usable (o_geom out) (wrap32 (sumZ tops))
                               (wrap32 (sumZ bottoms))) w).
    { unfold fullArea.
      rewrite (bind_Ret _ _ _ _ _ (deref_Some h_workspaces _ _ _ Hws)).
      rewrite Ho. cbn [nonnil].
      rewrite (bind_Ret _ _ w o w eq_refl).
      rewrite (bind_Ret _ _ _ _ _ (deref_Some h_outputs _ _ _ Hout)).
      rewrite (bind_Ret _ _ _ _ _
                 (dockHeight_spec o dockAreaTop w out tops Hout Htop)).
      rewrite (bind_Ret _ _ _ _ _
                 (dockHeight_spec o dockAreaBottom w out bottoms Hout Hbot)).
      reflexivity. }
    now rewrite (bind_Ret _ _ _ _ _ Ef). }
  split; [exact E|].
  intros fr Hl Hm.
  destruct (renderFrame_spec f (usable (o_geom out) (wrap32 (sumZ tops))
                                       (wrap32 (sumZ bottoms))) w fr Hl)
    as (e & w' & Er & Hfr & _).
  exists e, w'. split; [now rewrite E|].
  rewrite Hfr, Hm. apply lookup_insert_eq.
Qed.

Lemma renderWorkspace_single_frame_witness :
  renderWorkspace 0 (demo_world srv_ok)
  = renderFrame 1 (mkGeom 0 50 1920 1030) (demo_world srv_ok)
  /\ forall fr,
      demo_frames !! 1%nat = Some fr ->
      f_mapped fr = true ->
      exists e w',
        renderWorkspace 0 (demo_world srv_ok) = Ret e w' /\
        h_frames w' !! 1%nat = Some (set_geom fr (mkGeom 0 50 1920 1030)).
Proof.
  refine (renderWorkspace_single_frame 0 (demo_world srv_ok)
            (mkWorkspace 0 [0%nat] (Some 0%nat)) 0
            (mkColumn (Some 0%nat) [1%nat] 1920) 1 0
            (mkOutput (mkGeom 0 0 1920 1080) [10%nat; 11%nat] []
                      [0%nat] (Some 0%nat))
            [30; 20] [] _ _ _ _ _ _ _ _).
  - vm_compute. reflexivity.
  - reflexivity.
  - vm_compute. reflexivity.
  - reflexivity.
  - reflexivity.
  - vm_compute. reflexivity.
  - repeat constructor; eexists; (split; [vm_compute; reflexivity|reflexivity]).
  - constructor.
Defined.

(** ** ensureWorkspace *)

Lemma ensureWorkspace_loop_unknown id w l :
  Forall (fun p => exists s', h_workspaces w !! p = Some s' /\ ws_id s' <> id)
         l ->
  ensureWorkspace_loop id l w = Ret None w.
Proof.
  induction 1 as [|p l (s & Hl & Hid) _ IH]; [reflexivity|].
  cbn [ensureWorkspace_loop].
  rewrite (bind_Ret _ _ _ _ _ (deref_Some h_workspaces _ _ _ Hl)).
  apply Z.eqb_neq in Hid. now rewrite Hid.
Qed.

Lemma ensureWorkspace_loop_found id w pre ws post s :
  Forall (fun p => exists s', h_workspaces w !! p = Some s' /\ ws_id s' <> id)
         pre ->
  h_workspaces w !! ws = Some s -> ws_id s = id ->
  ensureWorkspace_loop id (pre ++ ws :: post) w = Ret (Some ws) w.
Proof.
  intros Hpre Hl Hid.
  induction Hpre as [|p l (s' & Hl' & Hid') _ IH];
    cbn [app ensureWorkspace_loop].
  - rewrite (bind_Ret _ _ _ _ _ (deref_Some h_workspaces _ _ _ Hl)).
    apply Z.eqb_eq in Hid. now rewrite Hid.
  - rewrite (bind_Ret _ _ _ _ _ (deref_Some h_workspaces _ _ _ Hl')).
    apply Z.eqb_neq in Hid'. now rewrite Hid'.
Qed.

Lemma ensureWorkspace_loop_resolves id w ws :
  resolves w id ws ->
  ensureWorkspace_loop id (wm_workspaces (wm w)) w = Ret (Some ws) w.
Proof.
  intros (pre & post & s & -> & Hpre & Hl & Hid).
  now apply ensureWorkspace_loop_found with s.
Qed.

Lemma ensureWorkspace_loop_pure id l : forall w r w',
  ensureWorkspace_loop id l w = Ret r w' -> w' = w.
Proof.
  induction l as [|p l IH]; intros w r w'; cbn [ensureWorkspace_loop].
  - now intros [= _ ->].
  - unfold bind, deref. destruct (h_workspaces w !! p) as [s|]; [|discriminate].
    destruct (ws_id s =? id); [now intros [= _ ->]|]. apply IH.
Qed.

Lemma index_head o0 os : forall w, index (o0 :: os) 0 w = Ret o0 w.
Proof. reflexivity. Qed.

Lemma ensureWorkspace_unknown id w :
  unknown_id w id ->
  ensureWorkspace id w = Ret (inr (ErrorfInt "no workspace with ID %d" id)) w.
Proof.
  intros H. unfold ensureWorkspace. unfold bind at 1. unfold gets.
  now rewrite (bind_Ret _ _ _ _ _ (ensureWorkspace_loop_unknown id w _ H)).
Qed.

Lemma ensureWorkspace_owned id w ws s o o0 os :
  resolves w id ws ->
  h_workspaces w !! ws = Some s -> ws_output s = Some o ->
  wm_outputs (wm w) = o0 :: os ->
  ensureWorkspace id w
  = Ret (if Nat.eqb o o0 then inl ws
         else inr (Errorf "multiple outputs not supported yet")) w.
Proof.
  intros Hr Hl Ho Hos. unfold ensureWorkspace. unfold bind at 1. unfold gets.
  rewrite (bind_Ret _ _ _ _ _ (ensureWorkspace_loop_resolves id w ws Hr)).
  rewrite (bind_Ret _ _ _ _ _ (deref_Some h_workspaces _ _ _ Hl)).
  unfold bind at 1. rewrite Ho, Hos.
  rewrite (bind_Ret _ _ _ _ _ (index_head o0 os w)).
  now destruct (Nat.eqb o o0).
Qed.

Lemma ensureWorkspace_unassigned id w ws s o0 os out :
  resolves w id ws ->
  h_workspaces w !! ws = Some s -> ws_output s = None ->
  wm_outputs (wm w) = o0 :: os ->
  h_outputs w !! o0 = Some out ->
  ensureWorkspace id w = Ret (inl ws) (attached ws s o0 out w).
Proof.
  intros Hr Hl Ho Hos Hout. unfold ensureWorkspace. unfold bind at 1.
  unfold gets.
  rewrite (bind_Ret _ _ _ _ _ (ensureWorkspace_loop_resolves id w ws Hr)).
  rewrite (bind_Ret _ _ _ _ _ (deref_Some h_workspaces _ _ _ Hl)).
  unfold bind at 1. rewrite Ho, Hos.
  rewrite (bind_Ret _ _ _ _ _ (index_head o0 os w)).
  unfold addWorkspace.
  rewrite (bind_Ret _ _ w (None : option error) (attached ws s o0 out w));
    [reflexivity|].
  rewrite (bind_Ret _ _ _ _ _ (deref_Some h_outputs _ _ _ Hout)).
  rewrite (bind_Ret _ _ _ _ _ (deref_Some h_workspaces _ _ _ Hl)).
  reflexivity.
Qed.

(** Whatever ensureWorkspace returns, it has either changed nothing or
    attached an unassigned workspace to the first output. *)
Lemma ensureWorkspace_cases id w r w1 :
  ensureWorkspace id w = Ret r w1 ->
  w1 = w \/
  exists ws s o0 out,
    r = inl ws /\ h_workspaces w !! ws = Some s /\ ws_output s = None /\
    h_outputs w !! o0 = Some out /\ w1 = attached ws s o0 out w.
Proof.
  unfold ensureWorkspace. unfold bind at 1. unfold gets.
  unfold bind at 1.
  destruct (ensureWorkspace_loop id _ w) as [[ws|] w0|] eqn:El;
    [| |discriminate].
  - apply ensureWorkspace_loop_pure in El as ->.
    unfold bind at 1, deref.
    destruct (h_workspaces w !! ws) as [s|] eqn:Hl; [|discriminate].
    unfold bind at 1. cbn [gets].
    destruct (ws_output s) as [o|] eqn:Ho.
    + unfold bind, index.
      destruct ((0 <=? 0) && (0 <? Z.of_nat (length (wm_outputs (wm w)))));
        [|discriminate].
      destruct (wm_outputs (wm w) !! Z.to_nat 0) as [o0|]; [|discriminate].
      cbn. destruct (negb (o =? o0)%nat); intros [= _ ->]; now left.
    + unfold bind at 1, index.
      destruct ((0 <=? 0) && (0 <? Z.of_nat (length (wm_outputs (wm w)))));
        [|discriminate].
      destruct (wm_outputs (wm w) !! Z.to_nat 0) as [o0|]; [|discriminate].
      cbn [ret]. unfold addWorkspace, bind, deref.
      destruct (h_outputs w !! o0) as [out|] eqn:Hout; [|discriminate].
      rewrite Hl. cbn. intros [= <- <-]. right.
      exists ws, s, o0, out. auto.
  - apply ensureWorkspace_loop_pure in El as ->.
    intros [= _ ->]. now left.
Qed.

(** ** moveFrameToWorkspace *)

(** C10: when the identifier resolves to the workspace that is active on
    the current output (and, as the data model has it, that workspace is
    owned by this output), moveFrameToWorkspace returns nil and the world
    is the one it started from: the tree and the frame are untouched,
    nothing is unmapped or rendered, no request reaches the server. *)
Theorem moveFrameToWorkspace_active (f : ptr) (wsID : Z) (w : World)
        (o0 : ptr) (os : list ptr) (out : output) (cur : ptr)
        (s : workspace) :
  wm_outputs (wm w) = o0 :: os ->
  h_outputs w !! o0 = Some out ->
  o_activeWs out = Some cur ->
  resolves w wsID cur ->
  h_workspaces w !! cur = Some s ->
  ws_output s = Some o0 ->
  moveFrameToWorkspace f wsID w = Ret None w.
Proof.
  intros Hos Hout Hact Hres Hl Ho. unfold moveFrameToWorkspace.
  unfold bind at 1. unfold gets. rewrite Hos.
  rewrite (bind_Ret _ _ _ _ _ (index_head o0 os w)).
  rewrite (bind_Ret _ _ _ _ _ (deref_Some h_outputs _ _ _ Hout)).
  rewrite (bind_Ret _ _ _ _ _
             (ensureWorkspace_owned wsID w cur s o0 o0 os Hres Hl Ho Hos)).
  rewrite Nat.eqb_refl, Hact.
  now rewrite bool_decide_eq_true_2.
Qed.

Lemma moveFrameToWorkspace_active_witness :
  moveFrameToWorkspace 1 0 (tiled_world srv_ok) = Ret None (tiled_world srv_ok).
Proof.
  apply (moveFrameToWorkspace_active 1 0 (tiled_world srv_ok) 0 []
           (mkOutput (mkGeom 0 0 1920 1080) [] [] [0%nat] (Some 0%nat)) 0
           (mkWorkspace 0 [0%nat; 1%nat] (Some 0%nat))).
  - reflexivity.
  - vm_compute. reflexivity.
  - reflexivity.
  - exists [], [1%nat; 2%nat], (mkWorkspace 0 [0%nat; 1%nat] (Some 0%nat)).
    split; [reflexivity|].
    split; [constructor|].
    split; [vm_compute; reflexivity|reflexivity].
  - vm_compute. reflexivity.
  - reflexivity.
Defined.

Lemma contains_false f l : f ∉ l -> contains f l = false.
Proof.
  unfold contains. induction l as [|x l IH]; [reflexivity|].
  intros H. apply not_elem_of_cons in H as [Hne Hl]. cbn.
  rewrite (IH Hl). apply Nat.eqb_neq in Hne. now rewrite Hne.
Qed.

Lemma workspace_deleteFrame_loop_absent ws f w cols :
  Forall (fun col => exists c, h_columns w !! col = Some c /\ f ∉ c_frames c)
         cols ->
  workspace_deleteFrame_loop ws cols f w = Ret false w.
Proof.
  induction 1 as [|col cols (c & Hl & Hf) _ IH]; [reflexivity|].
  cbn [workspace_deleteFrame_loop].
  rewrite (bind_Ret _ _ _ _ _ (deref_Some h_columns _ _ _ Hl)).
  now rewrite (contains_false _ _ Hf).
Qed.

(** C7 (as amended): when the identifier does not resolve to the source
    workspace itself (the workspace active on the current output) and no
    column of the source workspace lists the frame, moveFrameToWorkspace
    returns an error; the frame is not inserted anywhere (the frames, the
    columns and the column order of every workspace are as before), it is
    not unmapped and nothing is rendered (no request reaches the
    server). *)
Theorem moveFrameToWorkspace_not_contained (f : ptr) (wsID : Z) (w w1 : World)
        (o0 : ptr) (os : list ptr) (out : output) (cur : ptr)
        (s : workspace) (r : ptr + error) :
  wm_outputs (wm w) = o0 :: os ->
  h_outputs w !! o0 = Some out ->
  o_activeWs out = Some cur ->
  h_workspaces w !! cur = Some s ->
  Forall (fun col => exists c, h_columns w !! col = Some c /\ f ∉ c_frames c)
         (ws_columns s) ->
  ensureWorkspace wsID w = Ret r w1 ->
  r <> inl cur ->
  exists err,
    moveFrameToWorkspace f wsID w = Ret (Some err) w1 /\
    h_frames w1 = h_frames w /\
    h_columns w1 = h_columns w /\
    xlog w1 = xlog w /\
    forall ws, ws_view w1 ws = ws_view w ws.
Proof.
  intros Hos Hout Hact Hl Habs Hens Hne.
  assert (Hkeep : h_frames w1 = h_frames w /\ h_columns w1 = h_columns w /\
                  xlog w1 = xlog w /\
                  (forall ws, ws_view w1 ws = ws_view w ws) /\
                  h_workspaces w1 !! cur = Some s).
  { destruct (ensureWorkspace_cases _ _ _ _ Hens)
      as [->|(ws & s0 & o & out0 & -> & Hl0 & Ho0 & Hout0 & ->)].
    - auto 10.
    - assert (ws <> cur) by congruence.
      repeat split; cbn.
      + intros p. unfold ws_view. cbn.
        destruct (decide (p = ws)) as [->|Hp].
        * rewrite lookup_insert_eq, Hl0. reflexivity.
        * now rewrite lookup_insert_ne.
      + now rewrite lookup_insert_ne. }
  destruct Hkeep as (Hf & Hc & Hx & Hv & Hl1).
  unfold moveFrameToWorkspace.
  unfold bind at 1. unfold gets. rewrite Hos.
  rewrite (bind_Ret _ _ _ _ _ (index_head o0 os w)).
  rewrite (bind_Ret _ _ _ _ _ (deref_Some h_outputs _ _ _ Hout)).
  rewrite (bind_Ret _ _ _ _ _ Hens).
  destruct r as [next|err].
  - rewrite Hact. rewrite bool_decide_eq_false_2 by congruence.
    cbn [nonnil]. rewrite (bind_Ret _ _ w1 cur w1 eq_refl).
    assert (Ed : workspace_deleteFrame cur f w1 = Ret false w1).
    { unfold workspace_deleteFrame.
      rewrite (bind_Ret _ _ _ _ _ (deref_Some h_workspaces _ _ _ Hl1)).
      apply workspace_deleteFrame_loop_absent. now rewrite Hc. }
    rewrite (bind_Ret _ _ _ _ _ Ed). cbn [negb].
    eexists. split; [reflexivity|]. auto.
  - eexists. split; [reflexivity|]. auto.
Qed.

Lemma moveFrameToWorkspace_not_contained_witness :
  exists err w1,
    moveFrameToWorkspace 4 1 (tiled_world srv_ok) = Ret (Some err) w1 /\
    h_frames w1 = tiled_frames /\ h_columns w1 = tiled_columns /\ xlog w1 = [].
Proof.
  destruct (moveFrameToWorkspace_not_contained 4 1 (tiled_world srv_ok)
              (attached 1 (mkWorkspace 1 [] None) 0
                 (mkOutput (mkGeom 0 0 1920 1080) [] [] [0%nat] (Some 0%nat))
                 (tiled_world srv_ok))
              0 []
              (mkOutput (mkGeom 0 0 1920 1080) [] [] [0%nat] (Some 0%nat)) 0
              (mkWorkspace 0 [0%nat; 1%nat] (Some 0%nat)) (inl 1%nat))
    as (err & E & Hf & Hc & Hx & _).
  - reflexivity.
  - vm_compute. reflexivity.
  - reflexivity.
  - vm_compute. reflexivity.
  - repeat constructor; eexists; (split; [vm_compute; reflexivity|]);
      cbn; apply (bool_decide_unpack _); vm_compute; exact I.
  - vm_compute. reflexivity.
  - discriminate.
  - exists err, (attached 1 (mkWorkspace 1 [] None) 0
                 (mkOutput (mkGeom 0 0 1920 1080) [] [] [0%nat] (Some 0%nat))
                 (tiled_world srv_ok)).
    auto.
Defined.

(** C7 (as stated) fails: frame 4 is in no column of the active workspace
    0, yet moving it to the workspace with identifier 0 returns nil. *)
Lemma moveFrameToWorkspace_not_contained_counterexample :
  Forall (fun col => exists c,
              tiled_columns !! col = Some c /\ 4%nat ∉ c_frames c)
         [0%nat; 1%nat] /\
  moveFrameToWorkspace 4 0 (tiled_world srv_ok) = Ret None (tiled_world srv_ok).
Proof.
  split.
  - repeat constructor; eexists; (split; [vm_compute; reflexivity|]);
      cbn; apply (bool_decide_unpack _); vm_compute; exact I.
  - vm_compute. reflexivity.
Qed.

(** ** Frame conditions *)

Section Preserves.
Context (R : World -> World -> Prop) `{!PreOrder R}.

Lemma preserves_ret {A} (a : A) : preserves R (ret a).
Proof. intros w a' w' [= _ <-]. reflexivity. Qed.

Lemma preserves_panic {A} : preserves R (@panic A).
Proof. intros w a w'. discriminate. Qed.

Lemma preserves_gets {A} (f : World -> A) : preserves R (gets f).
Proof. intros w a' w' [= _ <-]. reflexivity. Qed.

Lemma preserves_deref {A} (heap : World -> gmap ptr A) p :
  preserves R (deref heap p).
Proof.
  intros w a w' H. apply deref_Ret in H as [_ ->]. reflexivity.
Qed.

Lemma preserves_nonnil p : preserves R (nonnil p).
Proof. destruct p; [apply preserves_ret|apply preserves_panic]. Qed.

Lemma preserves_index l i : preserves R (index l i).
Proof.
  unfold index. destruct (_ && _); [|apply preserves_panic].
  destruct (l !! _); [apply preserves_ret|apply preserves_panic].
Qed.

Lemma preserves_bind {A B} (m : M A) (k : A -> M B) :
  preserves R m -> (forall a, preserves R (k a)) -> preserves R (bind m k).
Proof.
  intros Hm Hk w b w'. unfold bind.
  destruct (m w) as [a w1|] eqn:E; [|discriminate].
  intros H. transitivity w1; [eapply Hm|eapply Hk]; eauto.
Qed.
End Preserves.

Global Instance same_tree_preorder : PreOrder same_tree.
Proof.
  split; [exact same_tree_refl|exact same_tree_trans].
Qed.

Global Instance same_workspaces_preorder : PreOrder same_workspaces.
Proof.
  split; unfold same_workspaces; [now intros w|intros w1 w2 w3; congruence].
Qed.

Lemma preserves_weaken {A} (R R' : World -> World -> Prop) (m : M A) :
  (forall w w', R w w' -> R' w w') -> preserves R m -> preserves R' m.
Proof. intros HR Hm w a w' E. eauto. Qed.

Lemma same_tree_workspaces w w' : same_tree w w' -> same_workspaces w w'.
Proof. now intros (_ & _ & _ & H & _). Qed.

Lemma renderFrame_preserves f g : preserves same_tree (renderFrame f g).
Proof. intros w e w'. apply renderFrame_same_tree. Qed.

Lemma xreq_preserves r : preserves same_tree (xreq r).
Proof. intros w e w' [= _ <-]. apply same_tree_set_xlog. Qed.

Lemma renderColumn_loop_preserves gap geom fs : forall y err,
  preserves same_tree (renderColumn_loop gap geom fs y err).
Proof.
  induction fs as [|f fs IH]; intros y err; cbn [renderColumn_loop].
  - apply preserves_ret; apply _.
  - apply preserves_bind; [apply _|apply preserves_deref; apply _|intros fr].
    apply preserves_bind; [apply _|apply renderFrame_preserves|intros e].
    apply preserves_bind; [apply _|apply preserves_deref; apply _|intros fr'].
    apply IH.
Qed.

Lemma renderColumn_preserves col geom :
  preserves same_tree (renderColumn col geom).
Proof.
  unfold renderColumn.
  apply preserves_bind; [apply _|apply preserves_gets; apply _|intros gap].
  apply preserves_bind; [apply _|apply preserves_deref; apply _|intros c].
  apply renderColumn_loop_preserves.
Qed.

Lemma dockHeight_loop_preserves fs : forall h,
  preserves same_tree (dockHeight_loop fs h).
Proof.
  induction fs as [|f fs IH]; intros h; cbn [dockHeight_loop].
  - apply preserves_ret; apply _.
  - apply preserves_bind; [apply _|apply preserves_deref; apply _|intros fr].
    apply IH.
Qed.

Lemma dockHeight_preserves o area : preserves same_tree (dockHeight o area).
Proof.
  unfold dockHeight.
  apply preserves_bind; [apply _|apply preserves_deref; apply _|intros out].
  apply dockHeight_loop_preserves.
Qed.

Lemma fullArea_preserves ws : preserves same_tree (fullArea ws).
Proof.
  unfold fullArea.
  apply preserves_bind; [apply _|apply preserves_deref; apply _|intros s].
  apply preserves_bind; [apply _|apply preserves_nonnil; apply _|intros o].
  apply preserves_bind; [apply _|apply preserves_deref; apply _|intros out].
  apply preserves_bind; [apply _|apply dockHeight_preserves|intros top].
  apply preserves_bind; [apply _|apply dockHeight_preserves|intros bottom].
  apply preserves_ret; apply _.
Qed.

Lemma singleFrame_preserves ws : preserves same_tree (singleFrame ws).
Proof.
  unfold singleFrame.
  apply preserves_bind; [apply _|apply preserves_deref; apply _|intros s].
  destruct (ws_columns s) as [|c [|c' cols]];
    try (apply preserves_ret; apply _).
  apply preserves_bind; [apply _|apply preserves_deref; apply _|intros col].
  destruct (c_frames col) as [|f [|f' fs]]; apply preserves_ret; apply _.
Qed.

Lemma renderWorkspace_loop_preserves a cols : forall x err,
  preserves same_tree (renderWorkspace_loop a cols x err).
Proof.
  induction cols as [|col cols IH]; intros x err; cbn [renderWorkspace_loop].
  - apply preserves_ret; apply _.
  - apply preserves_bind; [apply _|apply preserves_deref; apply _|intros c].
    apply preserves_bind; [apply _|apply renderColumn_preserves|intros e].
    apply preserves_bind; [apply _|apply preserves_deref; apply _|intros c'].
    apply IH.
Qed.

(** A render of a workspace changes nothing but the geometry stored in
    frames and the log of requests. *)
Lemma renderWorkspace_preserves ws : preserves same_tree (renderWorkspace ws).
Proof.
  unfold renderWorkspace.
  apply preserves_bind; [apply _|apply singleFrame_preserves|intros [f|]].
  - apply preserves_bind; [apply _|apply fullArea_preserves|intros full].
    apply renderFrame_preserves.
  - apply preserves_bind; [apply _|apply fullArea_preserves|intros a].
    apply preserves_bind; [apply _|apply preserves_deref; apply _|intros s].
    apply renderWorkspace_loop_preserves.
Qed.

(** ** switchWorkspace *)

Lemma xreq_keeps_workspaces r : preserves same_workspaces (xreq r).
Proof.
  eapply preserves_weaken; [exact same_tree_workspaces|apply xreq_preserves].
Qed.

Lemma renderWorkspace_keeps_workspaces ws :
  preserves same_workspaces (renderWorkspace ws).
Proof.
  eapply preserves_weaken;
    [exact same_tree_workspaces|apply renderWorkspace_preserves].
Qed.

Lemma store_output_keeps_workspaces o out :
  preserves same_workspaces (store_output o out).
Proof. intros w a w' [= _ <-]. reflexivity. Qed.

Ltac keep_workspaces :=
  repeat first
    [ apply store_output_keeps_workspaces
    | apply renderWorkspace_keeps_workspaces
    | apply xreq_keeps_workspaces
    | apply preserves_ret; apply _
    | apply preserves_deref; apply _
    | apply preserves_nonnil; apply _
    | apply preserves_bind; [apply _| |intros ?]
    | match goal with
      | |- preserves _ (match ?e with _ => _ end) => destruct e
      end ].

(** Past ensureWorkspace, switchWorkspace does not touch the store of
    workspaces. *)
Lemma switchWorkspace_switch_keeps_workspaces ws :
  preserves same_workspaces (switchWorkspace_switch ws).
Proof.
  unfold switchWorkspace_switch, output_switchWorkspace, updateDesktopHints,
    removeFocus, setFocus.
  keep_workspaces.
Qed.

(** C6: switchWorkspace fails with the not-found error when no workspace
    carries the identifier, and with the "multiple outputs not supported"
    error when the workspace belongs to an output other than the current
    one; in both cases the world is left as it was.  When the workspace is
    assigned to no output, ensureWorkspace attaches it to the current
    output and switchWorkspace goes on from there; whatever the outcome of
    the later steps, the workspace stays attached. *)
Theorem switchWorkspace_ensure (id : Z) (w : World) :
  (unknown_id w id ->
   switchWorkspace id w
   = Ret (Some (ErrorfErr "failed to ensure workspace: %v"
                          (ErrorfInt "no workspace with ID %d" id))) w)
  /\
  (forall ws s o o0 os,
      resolves w id ws ->
      h_workspaces w !! ws = Some s -> ws_output s = Some o ->
      wm_outputs (wm w) = o0 :: os -> o <> o0 ->
      switchWorkspace id w
      = Ret (Some (ErrorfErr "failed to ensure workspace: %v"
                             (Errorf "multiple outputs not supported yet"))) w)
  /\
  (forall ws s o0 os out,
      resolves w id ws ->
      h_workspaces w !! ws = Some s -> ws_output s = None ->
      wm_outputs (wm w) = o0 :: os -> h_outputs w !! o0 = Some out ->
      ensureWorkspace id w = Ret (inl ws) (attached ws s o0 out w) /\
      switchWorkspace id w
      = switchWorkspace_switch ws (attached ws s o0 out w) /\
      forall r w',
        switchWorkspace id w = Ret r w' ->
        h_workspaces w' !! ws = Some (set_ws_output s (Some o0))).
Proof.
  split; [|split].
  - intros H. unfold switchWorkspace.
    now rewrite (bind_Ret _ _ _ _ _ (ensureWorkspace_unknown id w H)).
  - intros ws s o o0 os Hr Hl Ho Hos Hne. unfold switchWorkspace.
    rewrite (bind_Ret _ _ _ _ _
               (ensureWorkspace_owned id w ws s o o0 os Hr Hl Ho Hos)).
    apply Nat.eqb_neq in Hne. now rewrite Hne.
  - intros ws s o0 os out Hr Hl Ho Hos Hout.
    pose proof (ensureWorkspace_unassigned id w ws s o0 os out
                  Hr Hl Ho Hos Hout) as E.
    assert (Es : switchWorkspace id w
                 = switchWorkspace_switch ws (attached ws s o0 out w)).
    { unfold switchWorkspace. now rewrite (bind_Ret _ _ _ _ _ E). }
    split; [exact E|]. split; [exact Es|].
    intros r w' Hsw. rewrite Es in Hsw.
    apply switchWorkspace_switch_keeps_workspaces in Hsw.
    unfold same_workspaces in Hsw. rewrite Hsw. cbn.
    apply lookup_insert_eq.
Qed.

Lemma switchWorkspace_ensure_witness :
  switchWorkspace 7 (tiled_world srv_ok)
  = Ret (Some (ErrorfErr "failed to ensure workspace: %v"
                         (ErrorfInt "no workspace with ID %d" 7)))
        (tiled_world srv_ok)
  /\ switchWorkspace 2 (tiled_world srv_ok)
     = Ret (Some (ErrorfErr "failed to ensure workspace: %v"
                            (Errorf "multiple outputs not supported yet")))
           (tiled_world srv_ok)
  /\ ensureWorkspace 1 (tiled_world srv_ok)
     = Ret (inl 1%nat)
           (attached 1 (mkWorkspace 1 [] None) 0
              (mkOutput (mkGeom 0 0 1920 1080) [] [] [0%nat] (Some 0%nat))
              (tiled_world srv_ok)).
Proof.
  split; [|split].
  - apply (proj1 (switchWorkspace_ensure 7 (tiled_world srv_ok))).
    repeat constructor; eexists;
      (split; [vm_compute; reflexivity|discriminate]).
  - apply (proj1 (proj2 (switchWorkspace_ensure 2 (tiled_world srv_ok)))
             2%nat (mkWorkspace 2 [2%nat] (Some 1%nat)) 1%nat 0%nat []).
    + exists [0%nat; 1%nat], [], (mkWorkspace 2 [2%nat] (Some 1%nat)).
      split; [reflexivity|].
      split; [repeat constructor; eexists;
              (split; [vm_compute; reflexivity|discriminate])|].
      split; [vm_compute; reflexivity|reflexivity].
    + vm_compute. reflexivity.
    + reflexivity.
    + reflexivity.
    + discriminate.
  - apply (proj2 (proj2 (switchWorkspace_ensure 1 (tiled_world srv_ok)))
             1%nat (mkWorkspace 1 [] None) 0%nat []
             (mkOutput (mkGeom 0 0 1920 1080) [] [] [0%nat] (Some 0%nat))).
    + exists [0%nat], [2%nat], (mkWorkspace 1 [] None).
      split; [reflexivity|].
      split; [repeat constructor; eexists;
              (split; [vm_compute; reflexivity|discriminate])|].
      split; [vm_compute; reflexivity|reflexivity].
    + vm_compute. reflexivity.
    + reflexivity.
    + reflexivity.
    + vm_compute. reflexivity.
Defined.

(** ** moveWindow: vertical moves *)

Lemma find_index_first (x : ptr) (pred : ptr -> bool) l : forall i k,
  l !! i = Some x ->
  pred x = true ->
  Forall (fun y => pred y = false) (take i l) ->
  find_index pred l k = k + Z.of_nat i.
Proof.
  induction l as [|y l IH]; intros i k Hl Hx Hpre.
  - now rewrite lookup_nil in Hl.
  - destruct i as [|i]; cbn in *.
    + injection Hl as ->. rewrite Hx. lia.
    + apply Forall_cons in Hpre as [Hy Hpre]. rewrite Hy.
      rewrite (IH i (k + 1) Hl Hx Hpre). lia.
Qed.

Lemma index_nat (l : list ptr) (n : nat) p :
  l !! n = Some p -> forall w, index l (Z.of_nat n) w = Ret p w.
Proof.
  intros Hl w. unfold index.
  pose proof (lookup_lt_Some _ _ _ Hl) as Hlt.
  replace ((0 <=? Z.of_nat n) && (Z.of_nat n <? Z.of_nat (length l)))
    with true by (symmetry; apply andb_true_intro; split; lia).
  now rewrite Nat2Z.id, Hl.
Qed.

Lemma assign_nat (l : list ptr) (n : nat) x :
  (n < length l)%nat ->
  forall w, assign l (Z.of_nat n) x w = Ret (<[n := x]> l) w.
Proof.
  intros Hlt w. unfold assign.
  replace ((0 <=? Z.of_nat n) && (Z.of_nat n <? Z.of_nat (length l)))
    with true by (symmetry; apply andb_true_intro; split; lia).
  now rewrite Nat2Z.id.
Qed.

Lemma swap_cons (a : ptr) (l : list ptr) i j :
  swap (a :: l) (S i) (S j) = a :: swap l i j.
Proof. unfold swap. cbn. now destruct (l !! i), (l !! j). Qed.

Lemma swap_middle (pre : list ptr) x y post :
  swap (pre ++ x :: y :: post) (length pre) (S (length pre))
  = pre ++ y :: x :: post.
Proof.
  induction pre as [|a pre IH]; [reflexivity|].
  cbn [app length]. now rewrite swap_cons, IH.
Qed.

Lemma swap_adjacent (l : list ptr) i x y :
  l !! i = Some x -> l !! S i = Some y ->
  swap l i (S i) = take i l ++ y :: x :: drop (S (S i)) l /\
  l = take i l ++ x :: y :: drop (S (S i)) l.
Proof.
  intros Hx Hy.
  assert (El : l = take i l ++ x :: y :: drop (S (S i)) l).
  { rewrite <- (take_drop i l) at 1. f_equal.
    rewrite (drop_S _ _ _ Hx). f_equal. now rewrite (drop_S _ _ _ Hy). }
  split; [|exact El].
  pose proof (lookup_lt_Some _ _ _ Hx) as Hlt.
  assert (Hlen : length (take i l) = i) by (rewrite length_take; lia).
  pose proof (swap_middle (take i l) x y (drop (S (S i)) l)) as Hs.
  rewrite Hlen, <- El in Hs. exact Hs.
Qed.

Lemma swap_same (l : list ptr) i : swap l i i = l.
Proof.
  unfold swap. destruct (l !! i) eqn:E; [|reflexivity].
  now rewrite (list_insert_id _ _ _ E), (list_insert_id _ _ _ E).
Qed.

Lemma swap_length (l : list ptr) i j : length (swap l i j) = length l.
Proof.
  unfold swap. destruct (l !! i), (l !! j); try reflexivity.
  now rewrite !length_insert.
Qed.

Lemma swap_adjacent_Permutation (l : list ptr) i : swap l i (S i) ≡ₚ l.
Proof.
  destruct (l !! i) as [x|] eqn:Hx; [|unfold swap; now rewrite Hx].
  destruct (l !! S i) as [y|] eqn:Hy; [|unfold swap; now rewrite Hx, Hy].
  destruct (swap_adjacent l i x y Hx Hy) as [-> El].
  rewrite El at 3. apply Permutation_app_head. apply perm_swap.
Qed.

Lemma move_vertical_view_Permutation dir fs i :
  move_vertical_view dir fs i ≡ₚ fs.
Proof.
  destruct dir; cbn; try reflexivity.
  - destruct i as [|i]; cbn.
    + now rewrite swap_same.
    + rewrite Nat.sub_0_r. apply swap_adjacent_Permutation.
  - rewrite Nat.add_1_r. apply swap_adjacent_Permutation.
Qed.

Lemma move_vertical_view_boundary dir fs i :
  at_boundary dir fs i = true -> move_vertical_view dir fs i = fs.
Proof.
  destruct dir; cbn; try reflexivity.
  - intros ->%Nat.eqb_eq. cbn. apply swap_same.
  - intros Hle%Nat.leb_le. unfold swap.
    rewrite (proj2 (lookup_ge_None fs (i + 1)) Hle).
    now destruct (fs !! i).
Qed.

Lemma swap_lookup (l : list ptr) i j x y :
  i <> j -> l !! i = Some x -> l !! j = Some y ->
  swap l i j !! i = Some y /\ swap l i j !! j = Some x.
Proof.
  intros Hne Hx Hy. unfold swap. rewrite Hx, Hy.
  pose proof (lookup_lt_Some _ _ _ Hx). pose proof (lookup_lt_Some _ _ _ Hy).
  split.
  - apply list_lookup_insert_eq. now rewrite length_insert.
  - rewrite list_lookup_insert_ne by exact Hne.
    now apply list_lookup_insert_eq.
Qed.

Lemma findFrameIndex_position col c f i w :
  h_columns w !! col = Some c ->
  c_frames c !! i = Some f ->
  f ∉ take i (c_frames c) ->
  findFrameIndex col (fun frm => Nat.eqb f frm) w = Ret (Z.of_nat i) w.
Proof.
  intros Hc Hi Hfirst. unfold findFrameIndex.
  rewrite (bind_Ret _ _ _ _ _ (deref_Some h_columns _ _ _ Hc)).
  rewrite (find_index_first f _ _ i 0 Hi); [reflexivity|apply Nat.eqb_refl|].
  apply Forall_forall. intros y Hy. apply Nat.eqb_neq. intros ->. auto.
Qed.

(** C9: moving a frame up or down inside its column exchanges it with the
    neighbour at the adjacent index; when the frame is already first (for
    up) or last (for down) the call returns nil and leaves the world as it
    was; in every case the column keeps its length and its frames. *)
Theorem moveWindow_vertical (win : Window) (dir : MoveDirection) (w : World)
        (f : ptr) (fr : frame) (col : ptr) (c : column) (i : nat) :
  dir = MoveUp \/ dir = MoveDown ->
  findFrame (fun fr => window (f_client fr) =? win) w = Ret (Some f) w ->
  h_frames w !! f = Some fr ->
  f_col fr = Some col ->
  h_columns w !! col = Some c ->
  c_frames c !! i = Some f ->
  f ∉ take i (c_frames c) ->
  moveWindow win dir w
  = Ret None (if at_boundary dir (c_frames c) i then w
              else with_frames col c
                     (move_vertical_view dir (c_frames c) i) w)
  /\ (at_boundary dir (c_frames c) i = true ->
      move_vertical_view dir (c_frames c) i = c_frames c)
  /\ (at_boundary dir (c_frames c) i = false ->
      let j := match dir with MoveUp => (i - 1)%nat | _ => (i + 1)%nat end in
      move_vertical_view dir (c_frames c) i !! j = Some f /\
      move_vertical_view dir (c_frames c) i !! i = c_frames c !! j)
  /\ length (move_vertical_view dir (c_frames c) i) = length (c_frames c)
  /\ move_vertical_view dir (c_frames c) i ≡ₚ c_frames c.
Proof.
  intros Hdir Hfind Hf Hcol Hc Hi Hfirst.
  pose proof (lookup_lt_Some _ _ _ Hi) as Hlt.
  split; [|split; [|split; [|split]]].
  - unfold moveWindow.
    rewrite (bind_Ret _ _ _ _ _ Hfind).
    rewrite (bind_Ret _ _ _ _ _ (deref_Some h_frames _ _ _ Hf)).
    rewrite Hcol. cbn [nonnil]. rewrite (bind_Ret _ _ w col w eq_refl).
    rewrite (bind_Ret _ _ _ _ _ (deref_Some h_columns _ _ _ Hc)).
    pose proof (findFrameIndex_position col c f i w Hc Hi Hfirst) as Hidx.
    destruct Hdir as [-> | ->].
    + rewrite (bind_Ret _ _ _ _ _ Hidx).
      destruct i as [|j]; [reflexivity|].
      replace (0 <? Z.of_nat (S j)) with true
        by (symmetry; apply Z.ltb_lt; lia).
      replace (Z.of_nat (S j) - 1) with (Z.of_nat j) by lia.
      destruct (c_frames c !! j) as [other|] eqn:Hj;
        [|apply lookup_ge_None in Hj; lia].
      assert (Es : (let! c0 := deref h_columns col in
                    let! other0 := index (c_frames c0) (Z.of_nat j) in
                    let! fs := assign (c_frames c0) (Z.of_nat j) f in
                    let! fs0 := assign fs (Z.of_nat (S j)) other0 in
                    store_column col (set_c_frames c0 fs0)) w
                   = Ret tt (with_frames col c
                               (swap (c_frames c) j (S j)) w)).
      { rewrite (bind_Ret _ _ _ _ _ (deref_Some h_columns _ _ _ Hc)).
        rewrite (bind_Ret _ _ _ _ _ (index_nat _ _ _ Hj w)).
        rewrite (bind_Ret _ _ _ _ _ (assign_nat (c_frames c) j f ltac:(lia) w)).
        rewrite (bind_Ret _ _ _ _ _
                   (assign_nat (<[j:=f]> (c_frames c)) (S j) other
                               ltac:(rewrite length_insert; lia) w)).
        unfold store_column, modify, with_frames, swap.
        rewrite Hj, Hi.
        rewrite (list_insert_insert_ne _ j (S j)) by lia. reflexivity. }
      rewrite (bind_Ret _ _ _ _ _ Es). cbn. now rewrite Nat.sub_0_r.
    + rewrite (bind_Ret _ _ _ _ _ Hidx).
      rewrite (bind_Ret _ _ _ _ _ (deref_Some h_columns _ _ _ Hc)).
      unfold len, at_boundary, move_vertical_view.
      destruct (Nat.leb_spec (length (c_frames c)) (i + 1)) as [Hle|Hgt].
      * replace (Z.of_nat i <? Z.of_nat (length (c_frames c)) - 1)
          with false by (symmetry; apply Z.ltb_ge; lia).
        reflexivity.
      * replace (Z.of_nat i <? Z.of_nat (length (c_frames c)) - 1)
          with true by (symmetry; apply Z.ltb_lt; lia).
        replace (Z.of_nat i + 1) with (Z.of_nat (i + 1)) by lia.
        destruct (c_frames c !! (i + 1)%nat) as [other|] eqn:Hj;
          [|apply lookup_ge_None in Hj; lia].
        unfold bind at 1.
        rewrite (bind_Ret _ _ _ _ _ (index_nat _ _ _ Hj w)).
        rewrite (bind_Ret _ _ _ _ _
                   (assign_nat (c_frames c) (i + 1) f ltac:(lia) w)).
        rewrite (bind_Ret _ _ _ _ _
                   (assign_nat (<[(i + 1)%nat:=f]> (c_frames c)) i other
                               ltac:(rewrite length_insert; lia) w)).
        unfold bind, store_column, modify, with_frames, swap, ret.
        now rewrite Hj, Hi.
  - apply move_vertical_view_boundary.
  - intros Hb j.
    destruct Hdir as [-> | ->]; cbn in Hb; subst j; cbn [move_vertical_view].
    + apply Nat.eqb_neq in Hb.
      destruct (c_frames c !! (i - 1)%nat) as [other|] eqn:Hj;
        [|apply lookup_ge_None in Hj; lia].
      destruct (swap_lookup (c_frames c) (i - 1) i other f ltac:(lia) Hj Hi)
        as [H1 H2].
      now rewrite H1, H2.
    + apply Nat.leb_gt in Hb.
      destruct (c_frames c !! (i + 1)%nat) as [other|] eqn:Hj;
        [|apply lookup_ge_None in Hj; lia].
      destruct (swap_lookup (c_frames c) i (i + 1) f other ltac:(lia) Hi Hj)
        as [H1 H2].
      now rewrite H1, H2.
  - destruct Hdir as [-> | ->]; apply swap_length.
  - apply move_vertical_view_Permutation.
Qed.

Lemma moveWindow_vertical_witness :
  moveWindow 302 MoveUp (tiled_world srv_ok)
  = Ret None (with_frames 0 (mkColumn (Some 0%nat) [1%nat; 2%nat] 960)
                          [2%nat; 1%nat] (tiled_world srv_ok)).
Proof.
  refine (proj1 (moveWindow_vertical 302 MoveUp (tiled_world srv_ok) 2
                   (mkFrame (Some 0%nat) 202 (mkClient 302) 480 winTypeNormal
                            false geom0 None)
                   0 (mkColumn (Some 0%nat) [1%nat; 2%nat] 960) 1
                   _ _ _ _ _ _ _)).
  - left. reflexivity.
  - vm_compute. reflexivity.
  - vm_compute. reflexivity.
  - reflexivity.
  - vm_compute. reflexivity.
  - reflexivity.
  - cbn. apply (bool_decide_unpack _). vm_compute. exact I.
Defined.

(** ** Views of a workspace *)

Lemma ws_view_Some w ws cols :
  ws_view w ws = Some cols <->
  exists s, h_workspaces w !! ws = Some s /\
            columns_view (h_columns w) (ws_columns s) cols.
Proof.
  unfold ws_view, columns_view. split.
  - destruct (h_workspaces w !! ws) as [s|]; [|discriminate]. cbn.
    intros H. exists s. split; [reflexivity|]. now apply mapM_Some.
  - intros (s & -> & H). cbn. now apply mapM_Some.
Qed.

Lemma columns_view_length h ptrs cols :
  columns_view h ptrs cols -> length ptrs = length cols.
Proof. apply Forall2_length. Qed.

Lemma columns_view_lookup h ptrs cols i p :
  columns_view h ptrs cols -> ptrs !! i = Some p ->
  exists c, h !! p = Some c /\ cols !! i = Some (c_frames c).
Proof.
  intros Hv Hp.
  destruct (Forall2_lookup_l _ _ _ _ _ Hv Hp) as (fs & Hfs & E).
  destruct (h !! p) as [c|]; [|discriminate].
  exists c. split; [reflexivity|]. cbn in E. congruence.
Qed.

Lemma columns_view_update h ptrs cols i col c' :
  columns_view h ptrs cols -> NoDup ptrs -> ptrs !! i = Some col ->
  columns_view (<[col := c']> h) ptrs (<[i := c_frames c']> cols).
Proof.
  intros Hv Hnd Hi. pose proof (columns_view_length _ _ _ Hv) as Hlen.
  apply Forall2_same_length_lookup_2.
  - now rewrite length_insert.
  - intros k p fs Hp Hfs. destruct (decide (k = i)) as [->|Hk].
    + assert (p = col) as -> by congruence.
      rewrite lookup_insert_eq. cbn.
      rewrite list_lookup_insert_eq in Hfs; [congruence|].
      apply lookup_lt_Some in Hi. lia.
    + rewrite list_lookup_insert_ne in Hfs by auto.
      rewrite lookup_insert_ne.
      * destruct (Forall2_lookup_l _ _ _ _ _ Hv Hp) as (fs' & Hfs' & E).
        congruence.
      * intros <-. apply Hk. symmetry.
        eapply NoDup_lookup; eauto.
Qed.

Lemma columns_view_fresh h ptrs cols new c :
  columns_view h ptrs cols -> h !! new = None ->
  columns_view (<[new := c]> h) ptrs cols.
Proof.
  intros Hv Hnew. unfold columns_view in *.
  eapply Forall2_impl; [exact Hv|]. intros p fs Hp. cbn in Hp.
  rewrite lookup_insert_ne; [exact Hp|].
  intros <-. now rewrite Hnew in Hp.
Qed.

Lemma columns_view_valid h ptrs cols p :
  columns_view h ptrs cols -> p ∈ ptrs -> is_Some (h !! p).
Proof.
  intros Hv Hp. apply list_elem_of_lookup in Hp as [i Hi].
  destruct (columns_view_lookup _ _ _ _ _ Hv Hi) as (c & Hc & _). eauto.
Qed.

Lemma NoDup_take_notin (l : list ptr) i x :
  NoDup l -> l !! i = Some x -> x ∉ take i l.
Proof.
  intros Hnd Hi Hin. apply list_elem_of_lookup in Hin as [j Hj].
  pose proof (lookup_lt_Some _ _ _ Hj) as Hlt. rewrite length_take in Hlt.
  rewrite lookup_take_lt in Hj by lia.
  pose proof (NoDup_lookup _ _ _ _ Hnd Hi Hj). lia.
Qed.

Lemma remove_first_delete (l : list ptr) : forall i x,
  l !! i = Some x -> x ∉ take i l -> remove_first x l = delete i l.
Proof.
  induction l as [|y l IH]; intros i x Hi Hn.
  - now rewrite lookup_nil in Hi.
  - destruct i as [|i]; cbn in *.
    + injection Hi as ->. now rewrite Nat.eqb_refl.
    + apply not_elem_of_cons in Hn as [Hne Hn].
      apply not_eq_sym, Nat.eqb_neq in Hne. rewrite Hne.
      now rewrite (IH i x Hi Hn).
Qed.

Lemma findColumnIndex_position ws s col i w :
  h_workspaces w !! ws = Some s ->
  NoDup (ws_columns s) ->
  ws_columns s !! i = Some col ->
  findColumnIndex ws (fun c => Nat.eqb c col) w = Ret (Z.of_nat i) w.
Proof.
  intros Hs Hnd Hi. unfold findColumnIndex.
  rewrite (bind_Ret _ _ _ _ _ (deref_Some h_workspaces _ _ _ Hs)).
  rewrite (find_index_first col _ _ i 0 Hi); [reflexivity|apply Nat.eqb_refl|].
  apply Forall_forall. intros y Hy. apply Nat.eqb_neq. intros ->.
  now apply (NoDup_take_notin _ _ _ Hnd Hi).
Qed.

(** ** The tree helpers, step by step *)

Lemma column_deleteFrame_spec col f w c :
  h_columns w !! col = Some c ->
  column_deleteFrame col f w
  = Ret tt (with_frames col c (remove_first f (c_frames c)) w).
Proof.
  intros Hc. unfold column_deleteFrame.
  now rewrite (bind_Ret _ _ _ _ _ (deref_Some h_columns _ _ _ Hc)).
Qed.

Lemma column_addFrame_spec col f after w c fr :
  h_columns w !! col = Some c ->
  h_frames w !! f = Some fr ->
  column_addFrame col f after w
  = Ret tt (set_frames (<[f := set_col fr (Some col)]> (h_frames w))
              (with_frames col c (c_frames c ++ [f]) w)).
Proof.
  intros Hc Hf. unfold column_addFrame.
  rewrite (bind_Ret _ _ _ _ _ (deref_Some h_columns _ _ _ Hc)).
  now rewrite (bind_Ret _ _ _ _ _ (deref_Some h_frames _ _ _ Hf)).
Qed.

Lemma createColumn_spec ws start w s :
  h_workspaces w !! ws = Some s ->
  createColumn ws start w
  = Ret (fresh (dom (h_columns w)))
        (set_workspaces
           (<[ws := set_ws_columns s
                      (if start then fresh (dom (h_columns w)) :: ws_columns s
                       else ws_columns s ++ [fresh (dom (h_columns w))])]>
              (h_workspaces w))
           (set_columns
              (<[fresh (dom (h_columns w))
                 := mkColumn (Some ws) [] (ColumnWidth (wm_config (wm w)))]>
                 (h_columns w)) w)).
Proof.
  intros Hs. unfold createColumn.
  now rewrite (bind_Ret _ _ _ _ _ (deref_Some h_workspaces _ _ _ Hs)).
Qed.

Lemma deleteColumn_spec ws col w s :
  h_workspaces w !! ws = Some s ->
  deleteColumn ws col w
  = Ret tt (set_workspaces
              (<[ws := set_ws_columns s (remove_first col (ws_columns s))]>
                 (h_workspaces w)) w).
Proof.
  intros Hs. unfold deleteColumn.
  now rewrite (bind_Ret _ _ _ _ _ (deref_Some h_workspaces _ _ _ Hs)).
Qed.

Lemma fresh_column (h : gmap ptr column) : h !! fresh (dom h) = None.
Proof. apply not_elem_of_dom. apply is_fresh. Qed.

(** The end of a horizontal move: the column the frame left is deleted
    from the workspace when it is empty. *)
Lemma moveWindow_cleanup ws col w s c1 cols i :
  h_workspaces w !! ws = Some s ->
  columns_view (h_columns w) (ws_columns s) cols ->
  NoDup (ws_columns s) ->
  ws_columns s !! i = Some col ->
  h_columns w !! col = Some c1 ->
  exists w',
    (let! oc := deref h_columns col in
     let! _ := (if len (c_frames oc) =? 0 then deleteColumn ws col
                else ret tt) in
     ret (@None error)) w = Ret None w' /\
    ws_view w' ws = Some (match c_frames c1 with
                          | [] => delete i cols
                          | _ => cols
                          end).
Proof.
  intros Hs Hv Hnd Hi Hc.
  rewrite (bind_Ret _ _ _ _ _ (deref_Some h_columns _ _ _ Hc)).
  destruct (c_frames c1) as [|x rest] eqn:Hfs.
  - cbn [len length Z.of_nat Z.eqb].
    rewrite (bind_Ret _ _ _ _ _ (deleteColumn_spec ws col w s Hs)).
    eexists. split; [reflexivity|].
    apply ws_view_Some. cbn. rewrite lookup_insert_eq.
    eexists. split; [reflexivity|]. cbn.
    rewrite (remove_first_delete _ _ _ Hi (NoDup_take_notin _ _ _ Hnd Hi)).
    now apply Forall2_delete.
  - replace (len (x :: rest) =? 0) with false
      by (symmetry; apply Z.eqb_neq; unfold len; cbn; lia).
    exists w. split; [reflexivity|].
    apply ws_view_Some. eauto.
Qed.

(** The frame joins an existing column of the workspace. *)
Lemma moveWindow_join ws s w cols i j col adj c1 f fr :
  h_workspaces w !! ws = Some s ->
  columns_view (h_columns w) (ws_columns s) cols ->
  NoDup (ws_columns s) ->
  ws_columns s !! i = Some col ->
  ws_columns s !! j = Some adj ->
  i <> j ->
  h_columns w !! col = Some c1 ->
  h_frames w !! f = Some fr ->
  exists w',
    column_addFrame adj f None w = Ret tt w' /\
    h_workspaces w' !! ws = Some s /\
    columns_view (h_columns w') (ws_columns s)
                 (<[j := cols !!! j ++ [f]]> cols) /\
    h_columns w' !! col = Some c1.
Proof.
  intros Hs Hv Hnd Hi Hj Hne Hc Hf.
  destruct (columns_view_lookup _ _ _ _ _ Hv Hj) as (cadj & Hadj & Hcj).
  eexists. split; [apply (column_addFrame_spec adj f None w cadj fr Hadj Hf)|].
  cbn. split; [exact Hs|]. split.
  - rewrite (list_lookup_total_correct _ _ _ Hcj).
    apply (columns_view_update _ _ _ j adj
             (set_c_frames cadj (c_frames cadj ++ [f])) Hv Hnd Hj).
  - rewrite lookup_insert_ne; [exact Hc|].
    intros ->. apply Hne. eapply NoDup_lookup; eauto.
Qed.

(** The frame becomes the only member of a new column at an edge of the
    workspace. *)
Lemma moveWindow_new_column ws s w cols i col c1 f fr (start : bool) :
  h_workspaces w !! ws = Some s ->
  columns_view (h_columns w) (ws_columns s) cols ->
  NoDup (ws_columns s) ->
  ws_columns s !! i = Some col ->
  h_columns w !! col = Some c1 ->
  h_frames w !! f = Some fr ->
  exists w' s',
    (let! new := createColumn ws start in column_addFrame new f None) w
    = Ret tt w' /\
    h_workspaces w' !! ws = Some s' /\
    NoDup (ws_columns s') /\
    ws_columns s' !! (if start then S i else i) = Some col /\
    columns_view (h_columns w') (ws_columns s')
                 (if start then [f] :: cols else cols ++ [[f]]) /\
    h_columns w' !! col = Some c1.
Proof.
  intros Hs Hv Hnd Hi Hc Hf.
  set (new := fresh (dom (h_columns w))).
  assert (Hnew : h_columns w !! new = None) by apply fresh_column.
  assert (Hnotin : new ∉ ws_columns s).
  { intros Hin. destruct (columns_view_valid _ _ _ _ Hv Hin) as [x Hx].
    congruence. }
  assert (Hcol : col <> new) by congruence.
  rewrite (bind_Ret _ _ _ _ _ (createColumn_spec ws start w s Hs)).
  fold new.
  eexists _, _. split.
  { apply column_addFrame_spec with
      (c := mkColumn (Some ws) [] (ColumnWidth (wm_config (wm w)))).
    - cbn. apply lookup_insert_eq.
    - cbn. exact Hf. }
  cbn. rewrite lookup_insert_eq, insert_insert_eq.
  split; [reflexivity|]. cbn.
  assert (Hv' : columns_view
                  (<[new := set_c_frames
                              (mkColumn (Some ws) []
                                        (ColumnWidth (wm_config (wm w))))
                              [f]]> (h_columns w)) (ws_columns s) cols)
    by now apply columns_view_fresh.
  destruct start.
  - split; [now apply NoDup_cons|]. split; [exact Hi|]. split.
    + constructor; [|exact Hv']. now rewrite lookup_insert_eq.
    + now rewrite lookup_insert_ne by auto.
  - split; [apply NoDup_app; repeat split;
            [exact Hnd|intros x Hx ->%list_elem_of_singleton; auto
            |apply NoDup_singleton]|].
    split; [now apply lookup_app_l_Some|]. split.
    + apply Forall2_app; [exact Hv'|].
      constructor; [|constructor]. now rewrite lookup_insert_eq.
    + now rewrite lookup_insert_ne by auto.
Qed.

(** ** moveWindow: horizontal moves *)

Lemma Forall_delete_hole {A} (P : A -> Prop) (l : list A) i :
  (forall k x, k <> i -> l !! k = Some x -> P x) -> Forall P (delete i l).
Proof.
  intros H. apply Forall_lookup. intros k x Hk.
  rewrite list_lookup_delete in Hk. case_decide.
  - apply (H k); [lia|exact Hk].
  - apply (H (S k)); [lia|exact Hk].
Qed.

Lemma Forall_but_one {A} (P : A -> Prop) (l : list A) i (rest : A) :
  (forall k x, k <> i -> l !! k = Some x -> P x) ->
  l !! i = Some rest ->
  forall (dropped : bool),
    (dropped = false -> P rest) ->
    Forall P (if dropped then delete i l else l).
Proof.
  intros H Hi [|] Hrest.
  - now apply Forall_delete_hole.
  - apply Forall_lookup. intros k x Hk. destruct (decide (k = i)) as [->|Hne].
    + rewrite Hi in Hk. injection Hk as <-. auto.
    + eauto.
Qed.

Lemma snoc_nonempty (l : list ptr) f : l ++ [f] <> [].
Proof. now destruct l. Qed.

(** A horizontal move leaves no empty column behind. *)
Lemma move_horizontal_view_nonempty dir cols i f :
  (i < length cols)%nat ->
  Forall (fun fs => fs <> []) cols ->
  Forall (fun fs => fs <> []) (move_horizontal_view dir cols i f).
Proof.
  intros Hlt Hne.
  assert (Hcols : forall k x, cols !! k = Some x -> x <> [])
    by (now apply Forall_lookup).
  destruct dir; cbn [move_horizontal_view]; try exact Hne.
  - unfold move_left_view.
    set (rest := remove_first f (cols !!! i)).
    set (cols2 := match i with
                  | O => [f] :: <[i:=rest]> cols
                  | S j => <[j:=cols !!! j ++ [f]]> (<[i:=rest]> cols)
                  end).
    set (i' := match i with O => 1%nat | S _ => i end).
    assert (Hall : Forall (fun fs => fs <> [])
                          (if bool_decide (rest = []) then delete i' cols2
                           else cols2)).
    { apply Forall_but_one with rest.
      - intros k x Hk Hx. subst cols2 i'. destruct i as [|j].
        + rewrite lookup_cons in Hx.
          destruct k as [|k]; [now injection Hx as <-|].
          rewrite list_lookup_insert_ne in Hx by lia. eauto.
        + apply list_lookup_insert_Some in Hx as [(_ & <- & _)|(_ & Hx)];
            [apply snoc_nonempty|].
          rewrite list_lookup_insert_ne in Hx by lia. eauto.
      - subst cols2 i'. destruct i as [|j]; cbn.
        + now apply list_lookup_insert_eq.
        + rewrite list_lookup_insert_ne by lia.
          now apply list_lookup_insert_eq.
      - now intros ?%bool_decide_eq_false. }
    destruct rest; [rewrite bool_decide_eq_true_2 in Hall by reflexivity
                   |rewrite bool_decide_eq_false_2 in Hall by discriminate];
      exact Hall.
  - unfold move_right_view.
    set (rest := remove_first f (cols !!! i)).
    set (cols2 := if Nat.eqb (S i) (length cols)
                  then <[i:=rest]> cols ++ [[f]]
                  else <[S i:=cols !!! S i ++ [f]]> (<[i:=rest]> cols)).
    assert (Hall : Forall (fun fs => fs <> [])
                          (if bool_decide (rest = []) then delete i cols2
                           else cols2)).
    { apply Forall_but_one with rest.
      - intros k x Hk Hx. subst cols2.
        destruct (Nat.eqb (S i) (length cols)).
        + apply lookup_app_Some in Hx as [Hx|[_ Hx]].
          * rewrite list_lookup_insert_ne in Hx by lia. eauto.
          * apply list_lookup_singleton_Some in Hx as [_ <-]. discriminate.
        + apply list_lookup_insert_Some in Hx as [(_ & <- & _)|(_ & Hx)];
            [apply snoc_nonempty|].
          rewrite list_lookup_insert_ne in Hx by lia. eauto.
      - subst cols2. destruct (Nat.eqb (S i) (length cols)).
        + rewrite lookup_app_l by (rewrite length_insert; lia).
          now apply list_lookup_insert_eq.
        + rewrite list_lookup_insert_ne by lia.
          now apply list_lookup_insert_eq.
      - now intros ?%bool_decide_eq_false. }
    destruct rest; [rewrite bool_decide_eq_true_2 in Hall by reflexivity
                   |rewrite bool_decide_eq_false_2 in Hall by discriminate];
      exact Hall.
Qed.

(** C5: a horizontal move takes the frame out of its column; out of the
    leftmost column to the left (the rightmost to the right) a new column
    is created at that edge with the frame as its only member, otherwise
    the frame is inserted into the adjacent column; the column the frame
    left is deleted from the workspace when it is left with no frame, so
    that a workspace without empty columns has none after the move. *)
Theorem moveWindow_horizontal (win : Window) (dir : MoveDirection)
        (w : World) (f : ptr) (fr : frame) (col : ptr) (c : column)
        (ws : ptr) (s : workspace) (cols : list (list ptr)) (i : nat) :
  dir = MoveLeft \/ dir = MoveRight ->
  findFrame (fun fr => window (f_client fr) =? win) w = Ret (Some f) w ->
  h_frames w !! f = Some fr ->
  f_col fr = Some col ->
  h_columns w !! col = Some c ->
  c_ws c = Some ws ->
  h_workspaces w !! ws = Some s ->
  NoDup (ws_columns s) ->
  ws_columns s !! i = Some col ->
  ws_view w ws = Some cols ->
  exists w',
    moveWindow win dir w = Ret None w' /\
    ws_view w' ws = Some (move_horizontal_view dir cols i f) /\
    (Forall (fun fs => fs <> []) cols ->
     Forall (fun fs => fs <> []) (move_horizontal_view dir cols i f)).
Proof.
  intros Hdir Hfind Hf Hfcol Hc Hcws Hs Hnd Hi Hview.
  apply ws_view_Some in Hview as (s0 & Hs0 & Hv).
  assert (s0 = s) as -> by congruence. clear Hs0.
  pose proof (columns_view_length _ _ _ Hv) as Hlen.
  pose proof (lookup_lt_Some _ _ _ Hi) as Hlt.
  destruct (columns_view_lookup _ _ _ _ _ Hv Hi) as (c0 & Hc0 & Hci).
  assert (c0 = c) as -> by congruence. clear Hc0.
  pose proof (list_lookup_total_correct _ _ _ Hci) as Hci'.
  (* the world once the frame has left its column *)
  set (rest := remove_first f (c_frames c)).
  set (w1 := with_frames col c rest w).
  assert (Hs1 : h_workspaces w1 !! ws = Some s) by exact Hs.
  assert (Hv1 : columns_view (h_columns w1) (ws_columns s) (<[i:=rest]> cols))
    by exact (columns_view_update _ _ _ i col (set_c_frames c rest) Hv Hnd Hi).
  assert (Hc1 : h_columns w1 !! col = Some (set_c_frames c rest))
    by apply lookup_insert_eq.
  assert (Hf1 : h_frames w1 !! f = Some fr) by exact Hf.
  cut (exists w',
          moveWindow win dir w = Ret None w' /\
          ws_view w' ws = Some (move_horizontal_view dir cols i f)).
  { intros (w' & E & V). exists w'. split; [exact E|]. split; [exact V|].
    apply move_horizontal_view_nonempty. lia. }
  unfold moveWindow.
  rewrite (bind_Ret _ _ _ _ _ Hfind).
  rewrite (bind_Ret _ _ _ _ _ (deref_Some h_frames _ _ _ Hf)).
  rewrite Hfcol. cbn [nonnil]. rewrite (bind_Ret _ _ w col w eq_refl).
  rewrite (bind_Ret _ _ _ _ _ (deref_Some h_columns _ _ _ Hc)).
  rewrite Hcws.
  destruct Hdir as [-> | ->]; cbn [nonnil move_horizontal_view];
    rewrite (bind_Ret _ _ w ws w eq_refl);
    rewrite (bind_Ret _ _ _ _ _
               (findColumnIndex_position ws s col i w Hs Hnd Hi));
    rewrite (bind_Ret _ _ _ _ _ (column_deleteFrame_spec col f w c Hc));
    fold rest; fold w1.
  - (* left *)
    unfold move_left_view. rewrite Hci'. fold rest.
    destruct i as [|j].
    + cbn [Z.of_nat Z.eqb].
      destruct (moveWindow_new_column ws s w1 _ 0 col _ f fr true
                  Hs1 Hv1 Hnd Hi Hc1 Hf1)
        as (w2 & s2 & E2 & Hs2 & Hnd2 & Hi2 & Hv2 & Hc2).
      rewrite (bind_Ret _ _ _ _ _ E2).
      destruct (moveWindow_cleanup ws col w2 s2 _ _ 1 Hs2 Hv2 Hnd2 Hi2 Hc2)
        as (w3 & E3 & V3).
      exists w3. split; [exact E3|exact V3].
    + replace (Z.of_nat (S j) =? 0) with false
        by (symmetry; apply Z.eqb_neq; lia).
      replace (Z.of_nat (S j) - 1) with (Z.of_nat j) by lia.
      destruct (ws_columns s !! j) as [adj|] eqn:Hj;
        [|apply lookup_ge_None in Hj; lia].
      destruct (moveWindow_join ws s w1 _ (S j) j col adj _ f fr
                  Hs1 Hv1 Hnd Hi Hj ltac:(lia) Hc1 Hf1)
        as (w2 & E2 & Hs2 & Hv2 & Hc2).
      assert (Ea : (let! s' := deref h_workspaces ws in
                    let! col' := index (ws_columns s') (Z.of_nat j) in
                    column_addFrame col' f None) w1 = Ret tt w2).
      { rewrite (bind_Ret _ _ _ _ _ (deref_Some h_workspaces _ _ _ Hs1)).
        now rewrite (bind_Ret _ _ _ _ _ (index_nat _ _ _ Hj w1)). }
      rewrite (bind_Ret _ _ _ _ _ Ea).
      rewrite list_lookup_total_insert_ne in Hv2 by lia.
      destruct (moveWindow_cleanup ws col w2 s _ _ (S j) Hs2 Hv2 Hnd Hi Hc2)
        as (w3 & E3 & V3).
      exists w3. split; [exact E3|exact V3].
  - (* right *)
    unfold move_right_view. rewrite Hci'. fold rest.
    rewrite (bind_Ret _ _ _ _ _ (deref_Some h_workspaces _ _ _ Hs1)).
    unfold len. rewrite <- Hlen.
    destruct (Nat.eqb_spec (S i) (length (ws_columns s))) as [Hlast|Hmid].
    + replace (Z.of_nat i =? Z.of_nat (length (ws_columns s)) - 1) with true
        by (symmetry; apply Z.eqb_eq; lia).
      destruct (moveWindow_new_column ws s w1 _ i col _ f fr false
                  Hs1 Hv1 Hnd Hi Hc1 Hf1)
        as (w2 & s2 & E2 & Hs2 & Hnd2 & Hi2 & Hv2 & Hc2).
      rewrite (bind_Ret _ _ _ _ _ E2).
      destruct (moveWindow_cleanup ws col w2 s2 _ _ i Hs2 Hv2 Hnd2 Hi2 Hc2)
        as (w3 & E3 & V3).
      exists w3. split; [exact E3|exact V3].
    + replace (Z.of_nat i =? Z.of_nat (length (ws_columns s)) - 1) with false
        by (symmetry; apply Z.eqb_neq; lia).
      replace (Z.of_nat i + 1) with (Z.of_nat (S i)) by lia.
      destruct (ws_columns s !! S i) as [adj|] eqn:Hj;
        [|apply lookup_ge_None in Hj; lia].
      destruct (moveWindow_join ws s w1 _ i (S i) col adj _ f fr
                  Hs1 Hv1 Hnd Hi Hj ltac:(lia) Hc1 Hf1)
        as (w2 & E2 & Hs2 & Hv2 & Hc2).
      assert (Ea : (let! col' := index (ws_columns s) (Z.of_nat (S i)) in
                    column_addFrame col' f None) w1 = Ret tt w2).
      { now rewrite (bind_Ret _ _ _ _ _ (index_nat _ _ _ Hj w1)). }
      rewrite (bind_Ret _ _ _ _ _ Ea).
      rewrite list_lookup_total_insert_ne in Hv2 by lia.
      destruct (moveWindow_cleanup ws col w2 s _ _ i Hs2 Hv2 Hnd Hi Hc2)
        as (w3 & E3 & V3).
      exists w3. split; [exact E3|exact V3].
Qed.

Lemma moveWindow_horizontal_witness :
  exists w',
    moveWindow 303 MoveLeft (tiled_world srv_ok) = Ret None w' /\
    ws_view w' 0 = Some [[1%nat; 2%nat; 3%nat]] /\
    (Forall (fun fs => fs <> []) [[1%nat; 2%nat]; [3%nat]] ->
     Forall (fun fs => fs <> []) [[1%nat; 2%nat; 3%nat]]).
Proof.
  refine (moveWindow_horizontal 303 MoveLeft (tiled_world srv_ok) 3
            (mkFrame (Some 1%nat) 203 (mkClient 303) 1080 winTypeNormal
                     true geom0 None)
            1 (mkColumn (Some 0%nat) [3%nat] 960)
            0 (mkWorkspace 0 [0%nat; 1%nat] (Some 0%nat))
            [[1%nat; 2%nat]; [3%nat]] 1 _ _ _ _ _ _ _ _ _ _).
  - left. reflexivity.
  - vm_compute. reflexivity.
  - vm_compute. reflexivity.
  - reflexivity.
  - vm_compute. reflexivity.
  - reflexivity.
  - vm_compute. reflexivity.
  - cbn. apply (bool_decide_unpack _). vm_compute. exact I.
  - reflexivity.
  - vm_compute. reflexivity.
Defined.

(** * Further properties of the render engine *)

(** ** renderFrame on a mapped frame *)

Lemma renderFrame_run f geom w fr :
  h_frames w !! f = Some fr ->
  f_mapped fr = true ->
  renderFrame f geom w
  = (let w0 := set_frames (<[f := set_geom fr geom]> (h_frames w)) w in
     let l1 := xlog w ++ [ConfigureWindow (f_parent fr)
                            (to_uint16 configureMask)
                            [geomX geom; geomY geom; geomW geom; geomH geom]] in
     let l2 := l1 ++ [ConfigureWindow (window (f_client fr))
                        (to_uint16 configureMask)
                        [0; 0; geomW geom; geomH geom]] in
     let l3 := l2 ++ [SendEvent false (window (f_client fr))
                        EventMaskStructureNotify
                        (mkConfigureNotify
                           (window (f_client fr)) (window (f_client fr))
                           (to_int16 (geomX geom)) (to_int16 (geomY geom))
                           (to_uint16 (geomW geom)) (to_uint16 (geomH geom))
                           0 0 true)] in
     match xsrv w l1 with
     | Some err => Ret (Some err) (set_xlog l1 w0)
     | None =>
       match xsrv w l2 with
       | Some err => Ret (Some err) (set_xlog l2 w0)
       | None =>
         match xsrv w l3 with
         | Some err => Ret (Some err) (set_xlog l3 w0)
         | None => Ret None (set_xlog l3 w0)
         end
       end
     end).
Proof.
  intros Hf Hm. unfold renderFrame.
  rewrite (bind_Ret _ _ _ _ _ (deref_Some h_frames _ _ _ Hf)).
  rewrite Hm. cbn [negb].
  unfold bind, store_frame, modify, xreq, ret. cbn.
  repeat (match goal with
          | |- context [match xsrv w ?l with _ => _ end] =>
            destruct (xsrv w l)
          end; cbn);
    reflexivity.
Qed.

(** X1: for a mapped frame renderFrame stores the rectangle first, then
    sends its three requests in order and stops at the first one the
    server rejects: the requests made are the first [n] of the three, all
    but the last were accepted, the result is the reply to the last one,
    and stopping early means an error is returned.  The rectangle is
    stored even when a request fails. *)
Theorem renderFrame_stops_at_first_error (f : ptr) (geom : Geom) (w : World)
        (fr : frame) :
  h_frames w !! f = Some fr ->
  f_mapped fr = true ->
  exists n e w',
    renderFrame f geom w = Ret e w' /\
    (1 <= n <= 3)%nat /\
    xlog w' = xlog w ++ take n (frame_requests fr geom) /\
    e = xsrv w (xlog w') /\
    (forall k, (0 < k < n)%nat ->
               xsrv w (xlog w ++ take k (frame_requests fr geom)) = None) /\
    ((n < 3)%nat -> e <> None) /\
    h_frames w' = <[f := set_geom fr geom]> (h_frames w).
Proof.
  intros Hf Hm. rewrite (renderFrame_run f geom w fr Hf Hm). cbv zeta.
  change (to_uint16 configureMask) with 15.
  change EventMaskStructureNotify with 131072.
  rewrite <- !app_assoc. cbn [app].
  destruct (xsrv w (xlog w ++ [_])) as [e1|] eqn:E1.
  { exists 1%nat. eexists _, _. split; [reflexivity|]. cbn.
    repeat split; try lia; try congruence. }
  destruct (xsrv w (xlog w ++ [_; _])) as [e2|] eqn:E2.
  { exists 2%nat. eexists _, _. split; [reflexivity|]. cbn.
    repeat split; try lia; try congruence.
    intros k Hk. assert (k = 1%nat) as -> by lia. exact E1. }
  exists 3%nat.
  destruct (xsrv w (xlog w ++ [_; _; _])) as [e3|] eqn:E3;
    (eexists _, _; split; [reflexivity|]; cbn;
     split; [lia|]; split; [reflexivity|]; split; [congruence|];
     split; [|split; [lia|reflexivity]];
     intros k Hk; assert (k = 1 \/ k = 2)%nat as [-> | ->] by lia;
     [exact E1|exact E2]).
Qed.

Lemma renderFrame_stops_at_first_error_witness :
  exists n e w',
    renderFrame 10 (mkGeom 0 0 1920 30) (demo_world srv_reject_100)
    = Ret e w' /\
    (1 <= n <= 3)%nat /\
    xlog w' = take n (frame_requests
                        (mkFrame None 0 (mkClient 100) 30 winTypeDock true
                                 geom0 None)
                        (mkGeom 0 0 1920 30)) /\
    e = srv_reject_100 (xlog w').
Proof.
  destruct (renderFrame_stops_at_first_error 10 (mkGeom 0 0 1920 30)
              (demo_world srv_reject_100)
              (mkFrame None 0 (mkClient 100) 30 winTypeDock true geom0 None))
    as (n & e & w' & E & Hn & Hlog & He & _).
  - vm_compute. reflexivity.
  - reflexivity.
  - exists n, e, w'. auto.
Defined.

(** X2: when the server accepts every request, renderFrame on a mapped
    frame returns nil after exactly its three requests, the last being a
    synthetic ConfigureNotify to the client with override-redirect set;
    the position it reports is the one of the frame converted to int16
    (the same below 32768, negative from 32768 up to 65535) and the size
    it reports is converted to uint16 (the same below 65536). *)
Theorem renderFrame_notify_16bit (f : ptr) (geom : Geom) (w : World)
        (fr : frame) :
  h_frames w !! f = Some fr ->
  f_mapped fr = true ->
  (forall l, xsrv w l = None) ->
  exists w' ev,
    renderFrame f geom w = Ret None w' /\
    xlog w' = xlog w ++ frame_requests fr geom /\
    last (xlog w')
    = Some (SendEvent false (window (f_client fr)) 131072 ev) /\
    cn_OverrideRedirect ev = true /\
    (0 <= geomX geom < 2 ^ 15 -> cn_X ev = geomX geom) /\
    (2 ^ 15 <= geomX geom < 2 ^ 16 ->
     cn_X ev = geomX geom - 2 ^ 16 /\ cn_X ev < 0) /\
    (0 <= geomY geom < 2 ^ 15 -> cn_Y ev = geomY geom) /\
    (0 <= geomW geom < 2 ^ 16 -> cn_Width ev = geomW geom) /\
    (0 <= geomH geom < 2 ^ 16 -> cn_Height ev = geomH geom).
Proof.
  intros Hf Hm Hok. rewrite (renderFrame_run f geom w fr Hf Hm). cbv zeta.
  rewrite !Hok. eexists _, _. split; [reflexivity|]. cbn [xlog set_xlog].
  split; [now rewrite <- !app_assoc|].
  split; [now rewrite last_snoc|].
  split; [reflexivity|]. cbn [cn_X cn_Y cn_Width cn_Height].
  unfold to_int16, to_uint16.
  split; [|split; [|split; [|split]]]; intros H.
  - rewrite Z.mod_small by lia. lia.
  - replace (geomX geom + 2 ^ 15)
      with (geomX geom - 2 ^ 15 + 1 * 2 ^ 16) by lia.
    rewrite Z_mod_plus_full, Z.mod_small by lia. lia.
  - rewrite Z.mod_small by lia. lia.
  - now rewrite Z.mod_small by lia.
  - now rewrite Z.mod_small by lia.
Qed.

Lemma renderFrame_notify_16bit_witness :
  exists w' ev,
    renderFrame 1 (mkGeom 40000 50 1920 1030) (tiled_world srv_ok)
    = Ret None w' /\
    last (xlog w') = Some (SendEvent false 301 131072 ev) /\
    cn_X ev = 40000 - 2 ^ 16.
Proof.
  destruct (renderFrame_notify_16bit 1 (mkGeom 40000 50 1920 1030)
              (tiled_world srv_ok)
              (mkFrame (Some 0%nat) 201 (mkClient 301) 600 winTypeNormal
                       true geom0 None))
    as (w' & ev & E & _ & Hlast & _ & _ & Hx & _).
  - vm_compute. reflexivity.
  - reflexivity.
  - reflexivity.
  - exists w', ev. split; [exact E|]. split; [exact Hlast|].
    apply Hx. cbn. lia.
Defined.

(** ** renderColumn *)

Lemma renderFrame_skip f geom w fr :
  h_frames w !! f = Some fr -> f_mapped fr = false ->
  renderFrame f geom w = Ret None w.
Proof.
  intros Hf Hm. unfold renderFrame.
  rewrite (bind_Ret _ _ _ _ _ (deref_Some h_frames _ _ _ Hf)).
  now rewrite Hm.
Qed.

Lemma renderColumn_loop_unmapped gap rect fs : forall y err w,
  unmapped w fs -> renderColumn_loop gap rect fs y err w = Ret err w.
Proof.
  induction fs as [|f fs IH]; intros y err w Hu; [reflexivity|].
  apply Forall_cons in Hu as [(fr & Hf & Hm) Hu].
  cbn [renderColumn_loop].
  rewrite (bind_Ret _ _ _ _ _ (deref_Some h_frames _ _ _ Hf)).
  rewrite (bind_Ret _ _ _ _ _ (renderFrame_skip f _ w fr Hf Hm)).
  rewrite (bind_Ret _ _ _ _ _ (deref_Some h_frames _ _ _ Hf)).
  cbn [keep_error]. now apply IH.
Qed.

(** X3: a column none of whose frames is mapped (a column of a hidden
    workspace) renders to nothing: renderColumn returns nil and the world,
    log of requests included, is the one it started from. *)
Theorem renderColumn_unmapped (col : ptr) (rect : Geom) (w : World)
        (c : column) :
  h_columns w !! col = Some c ->
  unmapped w (c_frames c) ->
  renderColumn col rect w = Ret None w.
Proof.
  intros Hc Hu. unfold renderColumn. unfold bind at 1. unfold gets.
  rewrite (bind_Ret _ _ _ _ _ (deref_Some h_columns _ _ _ Hc)).
  now apply renderColumn_loop_unmapped.
Qed.

Lemma renderColumn_loop_total gap rect fs : forall y err w,
  in_store w fs ->
  exists e w', renderColumn_loop gap rect fs y err w = Ret e w' /\
               same_tree w w'.
Proof.
  induction fs as [|f fs IH]; intros y err w Hv.
  - exists err, w. split; [reflexivity|apply same_tree_refl].
  - apply Forall_cons in Hv as [[fr Hf] Hv]. cbn [renderColumn_loop].
    rewrite (bind_Ret _ _ _ _ _ (deref_Some h_frames _ _ _ Hf)).
    destruct (renderFrame_spec f
                (mkGeom (add32 (geomX rect) gap) (add32 y gap)
                        (sub32 (geomW rect) (mul32 gap 2))
                        (sub32 (f_height fr) (mul32 gap 2))) w fr Hf)
      as (e & w1 & E & _ & Hs).
    rewrite (bind_Ret _ _ _ _ _ E).
    destruct (same_tree_lookup _ _ _ _ Hs Hf) as (fr1 & Hf1 & _).
    rewrite (bind_Ret _ _ _ _ _ (deref_Some h_frames _ _ _ Hf1)).
    destruct (IH (add32 y (f_height fr1)) (keep_error err e) w1)
      as (e' & w' & E' & Hs').
    { eapply Forall_impl; [exact Hv|]. intros p [frp Hp].
      destruct (same_tree_lookup _ _ _ _ Hs Hp) as (x & Hx & _). eauto. }
    exists e', w'. split; [exact E'|]. eapply same_tree_trans; eauto.
Qed.

(** X4: on a column of the store whose frames are in the store,
    renderColumn always returns (it does not panic), and it changes
    nothing but the geometry recorded in frames and the log of requests:
    the manager, the columns, workspaces and outputs, and every other field
    of every frame are as before. *)
Theorem renderColumn_keeps_tree (col : ptr) (rect : Geom) (w : World)
        (c : column) :
  h_columns w !! col = Some c ->
  in_store w (c_frames c) ->
  exists e w',
    renderColumn col rect w = Ret e w' /\
    wm w' = wm w /\ h_columns w' = h_columns w /\
    h_workspaces w' = h_workspaces w /\ h_outputs w' = h_outputs w /\
    forall p fr, h_frames w !! p = Some fr ->
                 exists g, h_frames w' !! p = Some (set_geom fr g).
Proof.
  intros Hc Hv. unfold renderColumn. unfold bind at 1. unfold gets.
  rewrite (bind_Ret _ _ _ _ _ (deref_Some h_columns _ _ _ Hc)).
  destruct (renderColumn_loop_total (InnerGap (wm_config (wm w))) rect
              (c_frames c) (geomY rect) None w Hv) as (e & w' & E & Hs).
  exists e, w'. split; [exact E|].
  pose proof Hs as (Hwm & _ & Hcols & Hws & Hos & _).
  repeat split; try assumption.
  intros p fr Hp.
  destruct (same_tree_lookup _ _ _ _ Hs Hp) as (fr' & Hp' & Efr).
  exists (f_geom fr'). rewrite Hp'. f_equal.
  destruct fr, fr'. unfold forget_geom, set_geom in *. cbn in *. congruence.
Qed.

Lemma renderColumn_keeps_tree_witness :
  exists e w',
    renderColumn 0 (mkGeom 0 0 960 1080) (tiled_world srv_ok) = Ret e w' /\
    h_columns w' = tiled_columns.
Proof.
  destruct (renderColumn_keeps_tree 0 (mkGeom 0 0 960 1080)
              (tiled_world srv_ok)
              (mkColumn (Some 0%nat) [1%nat; 2%nat] 960))
    as (e & w' & E & _ & Hc & _).
  - vm_compute. reflexivity.
  - repeat constructor; eexists; vm_compute; reflexivity.
  - exists e, w'. auto.
Defined.

Lemma renderColumn_unmapped_witness :
  renderColumn 0 (mkGeom 0 0 960 1080) (hidden_world srv_ok)
  = Ret None (hidden_world srv_ok).
Proof.
  apply (renderColumn_unmapped 0 (mkGeom 0 0 960 1080) (hidden_world srv_ok)
           (mkColumn (Some 0%nat) [1%nat; 2%nat] 960)).
  - vm_compute. reflexivity.
  - repeat constructor; eexists; (split; [vm_compute; reflexivity|reflexivity]).
Defined.

(** ** renderDock, top area *)

Lemma dock_rects_closed out y hs : forall pre y',
  y' = wrap32 (y + sumZ pre) ->
  dock_rects out y' hs
  = imap (fun k _ => dockRect out y (pre ++ hs) (length pre + k)) hs.
Proof.
  induction hs as [|h hs IH]; intros pre y' Hy; [reflexivity|].
  cbn [dock_rects imap]. f_equal.
  - unfold dockRect. rewrite Nat.add_0_r, take_app_length, <- Hy.
    now rewrite list_lookup_total_middle.
  - rewrite (IH (pre ++ [h])).
    + rewrite <- (app_assoc pre [h] hs). cbn [app].
      apply imap_ext. intros k x _. cbn. rewrite length_app. cbn.
      f_equal. lia.
    + subst y'. unfold add32. rewrite wrap32_idemp_add_l, sumZ_app. cbn.
      f_equal. lia.
Qed.

(** X5: renderDock lays the frames of the top dock area out one under the
    other from the top edge of the output: the k-th frame is rendered at
    the abscissa and width of the output, with its own height, at the
    ordinate of the output plus the heights of the frames before it
    (32-bit unsigned); every frame is rendered, and the result of
    renderDock is the result of the render of the last frame alone, nil
    for an empty area. *)
Theorem renderDock_top_stack (o : ptr) (w : World) (out : output)
        (hs : list Z) :
  h_outputs w !! o = Some out ->
  heights w (o_dockTop out) hs ->
  NoDup (o_dockTop out) ->
  wrap32 (geomY (o_geom out)) = geomY (o_geom out) ->
  exists es w',
    render_all (zip (o_dockTop out)
                    (imap (fun k _ => dockRect (o_geom out)
                                               (geomY (o_geom out)) hs k) hs))
               w = Ret es w' /\
    renderDock o dockAreaTop w = Ret (last_result None es) w' /\
    forall k f fr,
      o_dockTop out !! k = Some f ->
      h_frames w !! f = Some fr ->
      f_mapped fr = true ->
      h_frames w' !! f
      = Some (set_geom fr (dockRect (o_geom out) (geomY (o_geom out)) hs k)).
Proof.
  intros Ho Hh Hnd Hy.
  pose proof (heights_length _ _ _ Hh) as Hlen.
  set (rects := imap (fun k (_ : Z) =>
                        dockRect (o_geom out) (geomY (o_geom out)) hs k) hs).
  assert (Er : dock_rects (o_geom out) (geomY (o_geom out)) hs = rects).
  { rewrite (dock_rects_closed _ (geomY (o_geom out)) hs []); [reflexivity|].
    cbn. now rewrite Z.add_0_r. }
  destruct (render_all_geom (zip (o_dockTop out) rects) w)
    as (es & w' & E & _ & _ & Hgeom).
  { rewrite fst_zip; [exact Hnd|]. unfold rects. rewrite length_imap. lia. }
  { now apply heights_valid with hs. }
  exists es, w'. split; [exact E|]. split.
  - unfold renderDock.
    rewrite (bind_Ret _ _ w (geomY (o_geom out)) w).
    2: { now rewrite (bind_Ret _ _ _ _ _ (deref_Some h_outputs _ _ _ Ho)). }
    rewrite (bind_Ret _ _ _ _ _ (deref_Some h_outputs _ _ _ Ho)).
    cbn [o_dockAreas].
    rewrite (renderDock_loop_last_result o out _ hs _ None w Ho Hh).
    rewrite Er. now rewrite (bind_Ret _ _ _ _ _ E).
  - intros k f fr Hk Hf Hm.
    rewrite (Hgeom k f (dockRect (o_geom out) (geomY (o_geom out)) hs k) fr);
      [now rewrite Hm| |exact Hf].
    apply lookup_zip_with_Some.
    exists f, (dockRect (o_geom out) (geomY (o_geom out)) hs k).
    split; [reflexivity|]. split; [exact Hk|].
    unfold rects. rewrite list_lookup_imap.
    destruct (hs !! k) as [h|] eqn:Hhk; [reflexivity|].
    apply lookup_ge_None in Hhk. apply lookup_lt_Some in Hk. lia.
Qed.

Lemma renderDock_top_stack_witness :
  exists es w',
    renderDock 0 dockAreaTop (demo_world srv_ok)
    = Ret (last_result None es) w' /\
    forall k f fr,
      [10%nat; 11%nat] !! k = Some f ->
      demo_frames !! f = Some fr ->
      f_mapped fr = true ->
      h_frames w' !! f
      = Some (set_geom fr (dockRect (mkGeom 0 0 1920 1080) 0 [30; 20] k)).
Proof.
  destruct (renderDock_top_stack 0 (demo_world srv_ok)
              (mkOutput (mkGeom 0 0 1920 1080) [10%nat; 11%nat] []
                        [0%nat] (Some 0%nat)) [30; 20])
    as (es & w' & _ & E & Hg).
  - vm_compute. reflexivity.
  - repeat constructor; eexists; (split; [vm_compute; reflexivity|reflexivity]).
  - cbn. apply (bool_decide_unpack _). vm_compute. exact I.
  - reflexivity.
  - exists es, w'. split; [exact E|exact Hg].
Defined.

(** ** renderWorkspace: the loop over columns *)

Lemma widths_same_tree w w' cols xs :
  same_tree w w' -> widths w cols xs -> widths w' cols xs.
Proof.
  intros (_ & _ & Hc & _). unfold widths. now rewrite Hc.
Qed.

Lemma renderWorkspace_loop_render_columns a x0 cols : forall xs pre x err w,
  widths w cols xs ->
  x = wrap32 (x0 + sumZ pre) ->
  renderWorkspace_loop a cols x err w
  = (let! es := render_columns
                  (zip cols (imap (fun k _ => columnRect a x0 (pre ++ xs)
                                                         (length pre + k)) xs))
     in ret (last_error (err :: es))) w.
Proof.
  induction cols as [|col cols IH]; intros xs pre x err w Hw Hx.
  - cbn. unfold bind, ret. cbn. now destruct err.
  - inversion Hw as [|col0 cw cols0 xs' (c & Hc & Hcw) Hw' E1 E2]; subst cw.
    subst. cbn [renderWorkspace_loop imap zip zip_with render_columns].
    rewrite (bind_Ret _ _ _ _ _ (deref_Some h_columns _ _ _ Hc)).
    assert (Erect : columnRect a x0 (pre ++ c_width c :: xs') (length pre + 0)
                    = mkGeom (wrap32 (x0 + sumZ pre)) (geomY a) (c_width c)
                             (geomH a)).
    { unfold columnRect. rewrite Nat.add_0_r, take_app_length.
      now rewrite list_lookup_total_middle. }
    rewrite Erect.
    destruct (renderColumn col
                (mkGeom (wrap32 (x0 + sumZ pre)) (geomY a) (c_width c)
                        (geomH a)) w) as [e w1|] eqn:E.
    2: { unfold bind. now rewrite E. }
    rewrite (bind_Ret _ _ _ _ _ E).
    pose proof (renderColumn_preserves _ _ _ _ _ E) as Hs.
    assert (Hc1 : h_columns w1 !! col = Some c).
    { destruct Hs as (_ & _ & -> & _). exact Hc. }
    rewrite (bind_Ret _ _ _ _ _ (deref_Some h_columns _ _ _ Hc1)).
    rewrite (IH xs' (pre ++ [c_width c]) _ _ w1
               (widths_same_tree _ _ _ _ Hs Hw')).
    + rewrite <- (app_assoc pre [c_width c] xs'). cbn [app].
      assert (Ei : imap (fun k (_ : Z) =>
                           columnRect a x0 (pre ++ c_width c :: xs')
                                      (length (pre ++ [c_width c]) + k)) xs'
                   = imap ((fun k (_ : Z) =>
                              columnRect a x0 (pre ++ c_width c :: xs')
                                         (length pre + k)) ∘ S) xs').
      { apply imap_ext. intros k x _. cbn. rewrite length_app. cbn.
        f_equal. lia. }
      rewrite Ei. unfold bind. rewrite E.
      destruct (render_columns _ w1) as [es w2|]; [|reflexivity].
      unfold ret. now rewrite last_error_keep.
    + unfold add32. rewrite wrap32_idemp_add_l, sumZ_app. cbn.
      f_equal. lia.
Qed.

(** X6: the loop of renderWorkspace over the columns walks them left to
    right, rendering the k-th column in the rectangle that starts at the
    left edge plus the widths of the columns before it (32-bit unsigned),
    has the width of the column and spans the ordinate and height of the
    area; every column is rendered whatever the earlier ones returned and
    the result is the last error among them (the error carried in, when
    none fails). *)
Theorem renderWorkspace_loop_slots (a : Geom) (cols : list ptr) (xs : list Z)
        (x : Z) (err : option error) (w : World) :
  widths w cols xs ->
  wrap32 x = x ->
  renderWorkspace_loop a cols x err w
  = (let! es := render_columns
                  (zip cols (imap (fun k _ => columnRect a x xs k) xs)) in
     ret (last_error (err :: es))) w.
Proof.
  intros Hw Hx.
  rewrite (renderWorkspace_loop_render_columns a x cols xs [] x err w Hw).
  - reflexivity.
  - cbn. now rewrite Z.add_0_r.
Qed.

Lemma renderWorkspace_loop_slots_witness :
  renderWorkspace_loop (mkGeom 0 0 1920 1080) [0%nat; 1%nat] 0 None
                       (tiled_world srv_ok)
  = (let! es := render_columns
                  [(0%nat, mkGeom 0 0 960 1080);
                   (1%nat, mkGeom 960 0 960 1080)] in
     ret (last_error (None :: es))) (tiled_world srv_ok).
Proof.
  apply (renderWorkspace_loop_slots (mkGeom 0 0 1920 1080) [0%nat; 1%nat]
           [960; 960] 0 None (tiled_world srv_ok)).
  - repeat constructor; eexists; (split; [vm_compute; reflexivity|reflexivity]).
  - reflexivity.
Defined.

(** * Further properties of the lookup of frames *)

Lemma in_store_app w l1 l2 :
  in_store w (l1 ++ l2) <-> in_store w l1 /\ in_store w l2.
Proof. apply Forall_app. Qed.

Lemma first_match_app h predicate l1 l2 :
  Forall (fun f => is_Some (h !! f)) l1 ->
  first_match h predicate (l1 ++ l2)
  = match first_match h predicate l1 with
    | Some f => Some f
    | None => first_match h predicate l2
    end.
Proof.
  induction 1 as [|f l1 [fr Hf] _ IH]; [reflexivity|].
  cbn. rewrite Hf. now destruct (predicate fr).
Qed.

Lemma findFrame_frames_first_match predicate fs w :
  in_store w fs ->
  findFrame_frames predicate fs w
  = Ret (first_match (h_frames w) predicate fs) w.
Proof.
  induction 1 as [|f fs [fr Hf] _ IH]; [reflexivity|].
  cbn [findFrame_frames first_match].
  rewrite (bind_Ret _ _ _ _ _ (deref_Some h_frames _ _ _ Hf)), Hf.
  now destruct (predicate fr).
Qed.

Lemma findFrame_columns_first_match predicate w cols : forall fs,
  column_frames w cols = Some fs ->
  in_store w fs ->
  findFrame_columns predicate cols w
  = Ret (first_match (h_frames w) predicate fs) w.
Proof.
  unfold column_frames.
  induction cols as [|col cols IH]; intros fs Hfs Hv.
  - cbn in Hfs. injection Hfs as <-. reflexivity.
  - cbn in Hfs.
    destruct (h_columns w !! col) as [c|] eqn:Hc; [|discriminate].
    cbn in Hfs.
    destruct (mapM _ cols) as [k|] eqn:Hk; [|discriminate].
    cbn in Hfs. injection Hfs as <-.
    apply in_store_app in Hv as [Hv1 Hv2].
    cbn [findFrame_columns].
    rewrite (bind_Ret _ _ _ _ _ (deref_Some h_columns _ _ _ Hc)).
    rewrite (bind_Ret _ _ _ _ _
               (findFrame_frames_first_match predicate _ w Hv1)).
    rewrite (first_match_app _ _ _ _ Hv1).
    destruct (first_match (h_frames w) predicate (c_frames c));
      [reflexivity|].
    now apply IH.
Qed.

Lemma findFrame_workspaces_first_match predicate w wss : forall fs,
  workspace_frames w wss = Some fs ->
  in_store w fs ->
  findFrame_workspaces predicate wss w
  = Ret (first_match (h_frames w) predicate fs) w.
Proof.
  unfold workspace_frames.
  induction wss as [|ws wss IH]; intros fs Hfs Hv.
  - cbn in Hfs. injection Hfs as <-. reflexivity.
  - cbn in Hfs.
    destruct (h_workspaces w !! ws) as [s|] eqn:Hs; [|discriminate].
    cbn in Hfs.
    destruct (column_frames w (ws_columns s)) as [fs1|] eqn:H1;
      [|discriminate].
    cbn in Hfs.
    destruct (mapM _ wss) as [k|] eqn:Hk; [|discriminate].
    cbn in Hfs. injection Hfs as <-.
    apply in_store_app in Hv as [Hv1 Hv2].
    cbn [findFrame_workspaces].
    rewrite (bind_Ret _ _ _ _ _ (deref_Some h_workspaces _ _ _ Hs)).
    rewrite (bind_Ret _ _ _ _ _
               (findFrame_columns_first_match predicate w _ fs1 H1 Hv1)).
    rewrite (first_match_app _ _ _ _ Hv1).
    destruct (first_match (h_frames w) predicate fs1); [reflexivity|].
    now apply IH.
Qed.

Lemma findFrame_outputs_first_match predicate w os : forall fs,
  dock_frames w os = Some fs ->
  in_store w fs ->
  findFrame_outputs predicate os w
  = Ret (first_match (h_frames w) predicate fs) w.
Proof.
  unfold dock_frames.
  induction os as [|o os IH]; intros fs Hfs Hv.
  - cbn in Hfs. injection Hfs as <-. reflexivity.
  - cbn in Hfs.
    destruct (h_outputs w !! o) as [out|] eqn:Ho; [|discriminate].
    cbn in Hfs.
    destruct (mapM _ os) as [k|] eqn:Hk; [|discriminate].
    cbn in Hfs. injection Hfs as <-.
    apply in_store_app in Hv as [Hv1 Hv2].
    apply in_store_app in Hv1 as [Hvt Hvb].
    cbn [findFrame_outputs].
    rewrite (bind_Ret _ _ _ _ _ (deref_Some h_outputs _ _ _ Ho)).
    rewrite (bind_Ret _ _ _ _ _
               (findFrame_frames_first_match predicate _ w Hvt)).
    rewrite <- app_assoc.
    rewrite (first_match_app _ _ _ _ Hvt).
    destruct (first_match (h_frames w) predicate (o_dockTop out));
      [reflexivity|].
    rewrite (bind_Ret _ _ _ _ _
               (findFrame_frames_first_match predicate _ w Hvb)).
    rewrite (first_match_app _ _ _ _ Hvb).
    destruct (first_match (h_frames w) predicate (o_dockBottom out));
      [reflexivity|].
    now apply IH.
Qed.

Lemma first_match_Some h predicate fs f :
  first_match h predicate fs = Some f ->
  f ∈ fs /\ exists fr, h !! f = Some fr /\ predicate fr = true.
Proof.
  induction fs as [|g fs IH]; [discriminate|]. cbn.
  destruct (h !! g) as [gr|] eqn:Hg; [|discriminate].
  destruct (predicate gr) eqn:Hp.
  - intros [= <-]. split; [left|eauto].
  - intros H. destruct (IH H) as [Hin Hfr]. split; [now right|exact Hfr].
Qed.

Lemma first_match_None h predicate fs :
  Forall (fun f => is_Some (h !! f)) fs ->
  first_match h predicate fs = None ->
  forall f fr, f ∈ fs -> h !! f = Some fr -> predicate fr = false.
Proof.
  induction 1 as [|g fs [gr Hg] _ IH]; intros Hn f fr Hin Hf.
  - now apply elem_of_nil in Hin.
  - cbn in Hn. rewrite Hg in Hn.
    destruct (predicate gr) eqn:Hp; [discriminate|].
    apply elem_of_cons in Hin as [->|Hin]; [congruence|eauto].
Qed.

(** X7: findFrame is the search of the first frame that satisfies the
    predicate in a fixed order, the frames of the workspaces of the manager
    (workspace by workspace, column by column) before the dock frames of
    its outputs (top area, then bottom area), and it changes nothing.  The
    frame it returns is a frame of the tree that satisfies the predicate;
    when it returns nil no frame of the tree satisfies it. *)
Theorem findFrame_first_match (predicate : frame -> bool) (w : World)
        (fs : list ptr) :
  tree_frames w = Some fs ->
  in_store w fs ->
  findFrame predicate w = Ret (first_match (h_frames w) predicate fs) w /\
  (forall f, first_match (h_frames w) predicate fs = Some f ->
             f ∈ fs /\
             exists fr, h_frames w !! f = Some fr /\ predicate fr = true) /\
  (first_match (h_frames w) predicate fs = None ->
   forall f fr, f ∈ fs -> h_frames w !! f = Some fr -> predicate fr = false).
Proof.
  intros Ht Hv. split; [|split].
  - unfold tree_frames in Ht.
    destruct (workspace_frames w (wm_workspaces (wm w))) as [a|] eqn:Ha;
      [|discriminate].
    cbn in Ht.
    destruct (dock_frames w (wm_outputs (wm w))) as [b|] eqn:Hb;
      [|discriminate].
    cbn in Ht. injection Ht as <-.
    apply in_store_app in Hv as [Hva Hvb].
    unfold findFrame. unfold bind at 1. unfold gets.
    rewrite (bind_Ret _ _ _ _ _
               (findFrame_workspaces_first_match predicate w _ a Ha Hva)).
    rewrite (first_match_app _ _ _ _ Hva).
    destruct (first_match (h_frames w) predicate a); [reflexivity|].
    unfold bind.
    now apply findFrame_outputs_first_match.
  - intros f. apply first_match_Some.
  - now apply first_match_None.
Qed.

Lemma findFrame_first_match_witness :
  findFrame (fun fr => window (f_client fr) =? 100) (demo_world srv_ok)
  = Ret (Some 10%nat) (demo_world srv_ok).
Proof.
  refine (proj1 (findFrame_first_match
                   (fun fr => window (f_client fr) =? 100)
                   (demo_world srv_ok) [1%nat; 10%nat; 11%nat] _ _)).
  - vm_compute. reflexivity.
  - repeat constructor; eexists; vm_compute; reflexivity.
Defined.

(** * Further properties of moveWindow *)

(** X8: moving a window that no frame of the tree manages does nothing:
    moveWindow returns nil in every direction and the world is unchanged. *)
Theorem moveWindow_unmanaged (win : Window) (dir : MoveDirection) (w : World)
        (fs : list ptr) :
  tree_frames w = Some fs ->
  Forall (fun f => exists fr, h_frames w !! f = Some fr /\
                              window (f_client fr) <> win) fs ->
  moveWindow win dir w = Ret None w.
Proof.
  intros Ht Hno.
  assert (Hv : in_store w fs).
  { eapply Forall_impl; [exact Hno|]. intros f (fr & Hf & _). eauto. }
  destruct (findFrame_first_match
              (fun fr => window (f_client fr) =? win) w fs Ht Hv)
    as (E & Hsome & _).
  destruct (first_match (h_frames w)
                        (fun fr => window (f_client fr) =? win) fs)
    as [f|] eqn:Hm.
  - destruct (Hsome f eq_refl) as (Hin & fr & Hf & Hp).
    rewrite Forall_forall in Hno.
    destruct (Hno f Hin) as (fr' & Hf' & Hne).
    assert (fr' = fr) as -> by congruence.
    apply Z.eqb_eq in Hp. contradiction.
  - unfold moveWindow. now rewrite (bind_Ret _ _ _ _ _ E).
Qed.

Lemma moveWindow_unmanaged_witness :
  moveWindow 999 MoveLeft (demo_world srv_ok) = Ret None (demo_world srv_ok).
Proof.
  apply (moveWindow_unmanaged 999 MoveLeft (demo_world srv_ok)
           [1%nat; 10%nat; 11%nat]).
  - vm_compute. reflexivity.
  - repeat constructor; eexists;
      (split; [vm_compute; reflexivity|discriminate]).
Defined.

(** X9: when the window belongs to a frame that has no owning column, as
    a dock frame (findFrame searches the dock areas too), moveWindow
    dereferences the nil column and panics, whatever the direction. *)
Theorem moveWindow_without_column (win : Window) (dir : MoveDirection)
        (w : World) (f : ptr) (fr : frame) :
  findFrame (fun fr => window (f_client fr) =? win) w = Ret (Some f) w ->
  h_frames w !! f = Some fr ->
  f_col fr = None ->
  moveWindow win dir w = Panic.
Proof.
  intros Hfind Hf Hcol. unfold moveWindow.
  rewrite (bind_Ret _ _ _ _ _ Hfind).
  rewrite (bind_Ret _ _ _ _ _ (deref_Some h_frames _ _ _ Hf)).
  now rewrite Hcol.
Qed.

Lemma moveWindow_without_column_witness :
  moveWindow 100 MoveUp (demo_world srv_ok) = Panic.
Proof.
  apply (moveWindow_without_column 100 MoveUp (demo_world srv_ok) 10
           (mkFrame None 0 (mkClient 100) 30 winTypeDock true geom0 None)).
  - vm_compute. reflexivity.
  - vm_compute. reflexivity.
  - reflexivity.
Defined.

(** ** Up, then down *)

Lemma moveWindow_up_step win w f fr col c j :
  findFrame (fun fr => window (f_client fr) =? win) w = Ret (Some f) w ->
  h_frames w !! f = Some fr ->
  f_col fr = Some col ->
  h_columns w !! col = Some c ->
  c_frames c !! S j = Some f ->
  f ∉ take (S j) (c_frames c) ->
  moveWindow win MoveUp w
  = Ret None (with_frames col c (swap (c_frames c) j (S j)) w).
Proof.
  intros Hfind Hf Hcol Hc Hi Hfirst.
  pose proof (lookup_lt_Some _ _ _ Hi) as Hlt.
  unfold moveWindow.
  rewrite (bind_Ret _ _ _ _ _ Hfind).
  rewrite (bind_Ret _ _ _ _ _ (deref_Some h_frames _ _ _ Hf)).
  rewrite Hcol. cbn [nonnil]. rewrite (bind_Ret _ _ w col w eq_refl).
  rewrite (bind_Ret _ _ _ _ _ (deref_Some h_columns _ _ _ Hc)).
  rewrite (bind_Ret _ _ _ _ _
             (findFrameIndex_position col c f (S j) w Hc Hi Hfirst)).
  replace (0 <? Z.of_nat (S j)) with true
    by (symmetry; apply Z.ltb_lt; lia).
  replace (Z.of_nat (S j) - 1) with (Z.of_nat j) by lia.
  destruct (c_frames c !! j) as [other|] eqn:Hj;
    [|apply lookup_ge_None in Hj; lia].
  unfold bind at 1.
  rewrite (bind_Ret _ _ _ _ _ (deref_Some h_columns _ _ _ Hc)).
  rewrite (bind_Ret _ _ _ _ _ (index_nat _ _ _ Hj w)).
  rewrite (bind_Ret _ _ _ _ _ (assign_nat (c_frames c) j f ltac:(lia) w)).
  rewrite (bind_Ret _ _ _ _ _
             (assign_nat (<[j:=f]> (c_frames c)) (S j) other
                         ltac:(rewrite length_insert; lia) w)).
  unfold store_column, modify, with_frames, swap, ret.
  rewrite Hj, Hi.
  now rewrite (list_insert_insert_ne _ j (S j)) by lia.
Qed.

Lemma moveWindow_down_step win w f fr col c i :
  findFrame (fun fr => window (f_client fr) =? win) w = Ret (Some f) w ->
  h_frames w !! f = Some fr ->
  f_col fr = Some col ->
  h_columns w !! col = Some c ->
  c_frames c !! i = Some f ->
  f ∉ take i (c_frames c) ->
  (S i < length (c_frames c))%nat ->
  moveWindow win MoveDown w
  = Ret None (with_frames col c (swap (c_frames c) i (S i)) w).
Proof.
  intros Hfind Hf Hcol Hc Hi Hfirst Hlt.
  unfold moveWindow.
  rewrite (bind_Ret _ _ _ _ _ Hfind).
  rewrite (bind_Ret _ _ _ _ _ (deref_Some h_frames _ _ _ Hf)).
  rewrite Hcol. cbn [nonnil]. rewrite (bind_Ret _ _ w col w eq_refl).
  rewrite (bind_Ret _ _ _ _ _ (deref_Some h_columns _ _ _ Hc)).
  rewrite (bind_Ret _ _ _ _ _
             (findFrameIndex_position col c f i w Hc Hi Hfirst)).
  rewrite (bind_Ret _ _ _ _ _ (deref_Some h_columns _ _ _ Hc)).
  unfold len.
  replace (Z.of_nat i <? Z.of_nat (length (c_frames c)) - 1) with true
    by (symmetry; apply Z.ltb_lt; lia).
  replace (Z.of_nat i + 1) with (Z.of_nat (S i)) by lia.
  destruct (c_frames c !! S i) as [other|] eqn:Hj;
    [|apply lookup_ge_None in Hj; lia].
  unfold bind at 1.
  rewrite (bind_Ret _ _ _ _ _ (index_nat _ _ _ Hj w)).
  rewrite (bind_Ret _ _ _ _ _ (assign_nat (c_frames c) (S i) f ltac:(lia) w)).
  rewrite (bind_Ret _ _ _ _ _
             (assign_nat (<[S i:=f]> (c_frames c)) i other
                         ltac:(rewrite length_insert; lia) w)).
  unfold bind, store_column, modify, with_frames, swap, ret.
  now rewrite Hj, Hi.
Qed.

Lemma swap_adjacent_involutive (l : list ptr) j :
  swap (swap l j (S j)) j (S j) = l.
Proof.
  destruct (l !! j) as [x|] eqn:Hx.
  2: { assert (E : swap l j (S j) = l) by (unfold swap; now rewrite Hx).
       now rewrite !E. }
  destruct (l !! S j) as [y|] eqn:Hy.
  2: { assert (E : swap l j (S j) = l) by (unfold swap; now rewrite Hx, Hy).
       now rewrite !E. }
  destruct (swap_adjacent l j x y Hx Hy) as [E1 E2].
  pose proof (lookup_lt_Some _ _ _ Hx) as Hlt.
  assert (Hlen : length (take j l) = j) by (rewrite length_take; lia).
  rewrite E1.
  pose proof (swap_middle (take j l) y x (drop (S (S j)) l)) as Hs.
  rewrite Hlen in Hs. rewrite Hs. now rewrite <- E2.
Qed.

Lemma swap_adjacent_take (l : list ptr) j :
  take j (swap l j (S j)) = take j l.
Proof.
  destruct (l !! j) as [x|] eqn:Hx; [|unfold swap; now rewrite Hx].
  destruct (l !! S j) as [y|] eqn:Hy; [|unfold swap; now rewrite Hx, Hy].
  destruct (swap_adjacent l j x y Hx Hy) as [E1 E2].
  pose proof (lookup_lt_Some _ _ _ Hx) as Hlt.
  rewrite E1. rewrite take_app_le by (rewrite length_take; lia).
  rewrite take_take. f_equal. lia.
Qed.

Lemma first_match_unique h predicate fs f fr :
  Forall (fun g => is_Some (h !! g)) fs ->
  f ∈ fs -> h !! f = Some fr -> predicate fr = true ->
  (forall g gr, g ∈ fs -> h !! g = Some gr -> predicate gr = true -> g = f) ->
  first_match h predicate fs = Some f.
Proof.
  induction 1 as [|g fs [gr Hg] _ IH]; intros Hin Hf Hp Huniq.
  - now apply elem_of_nil in Hin.
  - cbn. rewrite Hg. destruct (predicate gr) eqn:Hpg.
    + f_equal. apply (Huniq g gr); [left|exact Hg|exact Hpg].
    + apply elem_of_cons in Hin as [->|Hin]; [congruence|].
      apply IH; auto. intros g' gr' Hin'. apply Huniq. now right.
Qed.

Lemma concat_Forall2_Permutation (k' k : list (list ptr)) :
  Forall2 (fun a b => a ≡ₚ b) k' k -> concat k' ≡ₚ concat k.
Proof.
  induction 1 as [|a b k' k Hab _ IH]; [reflexivity|].
  cbn. now rewrite Hab, IH.
Qed.

Lemma mapM_reorder {A} (g g' : A -> option (list ptr)) (l : list A) :
  (forall x y, g x = Some y -> exists y', g' x = Some y' /\ y' ≡ₚ y) ->
  forall k, mapM g l = Some k ->
            exists k', mapM g' l = Some k' /\ concat k' ≡ₚ concat k.
Proof.
  intros Hg k Hk. apply mapM_Some in Hk.
  assert (H : exists k', Forall2 (fun x y => g' x = Some y) l k' /\
                         Forall2 (fun a b => a ≡ₚ b) k' k).
  { induction Hk as [|x y l k Hx _ (k' & Hk' & Hp)].
    - exists []. split; constructor.
    - destruct (Hg x y Hx) as (y' & Hy' & Hyy).
      exists (y' :: k'). split; constructor; auto. }
  destruct H as (k' & Hk' & Hp). exists k'. split.
  - now apply mapM_Some.
  - now apply concat_Forall2_Permutation.
Qed.

(** Changing the order of the frames of one column permutes the frames of
    the tree. *)
Lemma column_frames_reorder w col c fs' cols l :
  h_columns w !! col = Some c ->
  fs' ≡ₚ c_frames c ->
  column_frames w cols = Some l ->
  exists l', column_frames (with_frames col c fs' w) cols = Some l' /\
             l' ≡ₚ l.
Proof.
  unfold column_frames. intros Hc Hp Hl.
  apply fmap_Some in Hl as (k & Hk & ->).
  destruct (mapM_reorder
              (fun col0 => c_frames <$> h_columns w !! col0)
              (fun col0 => c_frames
                             <$> h_columns (with_frames col c fs' w) !! col0)
              cols) with (k := k) as (k' & Hk' & Hperm); [|exact Hk|].
  - intros x y Hx. cbn. destruct (decide (x = col)) as [->|Hne].
    + rewrite lookup_insert_eq. cbn. rewrite Hc in Hx. cbn in Hx.
      injection Hx as <-. eauto.
    + rewrite lookup_insert_ne by auto. rewrite Hx. eauto.
  - exists (concat k'). split; [|exact Hperm]. now rewrite Hk'.
Qed.

Lemma tree_frames_reorder w col c fs' fs :
  h_columns w !! col = Some c ->
  fs' ≡ₚ c_frames c ->
  tree_frames w = Some fs ->
  exists fs1, tree_frames (with_frames col c fs' w) = Some fs1 /\ fs1 ≡ₚ fs.
Proof.
  intros Hc Hp Ht. unfold tree_frames in *.
  destruct (workspace_frames w (wm_workspaces (wm w))) as [a|] eqn:Ha;
    [|discriminate].
  cbn in Ht.
  destruct (dock_frames w (wm_outputs (wm w))) as [b|] eqn:Hb;
    [|discriminate].
  cbn in Ht. injection Ht as <-.
  unfold workspace_frames in Ha.
  apply fmap_Some in Ha as (k & Hk & ->).
  destruct (mapM_reorder
              (fun ws => s ← h_workspaces w !! ws;
                         column_frames w (ws_columns s))
              (fun ws => s ← h_workspaces (with_frames col c fs' w) !! ws;
                         column_frames (with_frames col c fs' w)
                                       (ws_columns s))
              (wm_workspaces (wm w))) with (k := k)
    as (k' & Hk' & Hperm); [|exact Hk|].
  - intros x y Hx. cbn.
    destruct (h_workspaces w !! x) as [s|]; [|discriminate]. cbn in *.
    now apply column_frames_reorder.
  - exists (concat k' ++ b). split.
    + unfold workspace_frames.
      change (wm_workspaces (wm (with_frames col c fs' w)))
        with (wm_workspaces (wm w)).
      rewrite Hk'. cbn.
      change (dock_frames (with_frames col c fs' w) (wm_outputs (wm w)))
        with (dock_frames w (wm_outputs (wm w))).
      now rewrite Hb.
    + now rewrite Hperm.
Qed.

Lemma findFrame_unique win w fs f fr :
  tree_frames w = Some fs ->
  in_store w fs ->
  f ∈ fs ->
  (forall g gr, g ∈ fs -> h_frames w !! g = Some gr ->
                window (f_client gr) = win -> g = f) ->
  h_frames w !! f = Some fr ->
  window (f_client fr) = win ->
  findFrame (fun fr => window (f_client fr) =? win) w = Ret (Some f) w.
Proof.
  intros Ht Hv Hin Huniq Hf Hwin.
  destruct (findFrame_first_match
              (fun fr => window (f_client fr) =? win) w fs Ht Hv)
    as (E & _).
  rewrite E. f_equal.
  apply first_match_unique with fr; auto.
  - now apply Z.eqb_eq.
  - intros g gr Hg Hgr Hp. apply (Huniq g gr Hg Hgr). now apply Z.eqb_eq.
Qed.

(** X10: moving a window up and then down again restores the world
    exactly.  For a frame that is not first in its column, and whose window
    no other frame of the tree carries, the move up exchanges it with the
    frame above and the move down that follows puts both back. *)
Theorem moveWindow_up_down (win : Window) (w : World) (fs : list ptr)
        (f : ptr) (fr : frame) (col : ptr) (c : column) (j : nat) :
  tree_frames w = Some fs ->
  in_store w fs ->
  f ∈ fs ->
  (forall g gr, g ∈ fs -> h_frames w !! g = Some gr ->
                window (f_client gr) = win -> g = f) ->
  h_frames w !! f = Some fr ->
  window (f_client fr) = win ->
  f_col fr = Some col ->
  h_columns w !! col = Some c ->
  c_frames c !! S j = Some f ->
  f ∉ take (S j) (c_frames c) ->
  moveWindow win MoveUp w
  = Ret None (with_frames col c (swap (c_frames c) j (S j)) w) /\
  moveWindow win MoveDown (with_frames col c (swap (c_frames c) j (S j)) w)
  = Ret None w.
Proof.
  intros Ht Hv Hin Huniq Hf Hwin Hcol Hc Hi Hfirst.
  pose proof (lookup_lt_Some _ _ _ Hi) as Hlt.
  destruct (c_frames c !! j) as [other|] eqn:Hj;
    [|apply lookup_ge_None in Hj; lia].
  split.
  - apply moveWindow_up_step with f fr; auto.
    now apply findFrame_unique with fs fr.
  - set (w1 := with_frames col c (swap (c_frames c) j (S j)) w).
    destruct (tree_frames_reorder w col c (swap (c_frames c) j (S j)) fs Hc
                (swap_adjacent_Permutation _ _) Ht) as (fs1 & Ht1 & Hp1).
    assert (Hfind1 : findFrame (fun fr => window (f_client fr) =? win) w1
                     = Ret (Some f) w1).
    { apply findFrame_unique with fs1 fr; auto.
      - unfold in_store. rewrite Hp1. exact Hv.
      - now rewrite Hp1.
      - intros g gr Hg. rewrite Hp1 in Hg. now apply Huniq. }
    destruct (swap_lookup (c_frames c) j (S j) other f ltac:(lia) Hj Hi)
      as [Hsj _].
    rewrite (moveWindow_down_step win w1 f fr col
               (set_c_frames c (swap (c_frames c) j (S j))) j Hfind1 Hf Hcol).
    + f_equal. cbn [c_frames set_c_frames].
      rewrite swap_adjacent_involutive.
      unfold w1, with_frames, set_columns. cbn.
      rewrite insert_insert_eq.
      replace (set_c_frames (set_c_frames c (swap (c_frames c) j (S j)))
                            (c_frames c)) with c by now destruct c.
      rewrite (insert_id _ _ _ Hc). now destruct w.
    + apply lookup_insert_eq.
    + exact Hsj.
    + cbn [c_frames set_c_frames]. rewrite swap_adjacent_take.
      intros Hin'. apply Hfirst.
      apply list_elem_of_lookup in Hin' as [k Hk].
      pose proof (lookup_lt_Some _ _ _ Hk) as Hklt.
      rewrite length_take in Hklt.
      rewrite lookup_take_lt in Hk by lia.
      apply list_elem_of_lookup. exists k.
      rewrite lookup_take_lt by lia. exact Hk.
    + cbn [c_frames set_c_frames]. rewrite swap_length. lia.
Qed.

Lemma moveWindow_up_down_witness :
  moveWindow 302 MoveUp (tiled_world srv_ok)
  = Ret None (with_frames 0 (mkColumn (Some 0%nat) [1%nat; 2%nat] 960)
                          [2%nat; 1%nat] (tiled_world srv_ok)) /\
  moveWindow 302 MoveDown
             (with_frames 0 (mkColumn (Some 0%nat) [1%nat; 2%nat] 960)
                          [2%nat; 1%nat] (tiled_world srv_ok))
  = Ret None (tiled_world srv_ok).
Proof.
  refine (moveWindow_up_down 302 (tiled_world srv_ok)
            [1%nat; 2%nat; 3%nat; 4%nat] 2
            (mkFrame (Some 0%nat) 202 (mkClient 302) 480 winTypeNormal
                     false geom0 None)
            0 (mkColumn (Some 0%nat) [1%nat; 2%nat] 960) 0
            _ _ _ _ _ _ _ _ _ _).
  - vm_compute. reflexivity.
  - repeat constructor; eexists; vm_compute; reflexivity.
  - apply (bool_decide_unpack _). vm_compute. exact I.
  - intros g gr Hg Hgr Hwin.
    repeat (apply elem_of_cons in Hg as [->|Hg]);
      [| | | |now apply elem_of_nil in Hg];
      vm_compute in Hgr; injection Hgr as <-; cbn in Hwin;
      first [reflexivity|discriminate].
  - vm_compute. reflexivity.
  - reflexivity.
  - reflexivity.
  - vm_compute. reflexivity.
  - reflexivity.
  - cbn. apply (bool_decide_unpack _). vm_compute. exact I.
Defined.

(** * Further properties of ensureWorkspace and moveFrameToWorkspace *)

Lemma ensureWorkspace_loop_same_ids id l : forall w w1 r,
  (forall p, ws_id <$> h_workspaces w1 !! p = ws_id <$> h_workspaces w !! p) ->
  ensureWorkspace_loop id l w = Ret r w ->
  ensureWorkspace_loop id l w1 = Ret r w1.
Proof.
  induction l as [|p l IH]; intros w w1 r Hids; cbn [ensureWorkspace_loop].
  - now intros [= <-].
  - unfold bind, deref. specialize (Hids p) as Hp.
    destruct (h_workspaces w !! p) as [s|]; [|discriminate].
    destruct (h_workspaces w1 !! p) as [s1|]; [|discriminate].
    cbn in Hp. injection Hp as ->.
    destruct (ws_id s =? id); [now intros [= <-]|].
    now apply IH.
Qed.

Lemma ensureWorkspace_inl_inv id w ws w1 :
  ensureWorkspace id w = Ret (inl ws) w1 ->
  ensureWorkspace_loop id (wm_workspaces (wm w)) w = Ret (Some ws) w /\
  exists s o0 os,
    h_workspaces w !! ws = Some s /\ wm_outputs (wm w) = o0 :: os /\
    ((ws_output s = Some o0 /\ w1 = w) \/
     (ws_output s = None /\
      exists out, h_outputs w !! o0 = Some out /\
                  w1 = attached ws s o0 out w)).
Proof.
  unfold ensureWorkspace. unfold bind at 1. unfold gets. unfold bind at 1.
  destruct (ensureWorkspace_loop id _ w) as [[ws0|] w0|] eqn:El;
    [| |discriminate].
  2: { apply ensureWorkspace_loop_pure in El as ->. discriminate. }
  pose proof (ensureWorkspace_loop_pure _ _ _ _ _ El) as ->.
  unfold bind at 1, deref.
  destruct (h_workspaces w !! ws0) as [s|] eqn:Hl; [|discriminate].
  unfold bind at 1. cbn [gets].
  destruct (wm_outputs (wm w)) as [|o0 os] eqn:Hos.
  { destruct (ws_output s); discriminate. }
  destruct (ws_output s) as [o|] eqn:Ho.
  - rewrite (bind_Ret _ _ _ _ _ (index_head o0 os w)).
    destruct (Nat.eqb_spec o o0) as [->|Hne]; cbn [negb]; [|discriminate].
    intros [= <- <-]. split; [reflexivity|].
    exists s, o0, os. auto.
  - rewrite (bind_Ret _ _ _ _ _ (index_head o0 os w)).
    unfold addWorkspace, bind, deref.
    destruct (h_outputs w !! o0) as [out|] eqn:Hout; [|discriminate].
    rewrite Hl. cbn. intros [= <- <-]. split; [reflexivity|].
    exists s, o0, os. split; [exact Hl|]. split; [reflexivity|].
    right. split; [exact Ho|]. exists out. auto.
Qed.

(** X11: ensureWorkspace is idempotent.  Once it has returned a workspace,
    calling it again with the same identifier returns the same workspace
    and changes nothing: the workspace is attached at most once. *)
Theorem ensureWorkspace_idempotent (id : Z) (w w1 : World) (ws : ptr) :
  ensureWorkspace id w = Ret (inl ws) w1 ->
  ensureWorkspace id w1 = Ret (inl ws) w1.
Proof.
  intros H.
  destruct (ensureWorkspace_inl_inv _ _ _ _ H)
    as (El & s & o0 & os & Hl & Hos & [[Ho ->]|(Ho & out & Hout & ->)]).
  - exact H.
  - assert (El1 : ensureWorkspace_loop id (wm_workspaces (wm w))
                                       (attached ws s o0 out w)
                  = Ret (Some ws) (attached ws s o0 out w)).
    { apply ensureWorkspace_loop_same_ids with w; [|exact El].
      intros p. cbn. destruct (decide (p = ws)) as [->|Hne].
      - now rewrite lookup_insert_eq, Hl.
      - now rewrite lookup_insert_ne. }
    unfold ensureWorkspace. unfold bind at 1. unfold gets.
    change (wm_workspaces (wm (attached ws s o0 out w)))
      with (wm_workspaces (wm w)).
    rewrite (bind_Ret _ _ _ _ _ El1).
    assert (Hl1 : h_workspaces (attached ws s o0 out w) !! ws
                  = Some (set_ws_output s (Some o0)))
      by apply lookup_insert_eq.
    rewrite (bind_Ret _ _ _ _ _ (deref_Some h_workspaces _ _ _ Hl1)).
    unfold bind at 1. cbn [gets ws_output set_ws_output].
    change (wm_outputs (wm (attached ws s o0 out w)))
      with (wm_outputs (wm w)).
    rewrite Hos.
    rewrite (bind_Ret _ _ _ _ _ (index_head o0 os _)).
    now rewrite Nat.eqb_refl.
Qed.

Lemma ensureWorkspace_idempotent_witness :
  ensureWorkspace 1
    (attached 1 (mkWorkspace 1 [] None) 0
       (mkOutput (mkGeom 0 0 1920 1080) [] [] [0%nat] (Some 0%nat))
       (tiled_world srv_ok))
  = Ret (inl 1%nat)
        (attached 1 (mkWorkspace 1 [] None) 0
           (mkOutput (mkGeom 0 0 1920 1080) [] [] [0%nat] (Some 0%nat))
           (tiled_world srv_ok)).
Proof.
  apply (ensureWorkspace_idempotent 1 (tiled_world srv_ok)).
  vm_compute. reflexivity.
Defined.

(** X12: moveFrameToWorkspace hands the failure of ensureWorkspace back
    as it is (switchWorkspace wraps it) and before touching anything: for
    an identifier no workspace carries it returns the not-found error, for
    a workspace of another output the "multiple outputs" error, and in
    both cases the world is unchanged, whatever the frame. *)
Theorem moveFrameToWorkspace_ensure_error (f : ptr) (id : Z) (w : World)
        (o0 : ptr) (os : list ptr) (out : output) :
  wm_outputs (wm w) = o0 :: os ->
  h_outputs w !! o0 = Some out ->
  (unknown_id w id ->
   moveFrameToWorkspace f id w
   = Ret (Some (ErrorfInt "no workspace with ID %d" id)) w) /\
  (forall ws s o,
      resolves w id ws -> h_workspaces w !! ws = Some s ->
      ws_output s = Some o -> o <> o0 ->
      moveFrameToWorkspace f id w
      = Ret (Some (Errorf "multiple outputs not supported yet")) w).
Proof.
  intros Hos Hout. split.
  - intros Hu. unfold moveFrameToWorkspace.
    unfold bind at 1. unfold gets. rewrite Hos.
    rewrite (bind_Ret _ _ _ _ _ (index_head o0 os w)).
    rewrite (bind_Ret _ _ _ _ _ (deref_Some h_outputs _ _ _ Hout)).
    now rewrite (bind_Ret _ _ _ _ _ (ensureWorkspace_unknown id w Hu)).
  - intros ws s o Hr Hl Ho Hne. unfold moveFrameToWorkspace.
    unfold bind at 1. unfold gets. rewrite Hos.
    rewrite (bind_Ret _ _ _ _ _ (index_head o0 os w)).
    rewrite (bind_Ret _ _ _ _ _ (deref_Some h_outputs _ _ _ Hout)).
    rewrite (bind_Ret _ _ _ _ _
               (ensureWorkspace_owned id w ws s o o0 os Hr Hl Ho Hos)).
    apply Nat.eqb_neq in Hne. now rewrite Hne.
Qed.

Lemma moveFrameToWorkspace_ensure_error_witness :
  moveFrameToWorkspace 1 7 (tiled_world srv_ok)
  = Ret (Some (ErrorfInt "no workspace with ID %d" 7)) (tiled_world srv_ok)
  /\ moveFrameToWorkspace 1 2 (tiled_world srv_ok)
     = Ret (Some (Errorf "multiple outputs not supported yet"))
           (tiled_world srv_ok).
Proof.
  destruct (moveFrameToWorkspace_ensure_error 1 7 (tiled_world srv_ok) 0 []
              (mkOutput (mkGeom 0 0 1920 1080) [] [] [0%nat] (Some 0%nat))
              eq_refl) as [H1 _]; [vm_compute; reflexivity|].
  destruct (moveFrameToWorkspace_ensure_error 1 2 (tiled_world srv_ok) 0 []
              (mkOutput (mkGeom 0 0 1920 1080) [] [] [0%nat] (Some 0%nat))
              eq_refl) as [_ H2]; [vm_compute; reflexivity|].
  split.
  - apply H1.
    repeat constructor; eexists;
      (split; [vm_compute; reflexivity|discriminate]).
  - apply (H2 2%nat (mkWorkspace 2 [2%nat] (Some 1%nat)) 1%nat).
    + exists [0%nat; 1%nat], [], (mkWorkspace 2 [2%nat] (Some 1%nat)).
      split; [reflexivity|].
      split; [repeat constructor; eexists;
              (split; [vm_compute; reflexivity|discriminate])|].
      split; [vm_compute; reflexivity|reflexivity].
    + vm_compute. reflexivity.
    + reflexivity.
    + discriminate.
Defined.

(** X13: while the manager has no output, an identifier no workspace
    carries still gets the not-found error from ensureWorkspace, but a
    known identifier makes it index the empty list of outputs and panic,
    and moveFrameToWorkspace panics for every identifier, since it reads
    the first output before anything else. *)
Theorem no_output_panics (id : Z) (w : World) :
  wm_outputs (wm w) = [] ->
  (unknown_id w id ->
   ensureWorkspace id w
   = Ret (inr (ErrorfInt "no workspace with ID %d" id)) w) /\
  (forall ws, resolves w id ws -> ensureWorkspace id w = Panic) /\
  (forall f, moveFrameToWorkspace f id w = Panic).
Proof.
  intros Hos. split; [apply ensureWorkspace_unknown|]. split.
  - intros ws Hr. pose proof Hr as (pre & post & s & _ & _ & Hl & _).
    unfold ensureWorkspace. unfold bind at 1. unfold gets.
    rewrite (bind_Ret _ _ _ _ _ (ensureWorkspace_loop_resolves id w ws Hr)).
    rewrite (bind_Ret _ _ _ _ _ (deref_Some h_workspaces _ _ _ Hl)).
    unfold bind at 1. cbn [gets]. rewrite Hos.
    now destruct (ws_output s).
  - intros f. unfold moveFrameToWorkspace.
    unfold bind at 1. unfold gets. now rewrite Hos.
Qed.

Lemma no_output_panics_witness :
  ensureWorkspace 0 (set_wm (mkWM [] (mkConfig 5 960)
                                  [0%nat; 1%nat; 2%nat] 0)
                            (tiled_world srv_ok)) = Panic.
Proof.
  refine (proj1 (proj2 (no_output_panics 0
                          (set_wm (mkWM [] (mkConfig 5 960)
                                        [0%nat; 1%nat; 2%nat] 0)
                                  (tiled_world srv_ok)) eq_refl)) 0%nat _).
  exists [], [1%nat; 2%nat], (mkWorkspace 0 [0%nat; 1%nat] (Some 0%nat)).
  split; [reflexivity|]. split; [constructor|].
  split; [vm_compute; reflexivity|reflexivity].
Defined.

(** * Properties of the lifecycle of a frame *)

Import Lifecycle.

(** X14: a lifecycle call that fails never changes the frame.  When
    reparent, doMap, doUnmap, onUnmap or onDestroy returns an error, the
    record of the receiver (its container, its mapped flag and all the
    rest) is the one the call started with. *)
Theorem lifecycle_failure_keeps_frame (st st' : State) (e : error)
        (parent : Window) :
  (reparent parent st = (Some e, st') -> l_frame st' = l_frame st) /\
  (doMap st = (Some e, st') -> l_frame st' = l_frame st) /\
  (doUnmap st = (Some e, st') -> l_frame st' = l_frame st) /\
  (onUnmap st = (Some e, st') -> l_frame st' = l_frame st) /\
  (onDestroy st = (Some e, st') -> l_frame st' = l_frame st).
Proof.
  repeat split;
    unfold reparent, doMap, doUnmap, onUnmap, onDestroy, lbind, receiver,
      checked, unchecked, update, lret; cbn;
    repeat match goal with
           | |- context [if ?b then _ else _] => destruct b; cbn
           | |- context [match l_srv st ?l with _ => _ end] =>
             destruct (l_srv st l); cbn
           end;
    intros [= ? ?]; subst; reflexivity.
Qed.

Lemma lifecycle_failure_keeps_frame_witness :
  exists e st',
    doMap (mkState life_frame life_reject_client []) = (Some e, st') /\
    l_frame st' = life_frame /\
    l_log st' = [MapWindow 201; MapWindow 301].
Proof.
  eexists _, _. split; [vm_compute; reflexivity|].
  split; [|reflexivity].
  refine (proj1 (proj2 (lifecycle_failure_keeps_frame
                          (mkState life_frame life_reject_client []) _
                          (ErrorfErr "could not map window: %v" (XError 8))
                          0)) _).
  vm_compute. reflexivity.
Defined.





(** X17: unmapping and mapping again restores the frame.  For a mapped
    frame and a server that accepts the requests, onUnmap followed by doMap
    both return nil and leave the very record the frame had, container and
    position in the tree included; the server has seen the unmap of the
    container (when there is one), then the maps of container and
    client. *)
Theorem onUnmap_doMap_round_trip (st : State) :
  f_mapped (l_frame st) = true ->
  (forall l, l_srv st l = None) ->
  exists st1 st2,
    onUnmap st = (None, st1) /\
    f_mapped (l_frame st1) = false /\
    doMap st1 = (None, st2) /\
    l_frame st2 = l_frame st /\
    l_log st2
    = l_log st
      ++ (if f_parent (l_frame st) =? 0 then []
          else [UnmapWindow (f_parent (l_frame st))])
      ++ map_requests (l_frame st).
Proof.
  intros Hm Hok. destruct st as [f srv log]. cbn in Hm, Hok.
  destruct f as [c p cl h t m g ti]. cbn in Hm. subst m.
  unfold onUnmap, doMap, map_requests, lbind, receiver, checked, update, lret,
    set_mapped.
  simpl. destruct (p =? 0) eqn:Hp; simpl; rewrite ?Hok; simpl;
    (eexists _, _; split; [reflexivity|]; split; [reflexivity|];
     simpl; rewrite ?Hp; simpl; rewrite ?Hok; simpl;
     split; [reflexivity|]; simpl; split;
     [reflexivity|now rewrite <- ?app_assoc]).
Qed.

Lemma onUnmap_doMap_round_trip_witness :
  exists st1 st2,
    onUnmap (mkState (set_mapped life_frame true) life_accept [])
    = (None, st1) /\
    doMap st1 = (None, st2) /\
    l_frame st2 = set_mapped life_frame true /\
    l_log st2 = [UnmapWindow 201; MapWindow 201; MapWindow 301].
Proof.
  destruct (onUnmap_doMap_round_trip
              (mkState (set_mapped life_frame true) life_accept []))
    as (st1 & st2 & E1 & _ & E2 & Hf & Hl); [reflexivity|reflexivity|].
  exists st1, st2. auto.
Defined.

(** X18: the whole life of a normal frame against a server that accepts
    everything.  Reparented into the container [p], mapped, unmapped by the
    manager, notified of the unmap and then of the destruction, a frame
    that started unmapped ends as it started except for its container, and
    the server has seen, in this order: the reparenting, the insertion of
    the client into the save-set, the maps of container and client, the
    unmap of the client, the unmap of the container and the destruction
    of the container. *)
Theorem lifecycle_requests (f : frame) (p : Window)
        (srv : list Req -> option error) :
  p <> 0 ->
  f_mapped f = false ->
  (forall l, srv l = None) ->
  (do! _ := reparent p in
   do! _ := doMap in
   do! _ := doUnmap in
   do! _ := onUnmap in
   onDestroy) (mkState f srv [])
  = (None,
     mkState (set_parent f p) srv
             [ReparentWindow (window (f_client f)) p 0 0;
              ChangeSaveSet 0 (window (f_client f));
              MapWindow p;
              MapWindow (window (f_client f));
              UnmapWindow (window (f_client f));
              UnmapWindow p;
              DestroyWindow p]).
Proof.
  intros Hp Hm Hok. apply Z.eqb_neq in Hp.
  unfold reparent, doMap, doUnmap, onUnmap, onDestroy, lbind, receiver,
    checked, unchecked, update, lret.
  cbn. rewrite ?Hok. cbn. rewrite ?Hp. cbn. rewrite ?Hok. cbn.
  rewrite ?Hp. cbn. rewrite ?Hok. cbn. rewrite ?Hp. cbn. rewrite ?Hok. cbn.
  f_equal. f_equal. unfold set_parent, set_mapped. cbn.
  destruct f. cbn in *. now subst.
Qed.

Lemma lifecycle_requests_witness :
  (do! _ := reparent 201 in
   do! _ := doMap in
   do! _ := doUnmap in
   do! _ := onUnmap in
   onDestroy) (mkState (set_parent life_frame 0) life_accept [])
  = (None,
     mkState life_frame life_accept
             [ReparentWindow 301 201 0 0; ChangeSaveSet 0 301;
              MapWindow 201; MapWindow 301; UnmapWindow 301;
              UnmapWindow 201; DestroyWindow 201]).
Proof.
  refine (lifecycle_requests (set_parent life_frame 0) 201 life_accept
            _ _ _).
  - discriminate.
  - reflexivity.
  - reflexivity.
Defined.

(** * Properties of the key grabs *)

Lemma until_rejected_app srv r1 r2 log :
  Keys.until_rejected srv (r1 ++ r2) log
  = match Keys.until_rejected srv r1 log with
    | (Some err, log') => (Some err, log')
    | (None, log') => Keys.until_rejected srv r2 log'
    end.
Proof.
  revert log. induction r1 as [|r r1 IH]; intros log; cbn; [reflexivity|].
  destruct (srv (log ++ [r])); [reflexivity|apply IH].
Qed.

Lemma grabKeys_codes_until_rejected root srv modifiers codes log :
  Keys.grabKeys_codes root srv modifiers codes log
  = Keys.until_rejected srv
      (map (fun code => Keys.GrabKey false root (to_uint16 modifiers) code
                                     Keys.GrabModeAsync Keys.GrabModeAsync)
           codes) log.
Proof.
  revert log. induction codes as [|c codes IH]; intros log; cbn;
    [reflexivity|].
  destruct (srv _); [reflexivity|apply IH].
Qed.

Lemma grabKeys_until_rejected root srv acts log :
  Keys.grabKeys root srv (Some <$> acts) log
  = Keys.Done (Keys.until_rejected srv (Keys.grab_requests root acts) log).1
              (Keys.until_rejected srv (Keys.grab_requests root acts) log).2.
Proof.
  revert log. induction acts as [|a acts IH]; intros log; [reflexivity|].
  cbn [fmap list_fmap Keys.grabKeys Keys.grab_requests flat_map].
  rewrite until_rejected_app, grabKeys_codes_until_rejected.
  destruct (Keys.until_rejected srv _ log) as [[err|] log'];
    [reflexivity|apply IH].
Qed.

Lemma until_rejected_spec srv reqs log :
  match Keys.until_rejected srv reqs log with
  | (None, log') =>
    log' = log ++ reqs /\
    forall k, (1 <= k <= length reqs)%nat -> srv (log ++ take k reqs) = None
  | (Some err, log') =>
    exists n, (n < length reqs)%nat /\
              log' = log ++ take (S n) reqs /\
              srv log' = Some err /\
              forall k, (1 <= k <= n)%nat -> srv (log ++ take k reqs) = None
  end.
Proof.
  revert log. induction reqs as [|r reqs IH]; intros log; cbn.
  - split; [now rewrite app_nil_r|]. intros k Hk. lia.
  - destruct (srv (log ++ [r])) as [err|] eqn:Hr.
    + exists 0%nat. cbn. rewrite take_0. repeat split; [lia|exact Hr|].
      intros k Hk. lia.
    + specialize (IH (log ++ [r])).
      destruct (Keys.until_rejected srv reqs (log ++ [r])) as [[err|] log'].
      * destruct IH as (n & Hn & -> & Hs & Hk). exists (S n).
        rewrite <- !app_assoc in *. cbn in *.
        repeat split; [lia|exact Hs|].
        intros [|k] Hle; [lia|]. cbn. destruct k as [|k].
        -- now rewrite take_0.
        -- specialize (Hk (S k)). rewrite <- app_assoc in Hk. cbn in Hk.
           apply Hk. lia.
      * destruct IH as [-> Hk]. rewrite <- app_assoc. split; [reflexivity|].
        intros [|k] Hle; [lia|]. cbn. destruct k as [|k].
        -- now rewrite take_0.
        -- specialize (Hk (S k)). rewrite <- app_assoc in Hk. cbn in Hk.
           apply Hk. cbn in Hle. lia.
Qed.

(** X19: grabKeys stops at the first grab the server rejects.  Over
    actions none of which is nil it never panics; it returns nil exactly
    when the server has accepted every grab of every action, in the order
    of the actions and of their key codes; and when it returns an error,
    the error is the reply to the last request it sent, every earlier grab
    was accepted, and no later grab was sent. *)
Theorem grabKeys_first_error (root : Window)
        (srv : list Keys.Req -> option error) (acts : list Keys.action)
        (log : list Keys.Req) :
  match Keys.grabKeys root srv (Some <$> acts) log with
  | Keys.Done None log' =>
    log' = log ++ Keys.grab_requests root acts /\
    forall k, (1 <= k <= length (Keys.grab_requests root acts))%nat ->
              srv (log ++ take k (Keys.grab_requests root acts)) = None
  | Keys.Done (Some err) log' =>
    exists n, (n < length (Keys.grab_requests root acts))%nat /\
              log' = log ++ take (S n) (Keys.grab_requests root acts) /\
              srv log' = Some err /\
              forall k, (1 <= k <= n)%nat ->
                        srv (log ++ take k (Keys.grab_requests root acts))
                        = None
  | Keys.Panics => False
  end.
Proof.
  rewrite grabKeys_until_rejected.
  pose proof (until_rejected_spec srv (Keys.grab_requests root acts) log)
    as H.
  destruct (Keys.until_rejected srv (Keys.grab_requests root acts) log)
    as [[err|] log']; exact H.
Qed.

(** X20: a nil action makes grabKeys panic, but only when the loop gets
    to it: after the grabs of the actions before it have all been
    accepted.  When one of those is rejected, grabKeys returns that error
    and the nil action is never reached. *)
Theorem grabKeys_nil_action (root : Window)
        (srv : list Keys.Req -> option error) (acts : list Keys.action)
        (rest : list (option Keys.action)) (log : list Keys.Req) :
  Keys.grabKeys root srv ((Some <$> acts) ++ None :: rest) log
  = match Keys.until_rejected srv (Keys.grab_requests root acts) log with
    | (Some err, log') => Keys.Done (Some err) log'
    | (None, _) => Keys.Panics
    end.
Proof.
  revert log. induction acts as [|a acts IH]; intros log; [reflexivity|].
  cbn [fmap list_fmap app Keys.grabKeys Keys.grab_requests flat_map].
  rewrite until_rejected_app, grabKeys_codes_until_rejected.
  destruct (Keys.until_rejected srv _ log) as [[err|] log'];
    [reflexivity|apply IH].
Qed.

(** * Properties of the focus protocol *)

Lemma atom_le_bytes a :
  0 <= a < 2 ^ 32 ->
  Manager.atom_le (a mod 256) (a / 256 mod 256) (a / 65536 mod 256)
                  (a / 16777216 mod 256) = a.
Proof.
  intros Ha. unfold Manager.atom_le, wrap32.
  change 256 with (2 ^ 8). change 65536 with (2 ^ 16).
  change 16777216 with (2 ^ 24).
  apply Z.bits_inj'. intros n Hn.
  rewrite !Z.lor_spec.
  rewrite !Z.testbit_mod_pow2 by lia.
  rewrite !Z.shiftl_spec by lia.
  rewrite !Z.testbit_mod_pow2 by lia.
  assert (Hhi : 32 <= n -> Z.testbit a n = false).
  { intros Hge. destruct (Z.eq_dec a 0) as [->|]; [apply Z.testbit_0_l|].
    apply Z.bits_above_log2; [lia|]. apply Z.log2_lt_pow2; [lia|].
    pose proof (Z.pow_le_mono_r 2 32 n); lia. }
  destruct (Z.ltb_spec n 32); destruct (Z.ltb_spec n 8);
    destruct (Z.ltb_spec (n - 8) 8); destruct (Z.ltb_spec (n - 16) 8);
    destruct (Z.ltb_spec (n - 24) 8);
    try lia;
    rewrite ?(Z.testbit_neg_r _ (n - 8)), ?(Z.testbit_neg_r _ (n - 16)),
      ?(Z.testbit_neg_r _ (n - 24)) by lia;
    rewrite ?Z.div_pow2_bits by lia; cbn;
    rewrite ?andb_false_r, ?orb_false_r; cbn; rewrite ?Hhi by lia;
    try reflexivity; f_equal; lia.
Qed.

(** X21: takeFocusProp reads the property as 32-bit atoms, lowest byte
    first.  On the bytes of a list of atoms, followed by fewer than four
    stray bytes, it returns true exactly when the take-focus atom is among
    the atoms; it then has sent one client message (whatever the number of
    occurrences), and none otherwise.  The stray bytes are never read. *)
Theorem takeFocusProp_atoms (wmProtocols wmTakeFocus : Z) (atoms : list Z)
        (tail : list Z) (win : Window) (time : Z) :
  Forall (fun a => 0 <= a < 2 ^ 32) atoms ->
  (length tail < 4)%nat ->
  Manager.takeFocusProp wmProtocols wmTakeFocus
                        (flat_map Manager.le_bytes atoms ++ tail) win time
  = if bool_decide (wmTakeFocus ∈ atoms)
    then (true,
          [Manager.SendEvent false win 0
             (Manager.mkClientMessageEvent 32 win wmProtocols
                                           [wmTakeFocus; time; 0; 0; 0])])
    else (false, []).
Proof.
  intros Hr Ht. induction Hr as [|a atoms Ha Hr IH].
  - rewrite bool_decide_eq_false_2 by apply not_elem_of_nil.
    cbn. destruct tail as [|? [|? [|? [|? ?]]]]; cbn in *; try reflexivity.
    lia.
  - cbn [flat_map Manager.le_bytes app Manager.takeFocusProp].
    rewrite atom_le_bytes by exact Ha.
    destruct (Z.eqb_spec a wmTakeFocus) as [->|Hne].
    + rewrite bool_decide_eq_true_2 by apply list_elem_of_here. reflexivity.
    + rewrite IH. f_equal.
      destruct (decide (wmTakeFocus ∈ atoms)) as [Hin|Hin].
      * rewrite !bool_decide_eq_true_2; [reflexivity| |exact Hin].
        now apply list_elem_of_further.
      * rewrite !bool_decide_eq_false_2; [reflexivity| |exact Hin].
        intros [?|?]%elem_of_cons; [congruence|contradiction].
Qed.

Lemma takeFocusProp_atoms_witness :
  Manager.takeFocusProp 280 281
    ([24; 1; 0; 0; 25; 1; 0; 0; 25; 1; 0; 0; 7; 7] : list Z) 301 5000
  = (true,
     [Manager.SendEvent false 301 0
        (Manager.mkClientMessageEvent 32 301 280 [281; 5000; 0; 0; 0])]).
Proof.
  refine (takeFocusProp_atoms 280 281 [280; 281; 281] [7; 7] 301 5000 _ _).
  - repeat constructor; lia.
  - cbn. lia.
Defined.
